(** * Script index builder of the eternl-cardano-registry

    A shallow embedding of [scripts/generate-script-index.ts] (the index
    builder and merger), of [scripts/archived/import-missing-scripts.ts]
    (the import tool and its [normalizeHash]) and of the first generator
    of the index, followed by the properties that the registry's
    specification states of them and by further properties of the three
    programs.

    Conventions of the embedding.
    - A JavaScript string is a Rocq [string]; each character stands for
      one UTF-16 code unit in the range 0..255, so [String.length] is
      [.length], and [toLowerCase], [\s] and the character classes are
      written out for that range.  Code units above 255, some of which
      [toLowerCase] lengthens, are outside the model.
    - An optional field ([type?: string]) is an [option]; [None] is
      [undefined].  JavaScript truthiness is written out ([Js.truthy]):
      the empty string is falsy.
    - [plutusVersion] values are integers, modelled as [Z].  Those that
      a JavaScript number holds ([jsonExact]) are written to the index
      and read back unchanged.  A number literal too large for a double
      is read as [Infinity] and written as [null]; it is outside the
      model, and the statement on running the builder twice takes its
      numbers from [jsonExact].
    - A [Record<string, T>] is a [gmap string T] of the properties the
      object owns.  Where the source looks a free text up (a project id
      derived from a label, a project name), the members inherited from
      [Object.prototype] are modelled too ([Js.inherited]); script
      hashes are hexadecimal and never name one.
    - A project file whose JSON cannot be read, parsed or does not fit
      the declared interface (so that processing it throws) has no
      content; the builder logs it and goes on.
    - The run is a function of the lookup source, the clock and the disk;
      it returns the disk it leaves behind. *)

From Stdlib Require Import ZArith NArith Ascii String List Bool Lia.
From stdpp Require Import base tactics option list gmap strings fin_maps.

Local Open Scope string_scope.
Local Open Scope list_scope.
Local Open Scope Z_scope.

(** ** JavaScript string primitives *)

Module Js.

Definition code (c : ascii) : N := N_of_ascii c.

Definition inRange (lo hi : N) (c : ascii) : bool :=
  (lo <=? code c)%N && (code c <=? hi)%N.

(** [a-z], [A-Z] and [\d] of a regular expression without flags. *)
Definition isLower (c : ascii) : bool := inRange 97 122 c.
Definition isUpper (c : ascii) : bool := inRange 65 90 c.
Definition isDigit (c : ascii) : bool := inRange 48 57 c.

(** [\s] restricted to code units below 256: TAB, LF, VT, FF, CR, SP and
    NBSP. *)
Definition isSpace (c : ascii) : bool :=
  inRange 9 13 c || (code c =? 32)%N || (code c =? 160)%N.

(** [String.prototype.toLowerCase] on one code unit: A-Z, and the Latin-1
    capitals U+00C0..U+00DE except the multiplication sign U+00D7. *)
Definition toLowerCaseChar (c : ascii) : ascii :=
  if isUpper c || (inRange 192 222 c && negb (code c =? 215)%N)
  then ascii_of_N (code c + 32)
  else c.

Fixpoint toLowerCase (s : string) : string :=
  match s with
  | EmptyString => EmptyString
  | String c r => String (toLowerCaseChar c) (toLowerCase r)
  end.

(** [s.slice(0, n)]. *)
Definition slice0 (n : nat) (s : string) : string := substring 0 n s.

(** Truthiness of a string value: only the empty string is falsy. *)
Definition truthyStr (s : string) : bool :=
  match s with EmptyString => false | _ => true end.

(** Truthiness of an optional string: [undefined] is falsy too. *)
Definition truthy (o : option string) : bool :=
  match o with Some s => truthyStr s | None => false end.

(** [a || b] on optional strings. *)
Definition or (a b : option string) : option string :=
  if truthy a then a else b.

(** [a ?? b]. *)
Definition nullish {A} (a b : option A) : option A :=
  match a with Some _ => a | None => b end.

(** [parseInt(d, 10)] of a one-digit string. *)
Definition digitValue (c : ascii) : Z := Z.of_N (code c - 48).

(** The property names that every object inherits from
    [Object.prototype].  Where an object does not own such a name,
    [o[name]] is the inherited member: a function (for [__proto__] the
    prototype itself), which is truthy and has no enumerable property of
    its own. *)
Definition objectPrototypeNames : list string :=
  ["constructor"; "__defineGetter__"; "__defineSetter__"; "hasOwnProperty";
   "__lookupGetter__"; "__lookupSetter__"; "isPrototypeOf";
   "propertyIsEnumerable"; "toString"; "valueOf"; "__proto__";
   "toLocaleString"].

Definition inherited (name : string) : bool :=
  existsb (String.eqb name) objectPrototypeNames.

End Js.

(** ** The hash normalizer of the import tool
    (scripts/archived/import-missing-scripts.ts, [normalizeHash]) *)

Definition normalizeHash (hash : string) : string :=
  if (String.length hash =? 112)%nat
  then Js.toLowerCase (Js.slice0 56 hash)
  else Js.toLowerCase hash.

(** ** Project identifiers (generate-script-index.ts, [toKebabCase]) *)

Module Kebab.

Definition dash : ascii := "-"%char.

(** [.replace(/([a-z])([A-Z])/g, '$1-$2')] *)
Fixpoint splitCamel (s : string) : string :=
  match s with
  | EmptyString => EmptyString
  | String a r =>
      match r with
      | String b _ =>
          if Js.isLower a && Js.isUpper b
          then String a (String dash (splitCamel r))
          else String a (splitCamel r)
      | EmptyString => String a EmptyString
      end
  end.

Definition isSeparator (c : ascii) : bool :=
  Js.isSpace c || (Js.code c =? 95)%N.

(** [.replace(/[\s_]+/g, '-')]: [inRun] tells that the preceding
    character belonged to the run being replaced. *)
Fixpoint collapse (inRun : bool) (s : string) : string :=
  match s with
  | EmptyString => EmptyString
  | String c r =>
      if isSeparator c
      then if inRun then collapse true r else String dash (collapse true r)
      else String c (collapse false r)
  end.

Definition isSlugChar (c : ascii) : bool :=
  Js.isLower c || Js.isUpper c || Js.isDigit c || (Js.code c =? 45)%N.

(** [.replace(/[^a-z0-9-]/gi, '')] *)
Fixpoint strip (s : string) : string :=
  match s with
  | EmptyString => EmptyString
  | String c r => if isSlugChar c then String c (strip r) else strip r
  end.

End Kebab.

Definition toKebabCase (str : string) : string :=
  Js.toLowerCase (Kebab.strip (Kebab.collapse false (Kebab.splitCamel str))).

(** ** The external lookup (generate-script-index.ts, [lookupScriptInfo]) *)

(** A row of [SELECT type FROM script ...]; [None] is SQL NULL. *)
Record DbRow := { row_type : option string }.

(** What [dbPool.query] does: it rejects, or resolves to a result whose
  [rows] may be missing. *)
Inductive QueryOutcome :=
| QueryThrows
| QueryResult (rows : option (list DbRow)).

(** The connection pool: [None] is the [null] pool ([initDb] returned
  [false]); otherwise the answer of the database to each hash. *)
Definition DbPool := option (string -> QueryOutcome).

Record ScriptInfo := { info_type : string; info_plutusVersion : Z }.

Module Regex.

(** Case-insensitive test that [s] starts with [pat] (flag [i]); yields
    the rest of [s]. *)
Fixpoint prefixCI (pat s : string) : option string :=
  match pat with
  | EmptyString => Some s
  | String p pat' =>
      match s with
      | String c s' =>
          if Ascii.eqb (Js.toLowerCaseChar p) (Js.toLowerCaseChar c)
          then prefixCI pat' s' else None
      | EmptyString => None
      end
  end.

(** [/PlutusV(\d)/i] tried at the start of [s]: the captured digit. *)
Definition plutusVAt (s : string) : option ascii :=
  match prefixCI "PlutusV" s with
  | Some (String d _) => if Js.isDigit d then Some d else None
  | _ => None
  end.

(** [dbType.match(/PlutusV(\d)/i)]: the leftmost match, [match[1]]. *)
Fixpoint matchPlutusV (s : string) : option ascii :=
  match plutusVAt s with
  | Some d => Some d
  | None =>
      match s with
      | EmptyString => None
      | String _ r => matchPlutusV r
      end
  end.

End Regex.

(** The body of the [try] block: [inl tt] is a thrown exception. *)
Definition lookupTry (query : string -> QueryOutcome) (scriptHash : string)
  : unit + option ScriptInfo :=
  match query scriptHash with
  | QueryThrows => inl tt
  | QueryResult None => inr None
  | QueryResult (Some []) => inr None
  | QueryResult (Some (row :: _)) =>
      match row_type row with
      | None => inl tt (* null === 'timelock' is false; null.match throws *)
      | Some dbType =>
          if String.eqb dbType "timelock"
          then inr (Some {| info_type := "NATIVE"; info_plutusVersion := 0 |})
          else match Regex.matchPlutusV dbType with
               | Some d => inr (Some {| info_type := "PLUTUS";
                                        info_plutusVersion := Js.digitValue d |})
               | None => inr None
               end
      end
  end.

Definition lookupScriptInfo (dbPool : DbPool) (scriptHash : string)
  : option ScriptInfo :=
  match dbPool with
  | None => None
  | Some query =>
      match lookupTry query scriptHash with
      | inr r => r
      | inl _ => None (* catch (e) { return null; } *)
      end
  end.

(** ** Data model (generate-script-index.ts, the interfaces) *)

Module ProjectScript.
Record t := mk {
  name : string;
  scriptHash : string;        (* the empty string also stands for a missing hash *)
  purpose : option string;
  type : option string;
  plutusVersion : option Z }.
End ProjectScript.

Module Project.
Record t := mk {
  label : option string;
  projectName : option string;
  category : option string;
  subCategory : option string;
  link : option (option string);      (* [link?.website]; other keys are not read *)
  scripts : option (list ProjectScript.t) }.
End Project.

Module ScriptEntry.
Record t := mk {
  projectId : string;
  name : string;
  purpose : option string;
  type : option string;
  plutusVersion : option Z }.
End ScriptEntry.

Module ProjectEntry.
Record t := mk {
  label : string;
  category : string;
  subCategory : option string;
  link : option string }.
End ProjectEntry.

Record Metadata := {
  generatedAt : string;
  scriptCount : nat;
  projectCount : nat }.

Record ScriptIndex := {
  metadata : Metadata;
  scripts : gmap string ScriptEntry.t;
  projects : gmap string ProjectEntry.t }.

#[global] Instance ProjectScript_eq_dec : EqDecision ProjectScript.t.
Proof. solve_decision. Defined.
#[global] Instance Project_eq_dec : EqDecision Project.t.
Proof. solve_decision. Defined.
#[global] Instance ScriptEntry_eq_dec : EqDecision ScriptEntry.t.
Proof. solve_decision. Defined.
#[global] Instance ProjectEntry_eq_dec : EqDecision ProjectEntry.t.
Proof. solve_decision. Defined.

(** ** The file system the builder sees *)

(** [registry/scripts/script-index.json]. *)
Inductive IndexFile :=
| IndexAbsent
| IndexUnparseable
| IndexJson (index : ScriptIndex).

(** A project file's content: [None] when reading or parsing it throws. *)
Definition FileContent := option Project.t.

(** [projectsDir] is [None] when [registry/projects] does not exist, else
    its entries in [readdirSync] order. *)
Record Disk := {
  indexFile : IndexFile;
  projectsDir : option (list (string * FileContent)) }.

(** [fs.writeFileSync(path, JSON.stringify(project))] inside the projects
    directory: the file is replaced, or created. *)
Fixpoint writeFile (path : string) (c : FileContent)
    (dir : list (string * FileContent)) : list (string * FileContent) :=
  match dir with
  | [] => [(path, c)]
  | (n, c0) :: dir' =>
      if String.eqb n path then (n, c) :: dir'
      else (n, c0) :: writeFile path c dir'
  end.

(** [f.endsWith(suffix)] *)
Definition endsWith (f suffix : string) : bool :=
  (String.length suffix <=? String.length f)%nat &&
  String.eqb
    (substring (String.length f - String.length suffix) (String.length suffix) f)
    suffix.

(** ** The builder's state *)

Inductive LogLine :=
| LogProjectAdded (projectId : string)          (* "+ Project: ..." *)
| LogSkipping (file : string)                   (* no label or projectName *)
| LogLookingUp (hash16 : string)
| LogFound (info : ScriptInfo)
| LogNotFound
| LogScriptAdded (name hash12 : string)         (* "+ name (hash...)" *)
| LogScriptUpdated (name hash12 : string)       (* "~ name (hash...)" *)
| LogError (file : string).

Record BuildState := {
  st_scripts : gmap string ScriptEntry.t;
  st_projects : gmap string ProjectEntry.t;
  added : nat;
  updated : nat;
  unchanged : nat;
  lookupCount : nat;
  projectFilesToUpdate : list (string * Project.t);   (* a Map, in insertion order *)
  log : list LogLine }.

(** [Map.prototype.set] *)
Fixpoint mapSet {A} (k : string) (v : A) (m : list (string * A)) : list (string * A) :=
  match m with
  | [] => [(k, v)]
  | (k0, v0) :: m' =>
      if String.eqb k0 k then (k0, v) :: m' else (k0, v0) :: mapSet k v m'
  end.

(** ** Metadata resolution (generate-script-index.ts, lines 228-271) *)

(** The local [type] and [plutusVersion], the script object after the
    write-back, whether [projectModified] was set, the lookups made and
    the lines logged. *)
Record Resolution := {
  r_type : option string;
  r_plutusVersion : option Z;
  r_script : ProjectScript.t;
  r_modified : bool;
  r_lookups : nat;
  r_log : list LogLine }.

(** Lines 236-247 and 254-266: the same statements, with [existing] resp.
    [info] as the source of [srcType] and [srcVersion]. *)
Definition fillFrom (script : ProjectScript.t)
    (srcType : option string) (srcVersion : option Z)
    (lookups : nat) (lines : list LogLine) : Resolution :=
  let type := Js.or (ProjectScript.type script) srcType in
  let plutusVersion := Js.nullish (ProjectScript.plutusVersion script) srcVersion in
  let fillType := negb (Js.truthy (ProjectScript.type script)) && Js.truthy srcType in
  let script1 :=
    if fillType
    then ProjectScript.mk (ProjectScript.name script) (ProjectScript.scriptHash script)
           (ProjectScript.purpose script) srcType (ProjectScript.plutusVersion script)
    else script in
  let fillVersion :=
    bool_decide (ProjectScript.plutusVersion script1 = None) &&
    bool_decide (srcVersion <> None) in
  let script2 :=
    if fillVersion
    then ProjectScript.mk (ProjectScript.name script1) (ProjectScript.scriptHash script1)
           (ProjectScript.purpose script1) (ProjectScript.type script1) srcVersion
    else script1 in
  {| r_type := type; r_plutusVersion := plutusVersion; r_script := script2;
     r_modified := fillType || fillVersion; r_lookups := lookups; r_log := lines |}.

Definition unresolved (script : ProjectScript.t) (lookups : nat)
    (lines : list LogLine) : Resolution :=
  {| r_type := ProjectScript.type script;
     r_plutusVersion := ProjectScript.plutusVersion script;
     r_script := script; r_modified := false;
     r_lookups := lookups; r_log := lines |}.

(** [existing.type && existing.plutusVersion !== undefined] *)
Definition hasClassification (e : ScriptEntry.t) : bool :=
  Js.truthy (ScriptEntry.type e) &&
  bool_decide (ScriptEntry.plutusVersion e <> None).

(** Lines 248-270: the [else if (dbAvailable)] branch. *)
Definition viaLookup (dbPool : DbPool) (hash : string)
    (script : ProjectScript.t) : Resolution :=
  match dbPool with
  | Some _ =>
      match lookupScriptInfo dbPool hash with
      | Some info =>
          fillFrom script (Some (info_type info)) (Some (info_plutusVersion info))
            1 [LogLookingUp (Js.slice0 16 hash); LogFound info]
      | None =>
          unresolved script 1 [LogLookingUp (Js.slice0 16 hash); LogNotFound]
      end
  | None => unresolved script 0 []
  end.

Definition resolve (dbPool : DbPool) (existing : option ScriptEntry.t)
    (hash : string) (script : ProjectScript.t) : Resolution :=
  if negb (Js.truthy (ProjectScript.type script)) ||
     bool_decide (ProjectScript.plutusVersion script = None)
  then
    match existing with
    | Some e =>
        if hasClassification e
        then fillFrom script (ScriptEntry.type e) (ScriptEntry.plutusVersion e) 0 []
        else viaLookup dbPool hash script
    | None => viaLookup dbPool hash script
    end
  else unresolved script 0 [].

(** ** The diff tracker and the per-script step (lines 220-298) *)

(** Lines 286-290: the five [!==] comparisons. *)
Definition differs (existing newEntry : ScriptEntry.t) : bool :=
  negb (String.eqb (ScriptEntry.projectId existing) (ScriptEntry.projectId newEntry)) ||
  negb (String.eqb (ScriptEntry.name existing) (ScriptEntry.name newEntry)) ||
  negb (bool_decide (ScriptEntry.purpose existing = ScriptEntry.purpose newEntry)) ||
  negb (bool_decide (ScriptEntry.type existing = ScriptEntry.type newEntry)) ||
  negb (bool_decide (ScriptEntry.plutusVersion existing = ScriptEntry.plutusVersion newEntry)).

Definition afterResolution (st : BuildState) (r : Resolution) : BuildState :=
  {| st_scripts := st_scripts st; st_projects := st_projects st;
     added := added st; updated := updated st; unchanged := unchanged st;
     lookupCount := (lookupCount st + r_lookups r)%nat;
     projectFilesToUpdate := projectFilesToUpdate st;
     log := log st ++ r_log r |}.

Definition recordAdded (hash : string) (e : ScriptEntry.t) (st : BuildState) : BuildState :=
  {| st_scripts := <[hash := e]> (st_scripts st); st_projects := st_projects st;
     added := S (added st); updated := updated st; unchanged := unchanged st;
     lookupCount := lookupCount st;
     projectFilesToUpdate := projectFilesToUpdate st;
     log := log st ++ [LogScriptAdded (ScriptEntry.name e) (Js.slice0 12 hash)] |}.

Definition recordUpdated (hash : string) (e : ScriptEntry.t) (st : BuildState) : BuildState :=
  {| st_scripts := <[hash := e]> (st_scripts st); st_projects := st_projects st;
     added := added st; updated := S (updated st); unchanged := unchanged st;
     lookupCount := lookupCount st;
     projectFilesToUpdate := projectFilesToUpdate st;
     log := log st ++ [LogScriptUpdated (ScriptEntry.name e) (Js.slice0 12 hash)] |}.

Definition recordUnchanged (st : BuildState) : BuildState :=
  {| st_scripts := st_scripts st; st_projects := st_projects st;
     added := added st; updated := updated st; unchanged := S (unchanged st);
     lookupCount := lookupCount st;
     projectFilesToUpdate := projectFilesToUpdate st;
     log := log st |}.

(** The candidate entry of lines 273-279. *)
Definition newEntryOf (projectId : string) (script : ProjectScript.t)
    (r : Resolution) : ScriptEntry.t :=
  {| ScriptEntry.projectId := projectId;
     ScriptEntry.name := ProjectScript.name script;
     ScriptEntry.purpose := ProjectScript.purpose script;
     ScriptEntry.type := r_type r;
     ScriptEntry.plutusVersion := r_plutusVersion r |}.

(** Lines 281-297: the diff tracker, given what [scripts[hash]] held when
    the iteration started. *)
Definition classify (existing : option ScriptEntry.t) (hash : string)
    (newEntry : ScriptEntry.t) (st : BuildState) : BuildState :=
  match existing with
  | None => recordAdded hash newEntry st
  | Some e =>
      if differs e newEntry
      then recordUpdated hash newEntry st
      else recordUnchanged st
  end.

(** One iteration of [for (const script of project.scripts)]: the state,
    the script object after the iteration and whether the iteration set
    [projectModified]. *)
Definition processScript (dbPool : DbPool) (projectId : string)
    (st : BuildState) (script : ProjectScript.t)
  : BuildState * ProjectScript.t * bool :=
  if negb (Js.truthyStr (ProjectScript.scriptHash script))
  then (st, script, false)                                   (* continue *)
  else
    let hash := Js.toLowerCase (ProjectScript.scriptHash script) in
    let existing := st_scripts st !! hash in
    let r := resolve dbPool existing hash script in
    let newEntry := newEntryOf projectId script r in
    (classify existing hash newEntry (afterResolution st r),
     r_script r, r_modified r).

(** The whole [for] loop over [project.scripts]. *)
Fixpoint processScripts (dbPool : DbPool) (projectId : string)
    (st : BuildState) (scripts : list ProjectScript.t)
  : BuildState * list ProjectScript.t * bool :=
  match scripts with
  | [] => (st, [], false)
  | script :: rest =>
      let '(st1, script', m1) := processScript dbPool projectId st script in
      let '(st2, rest', m2) := processScripts dbPool projectId st1 rest in
      (st2, script' :: rest', m1 || m2)
  end.

(** ** The per-project step (lines 184-307) *)

(** Line 202: [project.category || 'UNKNOWN']. *)
Definition categoryOrUnknown (project : Project.t) : string :=
  match Project.category project with
  | Some c => if Js.truthyStr c then c else "UNKNOWN"
  | None => "UNKNOWN"
  end.

(** Line 204: [project.link?.website]. *)
Definition websiteOf (project : Project.t) : option string :=
  match Project.link project with
  | Some website => website
  | None => None
  end.

(** Lines 200-205. *)
Definition newProjectEntryOf (projectLabel : string) (project : Project.t)
  : ProjectEntry.t :=
  {| ProjectEntry.label := projectLabel;
     ProjectEntry.category := categoryOrUnknown project;
     ProjectEntry.subCategory := Project.subCategory project;
     ProjectEntry.link := websiteOf project |}.

(** [{ ...old, ...newProjectEntry }]: [newProjectEntry] owns all four
    properties, those holding [undefined] included, so each of them
    overrides the old one. *)
Definition spread (old newProjectEntry : ProjectEntry.t) : ProjectEntry.t :=
  {| ProjectEntry.label := ProjectEntry.label newProjectEntry;
     ProjectEntry.category := ProjectEntry.category newProjectEntry;
     ProjectEntry.subCategory := ProjectEntry.subCategory newProjectEntry;
     ProjectEntry.link := ProjectEntry.link newProjectEntry |}.

Definition withLog (st : BuildState) (lines : list LogLine) : BuildState :=
  {| st_scripts := st_scripts st; st_projects := st_projects st;
     added := added st; updated := updated st; unchanged := unchanged st;
     lookupCount := lookupCount st;
     projectFilesToUpdate := projectFilesToUpdate st;
     log := log st ++ lines |}.

(** Lines 207-213.  [projectId] is a result of [toKebabCase]: of the
    inherited names it can only be [constructor].  When the map does not
    own such a name, [projects[projectId]] is the inherited member, which
    is truthy: the [else] branch spreads it, which adds nothing, and
    creates the entry without the "+ Project" line. *)
Definition upsertProject (projectId : string) (e : ProjectEntry.t)
    (st : BuildState) : BuildState :=
  match st_projects st !! projectId with
  | None =>
      {| st_scripts := st_scripts st;
         st_projects := <[projectId := e]> (st_projects st);
         added := added st; updated := updated st; unchanged := unchanged st;
         lookupCount := lookupCount st;
         projectFilesToUpdate := projectFilesToUpdate st;
         log := if Js.inherited projectId then log st
                else log st ++ [LogProjectAdded projectId] |}
  | Some old =>
      {| st_scripts := st_scripts st;
         st_projects := <[projectId := spread old e]> (st_projects st);
         added := added st; updated := updated st; unchanged := unchanged st;
         lookupCount := lookupCount st;
         projectFilesToUpdate := projectFilesToUpdate st;
         log := log st |}
  end.

(** Line 302. *)
Definition stage (filePath : string) (project : Project.t) (st : BuildState)
  : BuildState :=
  {| st_scripts := st_scripts st; st_projects := st_projects st;
     added := added st; updated := updated st; unchanged := unchanged st;
     lookupCount := lookupCount st;
     projectFilesToUpdate := mapSet filePath project (projectFilesToUpdate st);
     log := log st |}.

Definition withScripts (project : Project.t) (scripts : list ProjectScript.t)
  : Project.t :=
  Project.mk (Project.label project) (Project.projectName project)
    (Project.category project) (Project.subCategory project)
    (Project.link project) (Some scripts).

(** Lines 191-195: [project.label || project.projectName], when it is
    truthy. *)
Definition usableLabel (project : Project.t) : option string :=
  match Js.or (Project.label project) (Project.projectName project) with
  | Some l => if Js.truthyStr l then Some l else None
  | None => None
  end.

(** One iteration of [for (const file of files)]. *)
Definition processFile (dbPool : DbPool) (st : BuildState)
    (file : string * FileContent) : BuildState :=
  match snd file with
  | None => withLog st [LogError (fst file)]                 (* catch (e) *)
  | Some project =>
      match usableLabel project with
      | None => withLog st [LogSkipping (fst file)]          (* continue *)
      | Some projectLabel =>
          let projectId := toKebabCase projectLabel in
          let st1 := upsertProject projectId
                       (newProjectEntryOf projectLabel project) st in
          match Project.scripts project with
          | None => st1
          | Some [] => st1
          | Some scripts =>
              let '(st2, scripts', projectModified) :=
                processScripts dbPool projectId st1 scripts in
              if projectModified
              then stage (fst file) (withScripts project scripts') st2
              else st2
          end
      end
  end.

(** ** The run (generate-script-index.ts, [generateScriptIndex]) *)

Definition initialState (existingIndex : option ScriptIndex) : BuildState :=
  {| st_scripts := match existingIndex with Some i => scripts i | None => ∅ end;
     st_projects := match existingIndex with Some i => projects i | None => ∅ end;
     added := 0; updated := 0; unchanged := 0; lookupCount := 0;
     projectFilesToUpdate := []; log := [] |}.

(** Lines 153-162. *)
Definition loadExisting (f : IndexFile) : option ScriptIndex :=
  match f with
  | IndexJson i => Some i
  | IndexUnparseable => None
  | IndexAbsent => None
  end.

(** Lines 324-332; [now] is [new Date().toISOString()]. *)
Definition finalize (now : string) (st : BuildState) : ScriptIndex :=
  {| metadata := {| generatedAt := now;
                    scriptCount := size (st_scripts st);
                    projectCount := size (st_projects st) |};
     scripts := st_scripts st;
     projects := st_projects st |}.

(** The "=== Summary ===" block. *)
Record Summary := {
  sum_added : nat;
  sum_updated : nat;
  sum_unchanged : nat;
  sum_lookups : nat;
  sum_filesUpdated : nat;
  sum_totalScripts : nat;
  sum_totalProjects : nat }.

Definition summarize (st : BuildState) (index : ScriptIndex) : Summary :=
  {| sum_added := added st; sum_updated := updated st;
     sum_unchanged := unchanged st; sum_lookups := lookupCount st;
     sum_filesUpdated := length (projectFilesToUpdate st);
     sum_totalScripts := scriptCount (metadata index);
     sum_totalProjects := projectCount (metadata index) |}.

(** Lines 313-318. *)
Definition writeProjectFiles (staged : list (string * Project.t))
    (dir : list (string * FileContent)) : list (string * FileContent) :=
  fold_left (fun d kv => writeFile (fst kv) (Some (snd kv)) d) staged dir.

Definition isJsonFile (file : string * FileContent) : bool :=
  endsWith (fst file) ".json".

(** The main loop over the [.json] files of the directory. *)
Definition buildFrom (dbPool : DbPool) (st : BuildState)
    (dir : list (string * FileContent)) : BuildState :=
  fold_left (processFile dbPool) (filter (fun f => Is_true (isJsonFile f)) dir) st.

Record RunResult := {
  finalState : BuildState;
  finalIndex : ScriptIndex;
  summary : Summary;
  diskAfter : Disk }.

Inductive Outcome :=
| Exit1                    (* process.exit(1): the projects directory is missing *)
| Completed (r : RunResult).

Definition generateScriptIndex (dbPool : DbPool) (now : string)
    (dryRun : bool) (disk : Disk) : Outcome :=
  let existingIndex := loadExisting (indexFile disk) in
  match projectsDir disk with
  | None => Exit1
  | Some dir =>
      let st := buildFrom dbPool (initialState existingIndex) dir in
      let index := finalize now st in
      let disk' :=
        if dryRun then disk
        else {| indexFile := IndexJson index;
                projectsDir := Some (writeProjectFiles (projectFilesToUpdate st) dir) |} in
      Completed {| finalState := st; finalIndex := index;
                   summary := summarize st index; diskAfter := disk' |}
  end.

(** ** Vocabulary of the statements *)

(** Some compared field of the prior entry is not the candidate's. *)
Definition fieldsDiffer (prior candidate : ScriptEntry.t) : Prop :=
  ScriptEntry.projectId prior ≠ ScriptEntry.projectId candidate ∨
  ScriptEntry.name prior ≠ ScriptEntry.name candidate ∨
  ScriptEntry.purpose prior ≠ ScriptEntry.purpose candidate ∨
  ScriptEntry.type prior ≠ ScriptEntry.type candidate ∨
  ScriptEntry.plutusVersion prior ≠ ScriptEntry.plutusVersion candidate.

#[global] Instance fieldsDiffer_dec prior candidate :
  Decision (fieldsDiffer prior candidate).
Proof. unfold fieldsDiffer. apply _. Defined.

Definition counters (st : BuildState) : nat * nat * nat :=
  (added st, updated st, unchanged st).

(** The entry a script object stands for in the index. *)
Definition entryOf (projectId : string) (script : ProjectScript.t) : ScriptEntry.t :=
  {| ScriptEntry.projectId := projectId;
     ScriptEntry.name := ProjectScript.name script;
     ScriptEntry.purpose := ProjectScript.purpose script;
     ScriptEntry.type := ProjectScript.type script;
     ScriptEntry.plutusVersion := ProjectScript.plutusVersion script |}.

(** The key under which the builder files a script (line 225). *)
Definition keyOf (script : ProjectScript.t) : string :=
  Js.toLowerCase (ProjectScript.scriptHash script).

(** The pattern [/PlutusV(\d)/i] matches [dbType] after [pre], capturing
    [d]: the form in which the lemmas on [Regex.matchPlutusV] are stated. *)
Definition regexAt (dbType pre : string) (d : ascii) : Prop :=
  ∃ w suf, dbType = String.append pre (String.append w (String d suf)) ∧
           Js.toLowerCase w = "plutusv" ∧ Js.isDigit d = true.

(** The decimal digits and their values. *)
Definition decimalDigits : list (ascii * Z) :=
  [("0"%char, 0); ("1"%char, 1); ("2"%char, 2); ("3"%char, 3); ("4"%char, 4);
   ("5"%char, 5); ("6"%char, 6); ("7"%char, 7); ("8"%char, 8); ("9"%char, 9)].

(** The letters of the word PlutusV, each in upper and in lower case. *)
Definition plutusVLetters : list (ascii * ascii) :=
  [("P", "p"); ("L", "l"); ("U", "u"); ("T", "t"); ("U", "u"); ("S", "s");
   ("V", "v")]%char.

(** [w] spells the letters, each in either case. *)
Fixpoint spells (letters : list (ascii * ascii)) (w : string) : bool :=
  match letters, w with
  | [], EmptyString => true
  | (upper, lower) :: letters', String c w' =>
      (Ascii.eqb c upper || Ascii.eqb c lower) && spells letters' w'
  | _, _ => false
  end.

(** After [pre], [dbType] holds the word PlutusV, in any letter case,
    followed by the decimal digit of value [n]. *)
Definition plutusAt (dbType pre : string) (n : Z) : Prop :=
  ∃ w d suf, dbType = String.append pre (String.append w (String d suf)) ∧
             spells plutusVLetters w = true ∧ (d, n) ∈ decimalDigits.

(** [dbType] holds such a word, and [n] is the digit of the leftmost
    one. *)
Definition VersionedPlutus (dbType : string) (n : Z) : Prop :=
  ∃ pre, plutusAt dbType pre n ∧
         ∀ pre' n', plutusAt dbType pre' n' →
                    (String.length pre <= String.length pre')%nat.

(** The classification of a db-sync answer: the first row decides;
    'timelock' is a native script; a type that holds the word PlutusV
    followed by a digit is a Plutus script of the version that the
    leftmost such digit gives. *)
Inductive Classified : QueryOutcome → ScriptInfo → Prop :=
| classified_native row rest :
    row_type row = Some "timelock" →
    Classified (QueryResult (Some (row :: rest)))
      {| info_type := "NATIVE"; info_plutusVersion := 0 |}
| classified_plutus row rest dbType n :
    row_type row = Some dbType → dbType ≠ "timelock" →
    VersionedPlutus dbType n →
    Classified (QueryResult (Some (row :: rest)))
      {| info_type := "PLUTUS"; info_plutusVersion := n |}.

(** The hexadecimal digits, each with its lower-case form. *)
Definition hexDigits : list (ascii * ascii) :=
  [("0", "0"); ("1", "1"); ("2", "2"); ("3", "3"); ("4", "4"); ("5", "5");
   ("6", "6"); ("7", "7"); ("8", "8"); ("9", "9");
   ("a", "a"); ("A", "a"); ("b", "b"); ("B", "b"); ("c", "c"); ("C", "c");
   ("d", "d"); ("D", "d"); ("e", "e"); ("E", "e"); ("f", "f"); ("F", "f")]%char.

(** [h] is a string of hexadecimal digits and [k] is [h] in lower case,
    digit by digit. *)
Fixpoint lowerHex (h k : string) : bool :=
  match h, k with
  | EmptyString, EmptyString => true
  | String c h', String c' k' =>
      existsb (fun p => Ascii.eqb (fst p) c && Ascii.eqb (snd p) c') hexDigits
      && lowerHex h' k'
  | _, _ => false
  end.

(** The script records of a file that the builder processes: those of a
    readable project with a usable label. *)
Definition processedScripts (file : string * FileContent) : list ProjectScript.t :=
  match snd file with
  | Some project =>
      match usableLabel project with
      | Some _ => default [] (Project.scripts project)
      | None => []
      end
  | None => []
  end.

(** The keys a list of script records is filed under (records without a
    hash are skipped). *)
Definition keysOf (ss : list ProjectScript.t) : list string :=
  keyOf <$> filter (fun s => ProjectScript.scriptHash s ≠ "") ss.

(** The keys produced by one pass over the projects directory. *)
Fixpoint passKeys (dir : list (string * FileContent)) : list string :=
  match dir with
  | [] => []
  | file :: rest =>
      (if isJsonFile file then keysOf (processedScripts file) else []) ++ passKeys rest
  end.

(** One step of the main loop, the [.json] filter included. *)
Definition stepFile (dbPool : DbPool) (st : BuildState)
    (file : string * FileContent) : BuildState :=
  if isJsonFile file then processFile dbPool st file else st.

(** The project a file contributes to the projects map. *)
Definition projectOf (file : string * FileContent)
  : option (string * ProjectEntry.t) :=
  if isJsonFile file then
    match snd file with
    | Some project =>
        match usableLabel project with
        | Some l => Some (toKebabCase l, newProjectEntryOf l project)
        | None => None
        end
    | None => None
    end
  else None.

(** The entry of the last file, in processing order, whose project has
    the identifier [projectId]. *)
Fixpoint lastUpsert (projectId : string) (dir : list (string * FileContent))
  : option ProjectEntry.t :=
  match dir with
  | [] => None
  | file :: rest =>
      match lastUpsert projectId rest with
      | Some e => Some e
      | None =>
          match projectOf file with
          | Some (pid, e) => if String.eqb pid projectId then Some e else None
          | None => None
          end
      end
  end.

#[global] Instance ScriptInfo_eq_dec : EqDecision ScriptInfo.
Proof. solve_decision. Defined.
#[global] Instance LogLine_eq_dec : EqDecision LogLine.
Proof. solve_decision. Defined.

(** How often "+ Project: projectId" was logged. *)
Definition projectAddedCount (projectId : string) (lines : list LogLine) : nat :=
  length (filter (fun l => l = LogProjectAdded projectId) lines).


(** The projects map the run starts from (line 166). *)
Definition priorProjects (disk : Disk) : gmap string ProjectEntry.t :=
  match loadExisting (indexFile disk) with
  | Some i => projects i
  | None => ∅
  end.

(** The record carries a classification: a truthy [type] and a
    [plutusVersion]. *)
Definition complete (script : ProjectScript.t) : bool :=
  Js.truthy (ProjectScript.type script) &&
  bool_decide (ProjectScript.plutusVersion script ≠ None).

(** Where the resolver takes a missing classification from: the entry
    the index holds for the hash, if that entry is classified, else the
    answer of the lookup source, if it gives one. *)
Definition resolutionSource (dbPool : DbPool) (existing : option ScriptEntry.t)
    (hash : string) : option (option string * option Z) :=
  match existing with
  | Some e =>
      if hasClassification e
      then Some (ScriptEntry.type e, ScriptEntry.plutusVersion e)
      else (fun info => (Some (info_type info), Some (info_plutusVersion info)))
             <$> lookupScriptInfo dbPool hash
  | None =>
      (fun info => (Some (info_type info), Some (info_plutusVersion info)))
        <$> lookupScriptInfo dbPool hash
  end.

(** The project object staged for a rewrite by the iteration over [file],
    if the iteration stages one (line 302). *)
Definition stagedFile (dbPool : DbPool) (st : BuildState)
    (file : string * FileContent) : option Project.t :=
  if isJsonFile file then
    match snd file with
    | Some project =>
        match usableLabel project with
        | Some l =>
            let '(_, scripts', projectModified) :=
              processScripts dbPool (toKebabCase l)
                (upsertProject (toKebabCase l) (newProjectEntryOf l project) st)
                (default [] (Project.scripts project)) in
            if projectModified then Some (withScripts project scripts') else None
        | None => None
        end
    | None => None
    end
  else None.

(** The content of [file] once the run has committed. *)
Definition fileAfter (dbPool : DbPool) (st : BuildState)
    (file : string * FileContent) : FileContent :=
  match stagedFile dbPool st file with
  | Some project' => Some project'
  | None => snd file
  end.

(** The projects directory once a run started in state [st] has
    committed its rewrites. *)
Fixpoint traceAll (dbPool : DbPool) (st : BuildState)
    (dir : list (string * FileContent)) : list (string * FileContent) :=
  match dir with
  | [] => []
  | file :: rest =>
      (fst file, fileAfter dbPool st file)
        :: traceAll dbPool (stepFile dbPool st file) rest
  end.

(** The rewrites a run started in state [st] stages, in order. *)
Fixpoint stagedOf (dbPool : DbPool) (st : BuildState)
    (dir : list (string * FileContent)) : list (string * Project.t) :=
  match dir with
  | [] => []
  | file :: rest =>
      match stagedFile dbPool st file with
      | Some project' => (fst file, project') :: stagedOf dbPool (stepFile dbPool st file) rest
      | None => stagedOf dbPool (stepFile dbPool st file) rest
      end
  end.

(** Two states agree on what the summary's added/updated lines and the
    commit depend on. *)
Definition sameOutcome (st1 st2 : BuildState) : Prop :=
  st_scripts st1 = st_scripts st2 ∧
  added st1 = added st2 ∧
  updated st1 = updated st2 ∧
  projectFilesToUpdate st1 = projectFilesToUpdate st2.

(** The index holds, at the key of the record, the entry of the record
    (a record without a hash has no key). *)
Definition recordFiled (index : gmap string ScriptEntry.t) (projectId : string)
    (s : ProjectScript.t) : bool :=
  bool_decide (ProjectScript.scriptHash s = "" ∨
               index !! keyOf s = Some (entryOf projectId s)).

(** It does so for every record that the builder processes in [file]. *)
Definition fileAgrees (index : gmap string ScriptEntry.t)
    (file : string * FileContent) : bool :=
  if isJsonFile file then
    match snd file with
    | Some project =>
        match usableLabel project with
        | Some l =>
            forallb (recordFiled index (toKebabCase l))
              (default [] (Project.scripts project))
        | None => true
        end
    | None => true
    end
  else true.

(** The index file and the project files of [disk] agree: the index
    that the file holds has every processed script record filed under
    its key with its own project id, name, purpose, type and
    plutusVersion. *)
Definition agrees (disk : Disk) : bool :=
  forallb
    (fileAgrees (match loadExisting (indexFile disk) with
                 | Some index => scripts index
                 | None => ∅
                 end))
    (default [] (projectsDir disk)).




(** ** Sample registries *)




(** A project file with one script whose hash is 112 hexadecimal
    characters long (payment and staking credential). *)
Definition longHash : string :=
  "A1B2C3D4E5F60718293A4B5C6D7E8F90A1B2C3D4E5F60718293A4B5C0F1E2D3C4B5A69788796A5B4C3D2E1F00F1E2D3C4B5A69788796A5B4".

(** [longHash] in lower case, and its first 56 characters. *)
Definition longHashLower : string :=
  "a1b2c3d4e5f60718293a4b5c6d7e8f90a1b2c3d4e5f60718293a4b5c0f1e2d3c4b5a69788796a5b4c3d2e1f00f1e2d3c4b5a69788796a5b4".

Definition longHashShort : string :=
  "a1b2c3d4e5f60718293a4b5c6d7e8f90a1b2c3d4e5f60718293a4b5c".

Definition longHashProject : Project.t :=
  Project.mk (Some "Long Hash") None (Some "DEFI") None None
    (Some [ProjectScript.mk "Pool" longHash (Some "SPEND") None None]).

Definition longHashDisk : Disk :=
  {| indexFile := IndexAbsent;
     projectsDir := Some [("long-hash.json", Some longHashProject)] |}.


(** A registry of two projects with three scripts, one of them already
    classified, and a lookup source that knows one of the other two. *)
Definition poolScript : ProjectScript.t :=
  ProjectScript.mk "Pool" "AABBCC" (Some "SPEND") None None.

Definition orderScript : ProjectScript.t :=
  ProjectScript.mk "Order" "ddeeff" (Some "SPEND") (Some "PLUTUS") (Some 2).

Definition mintScript : ProjectScript.t :=
  ProjectScript.mk "Mint" "112233" (Some "MINT") None (Some 0).

Definition sampleDir : list (string * FileContent) :=
  [("dex.json", Some (Project.mk (Some "Sample Dex") None (Some "DEFI") None None
                        (Some [poolScript; orderScript])));
   ("nft.json", Some (Project.mk None (Some "SampleNft") None None None
                        (Some [mintScript])));
   ("README.md", None)].

(** A project whose label gives the identifier [constructor]. *)
Definition constructorDisk : Disk :=
  {| indexFile := IndexAbsent;
     projectsDir := Some
       [("constructor.json",
         Some (Project.mk (Some "Constructor") None (Some "DEFI") None None None))] |}.


Definition sampleDb : DbPool :=
  Some (fun hash =>
          if String.eqb hash "aabbcc"
          then QueryResult (Some [{| row_type := Some "PlutusV2" |}])
          else QueryResult (Some [])).

Definition staleEntry : ScriptEntry.t :=
  ScriptEntry.mk "gone" "Old" (Some "SPEND") (Some "PLUTUS") (Some 1).

Definition sampleIndex : ScriptIndex :=
  {| metadata := {| generatedAt := "2024"; scriptCount := 1; projectCount := 0 |};
     scripts := {[ "0badc0de" := staleEntry ]};
     projects := ∅ |}.

Definition sampleDisk : Disk :=
  {| indexFile := IndexJson sampleIndex; projectsDir := Some sampleDir |}.

(** The scenarios of the specification's section 8. *)
Definition scenarioHash1 : string :=
  "AABBCC01234567890123456789012345678901234567890123456789".

Definition scenarioDisk1 : Disk :=
  {| indexFile := IndexAbsent;
     projectsDir := Some
       [("one.json", Some (Project.mk (Some "One") None None None None
          (Some [ProjectScript.mk "Spend" scenarioHash1 (Some "SPEND") None None])))] |}.

Definition scenarioHash2 : string :=
  "deadbeef0123456789abcdef0123456789abcdef0123456789abcdef".

Definition scenarioProject2 : Project.t :=
  Project.mk (Some "Two") None (Some "DEFI") None None
    (Some [ProjectScript.mk "Spend" scenarioHash2 (Some "SPEND") None None]).

Definition scenarioDisk2 : Disk :=
  {| indexFile := IndexJson
       {| metadata := {| generatedAt := "2024"; scriptCount := 1; projectCount := 1 |};
          scripts := {[ scenarioHash2 :=
                          ScriptEntry.mk "two" "Spend" (Some "SPEND") (Some "PLUTUS") (Some 1) ]};
          projects := {[ "two" := ProjectEntry.mk "Two" "DEFI" None None ]} |};
     projectsDir := Some [("two.json", Some scenarioProject2)] |}.

(** ** Vocabulary of the further properties *)

(** The characters of a project identifier: a-z, 0-9 and the dash. *)
Definition isIdChar (c : ascii) : bool :=
  Js.isLower c || Js.isDigit c || (Js.code c =? 45)%N.

Fixpoint isSlug (s : string) : bool :=
  match s with
  | EmptyString => true
  | String c r => isIdChar c && isSlug r
  end.

(** The processed records with a hash that lack a classification: the
    only ones the resolver may look up. *)
Definition incompleteOf (ss : list ProjectScript.t) : list ProjectScript.t :=
  filter (fun s => ProjectScript.scriptHash s ≠ "" ∧ complete s = false) ss.

Fixpoint passCandidates (dir : list (string * FileContent)) : nat :=
  match dir with
  | [] => 0%nat
  | file :: rest =>
      ((if isJsonFile file then length (incompleteOf (processedScripts file)) else 0)
       + passCandidates rest)%nat
  end.

(** The identifiers of the projects of a pass, in processing order. *)
Definition projectIds (dir : list (string * FileContent)) : list string :=
  omap (fun file => fst <$> projectOf file) dir.

Definition isProjectAdded (l : LogLine) : bool :=
  match l with LogProjectAdded _ => true | _ => false end.

(** The number of "+ Project" lines of a log. *)
Definition projectsAddedTotal (lines : list LogLine) : nat :=
  length (List.filter isProjectAdded lines).

(** One if the projects map holds the identifier [constructor], the one
    identifier a label can give that every object inherits. *)
Definition constructorEntry (m : gmap string ProjectEntry.t) : nat :=
  if decide (is_Some (m !! "constructor")) then 1%nat else 0%nat.

(** The project that a run creates without a "+ Project" line, if there
    is one. *)
Definition silentProjects (prior : gmap string ProjectEntry.t)
    (dir : list (string * FileContent)) : nat :=
  if decide (prior !! "constructor" = None ∧ "constructor" ∈ projectIds dir)
  then 1%nat else 0%nat.

(** What a stretch of the run from [st] to [st'] that files [n] records,
    [c] of them open to a lookup, does to the counters and the sizes. *)
Definition accounted (dbPool : DbPool) (st st' : BuildState) (n c : nat) : Prop :=
  (added st' + updated st' + unchanged st'
   = added st + updated st + unchanged st + n)%nat ∧
  (size (st_scripts st') + added st = size (st_scripts st) + added st')%nat ∧
  (size (st_projects st') + projectsAddedTotal (log st)
   + constructorEntry (st_projects st)
   = size (st_projects st) + projectsAddedTotal (log st')
     + constructorEntry (st_projects st'))%nat ∧
  (lookupCount st <= lookupCount st' <= lookupCount st + c)%nat ∧
  (dbPool = None → lookupCount st' = lookupCount st).

(** The scripts map the run starts from (line 165). *)
Definition priorScripts (disk : Disk) : gmap string ScriptEntry.t :=
  match loadExisting (indexFile disk) with
  | Some i => scripts i
  | None => ∅
  end.

(** Every key of [keys] holds an entry whose project the projects map
    knows. *)
Definition projectsKnown (st : BuildState) (keys : list string) : Prop :=
  ∀ k, k ∈ keys →
       ∃ e, st_scripts st !! k = Some e ∧
            is_Some (st_projects st !! ScriptEntry.projectId e).

(** [s'] is [s] with nothing but missing classification filled in:
    name, hash and purpose are the same, a truthy [type] and a stated
    [plutusVersion] are kept, and [s'] either is [s] or carries a full
    classification. *)
Definition scriptFilled (s s' : ProjectScript.t) : Prop :=
  ProjectScript.name s' = ProjectScript.name s ∧
  ProjectScript.scriptHash s' = ProjectScript.scriptHash s ∧
  ProjectScript.purpose s' = ProjectScript.purpose s ∧
  (Js.truthy (ProjectScript.type s) = true →
   ProjectScript.type s' = ProjectScript.type s) ∧
  (∀ v, ProjectScript.plutusVersion s = Some v →
        ProjectScript.plutusVersion s' = Some v) ∧
  (s' = s ∨ complete s' = true).

Definition projectFilled (p p' : Project.t) : Prop :=
  Project.label p' = Project.label p ∧
  Project.projectName p' = Project.projectName p ∧
  Project.category p' = Project.category p ∧
  Project.subCategory p' = Project.subCategory p ∧
  Project.link p' = Project.link p ∧
  match Project.scripts p, Project.scripts p' with
  | None, None => True
  | Some ss, Some ss' => Forall2 scriptFilled ss ss'
  | _, _ => False
  end.

(** A file after the commit: same name; an unreadable file and a file
    that is not [.json] are as before; a project has only had missing
    classifications filled in. *)
Definition fileFilled (f f' : string * FileContent) : Prop :=
  fst f' = fst f ∧
  (isJsonFile f = false → snd f' = snd f) ∧
  match snd f, snd f' with
  | None, None => True
  | Some p, Some p' => projectFilled p p'
  | _, _ => False
  end.

(** ** The environment of the lookup source
    (generate-script-index.ts, [initDb]) *)

Record Env := {
  DBS_DATABASE_NAME : option string;
  DBS_DATABASE_HOST : option string;
  DBS_DATABASE_USER : option string;
  DBS_DATABASE_PASSWORD : option string;
  DBS_DATABASE_PORT : option string }.

(** The options handed to [new pg.Pool]; [port] is the text that the
    source passes through [parseInt(_, 10)]. *)
Record PoolConfig := {
  database : string;
  host : string;
  user : string;
  password : string;
  port : string }.

(** [connect] is the database behind a pool of the given options. *)
Definition initDb (connect : PoolConfig → string → QueryOutcome) (env : Env)
  : DbPool :=
  match DBS_DATABASE_NAME env, DBS_DATABASE_HOST env, DBS_DATABASE_USER env,
        DBS_DATABASE_PASSWORD env, DBS_DATABASE_PORT env with
  | Some n, Some h, Some u, Some pw, Some pt =>
      if Js.truthyStr n && Js.truthyStr h && Js.truthyStr u &&
         Js.truthyStr pw && Js.truthyStr pt
      then Some (connect {| database := n; host := h; user := u;
                            password := pw; port := pt |})
      else None
  | _, _, _, _, _ => None
  end.

(** All five variables are set and not empty. *)
Definition configured (env : Env) : bool :=
  Js.truthy (DBS_DATABASE_NAME env) && Js.truthy (DBS_DATABASE_HOST env) &&
  Js.truthy (DBS_DATABASE_USER env) && Js.truthy (DBS_DATABASE_PASSWORD env) &&
  Js.truthy (DBS_DATABASE_PORT env).

(** A registry whose only script record is classified. *)
Definition classifiedDir : list (string * FileContent) :=
  [("dex.json", Some (Project.mk (Some "Sample Dex") None None None None
                        (Some [orderScript])))].

Definition classifiedDisk : Disk :=
  {| indexFile := IndexAbsent; projectsDir := Some classifiedDir |}.

(** ** The import tool
    (scripts/archived/import-missing-scripts.ts, [importMissingScripts])

    Here the objects are association lists of their own properties in
    insertion order, which is the order of [Object.keys] for keys that
    are not array indices; [mapSet] is the assignment [o[k] = v]. *)

Module ImportTool.

(** [o[k]] *)
Fixpoint get {A} (k : string) (o : list (string * A)) : option A :=
  match o with
  | [] => None
  | (k0, v) :: o' => if String.eqb k0 k then Some v else get k o'
  end.

(** Project name mapping: feedback name -> project file id. *)
Definition PROJECT_NAME_MAP : list (string * string) :=
  [("Genius Yield", "genius-yield");
   ("CSWAP DEX", "cswap");
   ("Splash Protocol", "splash");
   ("Lenfi", "lenfi");
   ("ADA Inmates", "ada-inmates");
   ("ADAO", "adao");
   ("Axo", "axo");
   ("Cardano in Color", "cardano-in-color");
   ("CherryLend", "cherry-lend");
   ("Clay Nation", "clay-nation");
   ("Cardano Name Service", "cardano-name-service");
   ("Danogo Bond", "danogo-bond");
   ("DEADPXLZ", "deadpxlz");
   ("Derp Birds", "derp-birds");
   ("Djed StableCoin", "djed-stable-coin");
   ("Dropspot", "dropspot");
   ("ENCOINS", "encoins");
   ("Fluid Tokens", "fluid-tokens");
   ("Iagon", "iagon");
   ("jpg.store", "jpgstore");
   ("Kreate", "kreate");
   ("Levvy Finance", "levvy-finance");
   ("Liqwid Finance", "liqwid-finance");
   ("Minswap", "minswap");
   ("MuesliSwap", "muesli-swap");
   ("Optim Finance", "optim-finance");
   ("Plutus.Art", "plutusart");
   ("Project NEWM's Marketplace", "project-newms-marketplace");
   ("SaturnNFT", "saturn-nft");
   ("Seedelf", "seedelf");
   ("SpaceBudz", "space-budz");
   ("Spectrum Finance", "spectrum-finance");
   ("Strike Finance", "strike-finance");
   ("SundaeSwap", "sundae-swap");
   ("TeddySwap", "teddy-swap");
   ("The Ape Society", "the-ape-society");
   ("Token Riot", "token-riot");
   ("VyFinance", "vy-finance");
   ("Wanchain", "wanchain")].

Record MissingScript := {
  scriptHash : string;
  project : string;
  purpose : string }.

(** A JSON file: missing, not parseable into the declared interface, or
    holding a value. *)
Inductive File (A : Type) :=
| Absent
| Unparseable
| Json (content : A).

Arguments Absent {A}.
Arguments Unparseable {A}.
Arguments Json {A} content.

(** The value of [PROJECT_NAME_MAP[name]] when it is not [undefined]: a
    project id of the table, or the member of [Object.prototype] that the
    table inherits under that name (a function, which [JSON.stringify]
    leaves out of the written entry; for [__proto__] the prototype,
    written as an empty object). *)
Inductive ProjectRef :=
| Id (projectId : string)
| Member (name : string).

#[global] Instance ProjectRef_eq_dec : EqDecision ProjectRef.
Proof. solve_decision. Defined.

(** An entry of the scripts object, as the tool holds it. *)
Module Entry.
Record t := mk {
  projectId : ProjectRef;
  name : string;
  purpose : option string;
  type : option string;
  plutusVersion : option Z }.
End Entry.

Record ScriptIndex := {
  metadata : Metadata;
  scripts : list (string * Entry.t);
  projects : list (string * ProjectEntry.t) }.

Record State := {
  st_scripts : list (string * Entry.t);
  added : nat;
  skipped : nat;
  projectsUsed : list ProjectRef }.    (* a Set, in insertion order *)

(** [Set.prototype.add] *)
Definition setAdd (x : ProjectRef) (l : list ProjectRef) : list ProjectRef :=
  if bool_decide (x ∈ l) then l else l ++ [x].

(** [PROJECT_NAME_MAP[name]]: the table's own property, else the member
    inherited under that name, else [undefined]. *)
Definition lookupProject (name : string) : option ProjectRef :=
  match get name PROJECT_NAME_MAP with
  | Some projectId => Some (Id projectId)
  | None => if Js.inherited name then Some (Member name) else None
  end.

(** Truthiness of the value: an inherited member is an object. *)
Definition truthyRef (r : ProjectRef) : bool :=
  match r with
  | Id projectId => Js.truthyStr projectId
  | Member _ => true
  end.

(** Lines 135-145, one iteration of the first pass: the scripts and the
    [normalized] count. *)
Definition normalizeStep (acc : list (string * Entry.t) * nat)
    (hash : string) : list (string * Entry.t) * nat :=
  if (String.length hash =? 112)%nat then
    let normalizedHash := normalizeHash hash in
    match get normalizedHash (fst acc) with
    | Some _ => acc
    | None =>
        match get hash (fst acc) with
        | Some e => (mapSet normalizedHash e (fst acc), S (snd acc))
        | None => acc       (* not reached: [hash] is a key of the object *)
        end
    end
  else acc.

(** The first pass over [Object.keys(index.scripts)]. *)
Definition normalizeExisting (scripts : list (string * Entry.t))
  : list (string * Entry.t) * nat :=
  fold_left normalizeStep scripts.*1 (scripts, 0%nat).

(** Lines 166-172. *)
Definition defaultEntry (projectId : ProjectRef) (missing : MissingScript)
  : Entry.t :=
  {| Entry.projectId := projectId;
     Entry.name := String.append (project missing) " Script";
     Entry.purpose := Some (purpose missing);
     Entry.type := Some "PLUTUS";
     Entry.plutusVersion := Some 2 |}.

Definition skip (st : State) : State :=
  {| st_scripts := st_scripts st; added := added st;
     skipped := S (skipped st); projectsUsed := projectsUsed st |}.

(** Lines 148-176, one iteration of the second pass. *)
Definition importStep (st : State) (missing : MissingScript) : State :=
  let hash := normalizeHash (scriptHash missing) in
  match get hash (st_scripts st) with
  | Some _ => skip st
  | None =>
      match lookupProject (project missing) with
      | Some projectId =>
          if truthyRef projectId
          then {| st_scripts := mapSet hash (defaultEntry projectId missing)
                                  (st_scripts st);
                  added := S (added st);
                  skipped := skipped st;
                  projectsUsed := setAdd projectId (projectsUsed st) |}
          else skip st
      | None => skip st
      end
  end.

Record Result := {
  written : ScriptIndex;          (* what is written to the index file *)
  r_added : nat;
  r_skipped : nat;
  r_normalized : nat;
  r_projectsUsed : list ProjectRef }.

Inductive Outcome :=
| Exit1                 (* process.exit(1): a file is missing *)
| Throws                (* JSON.parse throws; nothing is written *)
| Done (r : Result).

Definition importMissingScripts (now : string)
    (feedbackFile : File (list MissingScript)) (indexFile : File ScriptIndex)
  : Outcome :=
  match feedbackFile with
  | Absent => Exit1
  | Unparseable => Throws
  | Json missingScripts =>
      match indexFile with
      | Absent => Exit1
      | Unparseable => Throws
      | Json index =>
          let '(scripts1, normalized) := normalizeExisting (scripts index) in
          let st := fold_left importStep missingScripts
                      {| st_scripts := scripts1; added := 0%nat;
                         skipped := 0%nat; projectsUsed := [] |} in
          Done {| written :=
                    {| metadata :=
                         {| generatedAt := now;
                            scriptCount := length (st_scripts st);
                            projectCount := length (projects index) |};
                       scripts := st_scripts st;
                       projects := projects index |};
                  r_added := added st;
                  r_skipped := skipped st;
                  r_normalized := normalized;
                  r_projectsUsed := projectsUsed st |}
      end
  end.

End ImportTool.

(** ** Vocabulary for the import tool *)

(** Every property of [o] is a property of [o'], with the same value. *)
Definition extends {A} (o o' : list (string * A)) : Prop :=
  ∀ k v, ImportTool.get k o = Some v → ImportTool.get k o' = Some v.

(** [e] is the entry the prior index files under a key of 112 characters
    that normalizes to [k]. *)
Definition normalizedCopy (prior : list (string * ImportTool.Entry.t))
    (k : string) (e : ImportTool.Entry.t) : Prop :=
  ∃ k0, String.length k0 = 112%nat ∧ normalizeHash k0 = k ∧
        ImportTool.get k0 prior = Some e.

(** [e] is the default entry of a missing script whose normalized hash
    is [k] and whose project name the table holds or inherits. *)
Definition importedDefault (missing : list ImportTool.MissingScript)
    (k : string) (e : ImportTool.Entry.t) : Prop :=
  ∃ m projectId,
    m ∈ missing ∧ normalizeHash (ImportTool.scriptHash m) = k ∧
    ImportTool.lookupProject (ImportTool.project m) = Some projectId ∧
    e = ImportTool.defaultEntry projectId m.

(** The name of the project of the missing script is a name of the table,
    or a name that every object inherits. *)
Definition knownProject (m : ImportTool.MissingScript) : bool :=
  bool_decide (is_Some (ImportTool.get (ImportTool.project m) ImportTool.PROJECT_NAME_MAP))
  || Js.inherited (ImportTool.project m).

(** The entry that the sample index files under its long key. *)
Definition importStale : ImportTool.Entry.t :=
  ImportTool.Entry.mk (ImportTool.Id "gone") "Old" (Some "SPEND") (Some "PLUTUS") (Some 1).

(** The first pass, after the keys [seen]. *)
Definition normInv (prior : list (string * ImportTool.Entry.t)) (seen : list string)
    (acc : list (string * ImportTool.Entry.t) * nat) : Prop :=
  extends prior acc.1 ∧
  (∀ k e, ImportTool.get k acc.1 = Some e →
          ImportTool.get k prior = Some e ∨
          (ImportTool.get k prior = None ∧ normalizedCopy prior k e)) ∧
  length acc.1 = (length prior + acc.2)%nat ∧
  (∀ h, h ∈ seen → h ∈ prior.*1 → String.length h = 112%nat →
        is_Some (ImportTool.get (normalizeHash h) acc.1)).

(** The second pass, started on [start], after the missing scripts
    [seen]. *)
Definition importInv (start : list (string * ImportTool.Entry.t))
    (seen : list ImportTool.MissingScript) (st : ImportTool.State) : Prop :=
  extends start (ImportTool.st_scripts st) ∧
  (∀ k e, ImportTool.get k (ImportTool.st_scripts st) = Some e →
          ImportTool.get k start = Some e ∨
          (ImportTool.get k start = None ∧ importedDefault seen k e)) ∧
  (ImportTool.added st + ImportTool.skipped st = length seen)%nat ∧
  length (ImportTool.st_scripts st) = (length start + ImportTool.added st)%nat ∧
  (∀ m, m ∈ seen → knownProject m = true →
        is_Some (ImportTool.get (normalizeHash (ImportTool.scriptHash m))
                   (ImportTool.st_scripts st))).

(** An index with a key of 112 characters, and a feedback file. *)
Definition importIndex : ImportTool.ScriptIndex :=
  {| ImportTool.metadata :=
       {| generatedAt := "2024"; scriptCount := 1; projectCount := 0 |};
     ImportTool.scripts := [(longHash, importStale)];
     ImportTool.projects := [] |}.

(** A feedback file that names a member of [Object.prototype] as a
    project. *)
Definition inheritedFeedback : list ImportTool.MissingScript :=
  [ {| ImportTool.scriptHash := "C0FFEE"; ImportTool.project := "toString";
       ImportTool.purpose := "SPEND" |} ].

Definition importFeedback : list ImportTool.MissingScript :=
  [ {| ImportTool.scriptHash := "AABBCC"; ImportTool.project := "Minswap";
       ImportTool.purpose := "SPEND" |};
    {| ImportTool.scriptHash := "aabbcc"; ImportTool.project := "SundaeSwap";
       ImportTool.purpose := "MINT" |};
    {| ImportTool.scriptHash := "ddeeff"; ImportTool.project := "Nobody";
       ImportTool.purpose := "SPEND" |} ].

(** The projects used are the project ids of the entries that the second
    pass added to [start], each listed once. *)
Definition usedBy (start : list (string * ImportTool.Entry.t)) (st : ImportTool.State)
  : Prop :=
  NoDup (ImportTool.projectsUsed st) ∧
  (length (ImportTool.projectsUsed st) ≤ ImportTool.added st)%nat ∧
  ∀ p, p ∈ ImportTool.projectsUsed st ↔
       ∃ k e, ImportTool.get k (ImportTool.st_scripts st) = Some e ∧
              ImportTool.get k start = None ∧ ImportTool.Entry.projectId e = p.

(** An environment whose password is the empty text, and a database that
    answers every query with an error. *)
Definition emptyPasswordEnv : Env :=
  {| DBS_DATABASE_NAME := Some "cexplorer";
     DBS_DATABASE_HOST := Some "localhost";
     DBS_DATABASE_USER := Some "reader";
     DBS_DATABASE_PASSWORD := Some "";
     DBS_DATABASE_PORT := Some "5432" |}.

Definition failingConnect : PoolConfig → string → QueryOutcome :=
  fun _ _ => QueryThrows.

(** ** The first generator (src/unnamed/part_000)

    The generator that the builder replaced: it reads the dApp files of
    the older registry, starts from empty maps and always writes. *)

Module V1.

Module ScriptVersion.
Record t := mk {
  version : Z;
  plutusVersion : option Z;
  scriptHash : option string;
  fullScriptHash : option string;
  contractAddress : option string;
  mintPolicyID : option string }.
End ScriptVersion.

Module Script.
Record t := mk {
  id : string;
  name : option string;
  purpose : string;
  type : string;
  versions : list ScriptVersion.t }.
End Script.

Module DApp.
Record t := mk {
  id : string;
  projectName : option string;       (* tested by the source *)
  link : option string;
  category : option string;
  subCategory : option string;
  scripts : option (list Script.t) }.
End DApp.

(** Map old CRFA project names to preferred labels. *)
Definition PROJECT_LABEL_MAP : list (string * string) :=
  [("CSWAP DEX", "CSWAP");
   ("Genius Yield", "GeniusYield");
   ("Splash Protocol", "Splash")].

(** The value of a label: a text, or the member of [Object.prototype]
    that the table yields for a project named like one (a function, which
    [JSON.stringify] leaves out of the written file; for [__proto__] the
    prototype, written as an empty object). *)
Inductive Label :=
| Text (s : string)
| Member (name : string).

Module ProjectEntry.
Record t := mk {
  label : Label;
  category : string;
  subCategory : option string;
  link : option string }.
End ProjectEntry.

(** The index as the generator holds it when it writes it. *)
Record ScriptIndex := {
  metadata : Metadata;
  scripts : gmap string ScriptEntry.t;
  projects : gmap string ProjectEntry.t }.

(** [PROJECT_LABEL_MAP[name] || name]: the table's own property, else the
    member inherited under that name, else the name. *)
Definition normalizeProjectLabel (name : string) : Label :=
  match ImportTool.get name PROJECT_LABEL_MAP with
  | Some l => if Js.truthyStr l then Text l else Text name
  | None => if Js.inherited name then Member name else Text name
  end.

Inductive Line :=
| Duplicate (hash16 first second : string)      (* console.warn *)
| Failed (file : string).                       (* console.error *)

Record State := {
  st_scripts : gmap string ScriptEntry.t;
  st_projects : gmap string ProjectEntry.t;
  totalScripts : nat;
  duplicates : nat;
  log : list Line }.

(** Line 145: [script.name || `Script ${script.id}`]. *)
Definition scriptNameOf (script : Script.t) : string :=
  match Script.name script with
  | Some n => if Js.truthyStr n then n else String.append "Script " (Script.id script)
  | None => String.append "Script " (Script.id script)
  end.

(** Lines 149-156: the key of a version, when it has one. *)
Definition hashOf (v : ScriptVersion.t) : option string :=
  match Js.or (ScriptVersion.scriptHash v) (ScriptVersion.mintPolicyID v) with
  | Some h => if Js.truthyStr h then Some (Js.toLowerCase h) else None
  | None => None
  end.

(** Lines 167-173. *)
Definition entryOf (projectId : string) (script : Script.t) (v : ScriptVersion.t)
  : ScriptEntry.t :=
  {| ScriptEntry.projectId := projectId;
     ScriptEntry.name := scriptNameOf script;
     ScriptEntry.purpose := Some (Script.purpose script);
     ScriptEntry.type := Some (Script.type script);
     ScriptEntry.plutusVersion := ScriptVersion.plutusVersion v |}.

(** Lines 147-176, one iteration over [script.versions]. *)
Definition processVersion (projectId : string) (script : Script.t)
    (st : State) (v : ScriptVersion.t) : State :=
  match hashOf v with
  | None => st
  | Some hash =>
      match st_scripts st !! hash with
      | Some e =>
          {| st_scripts := st_scripts st;
             st_projects := st_projects st;
             totalScripts := totalScripts st;
             duplicates := S (duplicates st);
             log := log st ++
                    (if String.eqb (ScriptEntry.projectId e) projectId then []
                     else [Duplicate (Js.slice0 16 hash)
                             (ScriptEntry.projectId e) projectId]) |}
      | None =>
          {| st_scripts := <[hash := entryOf projectId script v]> (st_scripts st);
             st_projects := st_projects st;
             totalScripts := S (totalScripts st);
             duplicates := duplicates st;
             log := log st |}
      end
  end.

(** Lines 144-177, one iteration over [dapp.scripts]. *)
Definition processScript (projectId : string) (st : State) (script : Script.t)
  : State :=
  fold_left (processVersion projectId script) (Script.versions script) st.

(** Lines 131-136. *)
Definition projectEntryOf (projectName : string) (dapp : DApp.t) : ProjectEntry.t :=
  {| ProjectEntry.label := normalizeProjectLabel projectName;
     ProjectEntry.category :=
       match DApp.category dapp with
       | Some c => if Js.truthyStr c then c else "UNKNOWN"
       | None => "UNKNOWN"
       end;
     ProjectEntry.subCategory := DApp.subCategory dapp;
     ProjectEntry.link := DApp.link dapp |}.

(** Lines 129-137: add the project entry if [projects[projectId]] is
    falsy.  On a map that does not own it, an inherited name (of the
    results of [toKebabCase], only [constructor]) yields the inherited
    member, which is truthy: that project is never filed. *)
Definition addProject (projectId projectName : string) (dapp : DApp.t)
    (st : State) : State :=
  match st_projects st !! projectId with
  | Some _ => st
  | None =>
      if Js.inherited projectId then st else
      {| st_scripts := st_scripts st;
         st_projects := <[projectId := projectEntryOf projectName dapp]> (st_projects st);
         totalScripts := totalScripts st;
         duplicates := duplicates st;
         log := log st |}
  end.

(** The project name of a file, when the file is read and names one. *)
Definition namedDApp (content : option DApp.t) : option (string * DApp.t) :=
  match content with
  | Some dapp =>
      match DApp.projectName dapp with
      | Some n => if Js.truthyStr n then Some (n, dapp) else None
      | None => None
      end
  | None => None
  end.

(** Lines 118-181, one iteration over the files. *)
Definition processDApp (st : State) (file : string * option DApp.t) : State :=
  match snd file with
  | None =>                                            (* catch (e) *)
      {| st_scripts := st_scripts st; st_projects := st_projects st;
         totalScripts := totalScripts st; duplicates := duplicates st;
         log := log st ++ [Failed (fst file)] |}
  | Some dapp =>
      match namedDApp (Some dapp) with
      | None => st
      | Some (projectName, _) =>
          let projectId := toKebabCase projectName in
          let st1 := addProject projectId projectName dapp st in
          match DApp.scripts dapp with
          | None => st1
          | Some scripts => fold_left (processScript projectId) scripts st1
          end
      end
  end.

Definition initial : State :=
  {| st_scripts := ∅; st_projects := ∅; totalScripts := 0; duplicates := 0;
     log := [] |}.

Definition jsonFiles {A} (dir : list (string * A)) : list (string * A) :=
  filter (fun f => Is_true (endsWith (fst f) ".json")) dir.

Record Result := {
  written : ScriptIndex;
  r_total : nat;                  (* totalScripts *)
  r_duplicates : nat;
  r_log : list Line }.

Inductive Outcome :=
| Exit1                           (* the dApps directory is missing *)
| Written (r : Result).

(** [dApps] is the directory of the older registry, when it exists.  The
    output directory, which the source makes first, is not modelled. *)
Definition generateScriptIndex (now : string)
    (dApps : option (list (string * option DApp.t))) : Outcome :=
  match dApps with
  | None => Exit1
  | Some dir =>
      let st := fold_left processDApp (jsonFiles dir) initial in
      Written {| written :=
                   {| metadata :=
                        {| generatedAt := now;
                           scriptCount := size (st_scripts st);
                           projectCount := size (st_projects st) |};
                      scripts := st_scripts st;
                      projects := st_projects st |};
                 r_total := totalScripts st;
                 r_duplicates := duplicates st;
                 r_log := log st |}
  end.

End V1.

(** ** Vocabulary for the first generator *)

(** The records of a script, of a dApp and of a directory, in the order
    in which the generator meets them: each key with its candidate. *)
Definition recordsOfScript (projectId : string) (script : V1.Script.t)
  : list (string * ScriptEntry.t) :=
  omap (fun v => match V1.hashOf v with
                 | Some hash => Some (hash, V1.entryOf projectId script v)
                 | None => None
                 end)
       (V1.Script.versions script).

Definition recordsOfDApp (file : string * option V1.DApp.t)
  : list (string * ScriptEntry.t) :=
  match V1.namedDApp (snd file) with
  | Some (projectName, dapp) =>
      flat_map (recordsOfScript (toKebabCase projectName))
        (default [] (V1.DApp.scripts dapp))
  | None => []
  end.

Definition records (dir : list (string * option V1.DApp.t))
  : list (string * ScriptEntry.t) :=
  flat_map recordsOfDApp (V1.jsonFiles dir).

(** The project of a file that names one. *)
Definition projectRecordOf (file : string * option V1.DApp.t)
  : option (string * V1.ProjectEntry.t) :=
  match V1.namedDApp (snd file) with
  | Some (projectName, dapp) =>
      Some (toKebabCase projectName, V1.projectEntryOf projectName dapp)
  | None => None
  end.


(** The project of a file, unless its identifier is a name that every
    object inherits. *)
Definition filedProjectOf (file : string * option V1.DApp.t)
  : option (string * V1.ProjectEntry.t) :=
  match projectRecordOf file with
  | Some p => if Js.inherited (fst p) then None else Some p
  | None => None
  end.

(** The warnings of a log, and what a warning says. *)
Definition isWarning (line : V1.Line) : bool :=
  match line with V1.Duplicate _ _ _ => true | V1.Failed _ => false end.

Definition warnings (log : list V1.Line) : nat :=
  length (filter (fun line => Is_true (isWarning line)) log).

Definition namesTwoProjects (line : V1.Line) : Prop :=
  match line with
  | V1.Duplicate _ first second => first ≠ second
  | V1.Failed _ => True
  end.

(** [st'] is [st] after the records [recs] and the projects [projs] were
    offered to it: what [st] holds stays, the rest is taken from the
    first record of each key, and each record is counted once. *)
Definition absorbs (st : V1.State) (recs : list (string * ScriptEntry.t))
    (projs : list (string * V1.ProjectEntry.t)) (st' : V1.State) : Prop :=
  V1.st_scripts st' = V1.st_scripts st ∪ list_to_map recs ∧
  V1.st_projects st' = V1.st_projects st ∪ list_to_map projs ∧
  (V1.totalScripts st' + V1.duplicates st'
   = V1.totalScripts st + V1.duplicates st + length recs)%nat ∧
  (V1.totalScripts st' + size (V1.st_scripts st)
   = V1.totalScripts st + size (V1.st_scripts st'))%nat ∧
  (warnings (V1.log st') + V1.duplicates st
   ≤ warnings (V1.log st) + V1.duplicates st')%nat ∧
  (Forall namesTwoProjects (V1.log st) → Forall namesTwoProjects (V1.log st')).

(** A file that the generator reads past its first test: a [.json] file
    that parses and names a project. *)
Definition usable (file : string * option V1.DApp.t) : bool :=
  endsWith (fst file) ".json" && bool_decide (is_Some (V1.namedDApp (snd file))).

(** A dApp whose name gives the identifier [constructor]. *)
Definition v1ConstructorDir : list (string * option V1.DApp.t) :=
  [("constructor.json",
    Some (V1.DApp.mk "d9" (Some "Constructor") None (Some "DEFI") None
            (Some [V1.Script.mk "s9" (Some "Vault") "SPEND" "PLUTUS"
                     [V1.ScriptVersion.mk 1 (Some 2) (Some "eeff") None None None]])))].

(** Two dApps that share a hash, and a file that cannot be parsed. *)
Definition v1Dir : list (string * option V1.DApp.t) :=
  [("minswap.json",
    Some (V1.DApp.mk "d1" (Some "Minswap") (Some "https://minswap.org") (Some "DEFI")
            None
            (Some [V1.Script.mk "s1" (Some "Pool") "SPEND" "PLUTUS"
                     [V1.ScriptVersion.mk 1 (Some 1) (Some "AABB") None None None;
                      V1.ScriptVersion.mk 2 (Some 2) None None None (Some "ccdd")]])));
   ("cswap.json",
    Some (V1.DApp.mk "d2" (Some "CSWAP DEX") None None None
            (Some [V1.Script.mk "s2" None "MINT" "PLUTUS"
                     [V1.ScriptVersion.mk 1 None (Some "aabb") None None None;
                      V1.ScriptVersion.mk 2 None None None None None]])));
   ("broken.json", None);
   ("notes.txt", None)].

(** * Properties *)

(** ** Strings *)

Lemma toLowerCaseChar_idem (c : ascii) :
  Js.toLowerCaseChar (Js.toLowerCaseChar c) = Js.toLowerCaseChar c.
Proof. destruct c as [[] [] [] [] [] [] [] []]; reflexivity. Qed.

Lemma toLowerCase_idem (s : string) :
  Js.toLowerCase (Js.toLowerCase s) = Js.toLowerCase s.
Proof.
  induction s as [|c s IH]; simpl; [reflexivity|].
  by rewrite toLowerCaseChar_idem, IH.
Qed.

Lemma toLowerCase_length (s : string) :
  String.length (Js.toLowerCase s) = String.length s.
Proof. induction s as [|c s IH]; simpl; congruence. Qed.

Lemma slice0_length (n : nat) (s : string) :
  (n <= String.length s)%nat → String.length (Js.slice0 n s) = n.
Proof.
  unfold Js.slice0. revert s.
  induction n as [|n IH]; intros [|c s] Hn; simpl in *; try lia; try reflexivity.
  rewrite IH; [reflexivity | lia].
Qed.

Lemma truthyStr_true (s : string) : Js.truthyStr s = true ↔ s ≠ "".
Proof. destruct s; simpl; split; congruence. Qed.

(** ** The diff tracker *)

Lemma differs_true (e n : ScriptEntry.t) :
  differs e n = true ↔ fieldsDiffer e n.
Proof.
  unfold differs, fieldsDiffer.
  rewrite !orb_true_iff, !negb_true_iff, !bool_decide_eq_false.
  rewrite !String.eqb_neq. tauto.
Qed.

Lemma differs_false (e n : ScriptEntry.t) :
  differs e n = false ↔ e = n.
Proof.
  unfold differs.
  rewrite !orb_false_iff, !negb_false_iff, !bool_decide_eq_true.
  rewrite !String.eqb_eq.
  destruct e, n; simpl; split; [intros ((((-> & ->) & ->) & ->) & ->) | intros [= -> -> -> -> ->]]; done.
Qed.

Lemma fieldsDiffer_neq (e n : ScriptEntry.t) : fieldsDiffer e n ↔ e ≠ n.
Proof.
  rewrite <- differs_true, <- differs_false.
  destruct (differs e n); split; congruence.
Qed.

(** C7. Diff classification.  Whatever the candidate entry, the key and
    the state: with no prior entry at the key the candidate is inserted
    and only the added-count grows by one; with a prior entry that differs
    in one of [projectId], [name], [purpose], [type], [plutusVersion]
    (exact equality, an absent optional field being a value of its own)
    the candidate overwrites it and only the updated-count grows by one;
    with a prior entry equal field for field the map is left as it is and
    only the unchanged-count grows by one. *)
Theorem classify_spec (hash : string) (newEntry : ScriptEntry.t) (st : BuildState) :
  let st' := classify (st_scripts st !! hash) hash newEntry st in
  match st_scripts st !! hash with
  | None =>
      st_scripts st' = <[hash := newEntry]> (st_scripts st) ∧
      counters st' = (S (added st), updated st, unchanged st)
  | Some prior =>
      if decide (fieldsDiffer prior newEntry)
      then st_scripts st' = <[hash := newEntry]> (st_scripts st) ∧
           counters st' = (added st, S (updated st), unchanged st)
      else prior = newEntry ∧
           st_scripts st' = st_scripts st ∧
           counters st' = (added st, updated st, S (unchanged st))
  end.
Proof.
  simpl. unfold classify.
  destruct (st_scripts st !! hash) as [prior|]; [|done].
  destruct (decide (fieldsDiffer prior newEntry)) as [Hd|Hd].
  - apply differs_true in Hd. by rewrite Hd.
  - destruct (differs prior newEntry) eqn:E.
    + by apply differs_true in E.
    + by apply differs_false in E.
Qed.

(** ** The resolver *)

Lemma resolve_classified dbPool existing hash (s : ProjectScript.t) t v :
  ProjectScript.type s = Some t → t ≠ "" → ProjectScript.plutusVersion s = Some v →
  resolve dbPool existing hash s = unresolved s 0 [].
Proof.
  intros Ht Hne Hv. unfold resolve. rewrite Ht, Hv. simpl.
  apply truthyStr_true in Hne. by rewrite Hne.
Qed.

Lemma fillFrom_keeps s srcType srcVersion n l :
  let r := fillFrom s srcType srcVersion n l in
  ProjectScript.name (r_script r) = ProjectScript.name s ∧
  ProjectScript.scriptHash (r_script r) = ProjectScript.scriptHash s ∧
  ProjectScript.purpose (r_script r) = ProjectScript.purpose s ∧
  (Js.truthy (ProjectScript.type s) = true →
     r_type r = ProjectScript.type s ∧
     ProjectScript.type (r_script r) = ProjectScript.type s) ∧
  (∀ v, ProjectScript.plutusVersion s = Some v →
     r_plutusVersion r = Some v ∧
     ProjectScript.plutusVersion (r_script r) = Some v).
Proof.
  destruct s as [n0 h p ty pv]. unfold fillFrom, Js.or, Js.nullish. simpl.
  destruct (Js.truthy ty) eqn:E; simpl;
    destruct (Js.truthy srcType); simpl;
    destruct pv; simpl; repeat case_bool_decide; simplify_eq/=;
    repeat split; intros; simplify_eq/=; done.
Qed.

Lemma resolve_keeps dbPool existing hash (s : ProjectScript.t) :
  let r := resolve dbPool existing hash s in
  ProjectScript.name (r_script r) = ProjectScript.name s ∧
  ProjectScript.scriptHash (r_script r) = ProjectScript.scriptHash s ∧
  ProjectScript.purpose (r_script r) = ProjectScript.purpose s ∧
  (Js.truthy (ProjectScript.type s) = true →
     r_type r = ProjectScript.type s ∧
     ProjectScript.type (r_script r) = ProjectScript.type s) ∧
  (∀ v, ProjectScript.plutusVersion s = Some v →
     r_plutusVersion r = Some v ∧
     ProjectScript.plutusVersion (r_script r) = Some v).
Proof.
  unfold resolve, viaLookup.
  repeat case_match; try apply fillFrom_keeps; simpl; done.
Qed.

(** The candidate entry is the entry of the script object as written
    back: the local [type]/[plutusVersion] and the object's agree. *)
Lemma fillFrom_entry projectId s srcType srcVersion n l :
  Js.truthy srcType = true → srcVersion ≠ None →
  let r := fillFrom s srcType srcVersion n l in
  newEntryOf projectId s r = entryOf projectId (r_script r) ∧
  hasClassification (entryOf projectId (r_script r)) = true.
Proof.
  intros Ht Hv. destruct s as [n0 h p ty pv].
  unfold fillFrom, newEntryOf, entryOf, hasClassification, Js.or, Js.nullish. simpl.
  destruct (Js.truthy ty) eqn:E1; simpl; rewrite ?Ht; simpl;
    destruct pv; simpl; repeat case_bool_decide; simplify_eq/=; rewrite ?E1, ?Ht; try done.
Qed.

Lemma lookupScriptInfo_type dbPool hash info :
  lookupScriptInfo dbPool hash = Some info →
  info_type info = "NATIVE" ∨ info_type info = "PLUTUS".
Proof.
  unfold lookupScriptInfo, lookupTry.
  intros H. repeat case_match; simplify_eq/=; auto.
Qed.

Lemma lookupScriptInfo_truthy dbPool hash info :
  lookupScriptInfo dbPool hash = Some info →
  Js.truthy (Some (info_type info)) = true.
Proof. intros [-> | ->]%lookupScriptInfo_type; reflexivity. Qed.

Lemma hasClassification_inv (e : ScriptEntry.t) :
  hasClassification e = true ↔
  Js.truthy (ScriptEntry.type e) = true ∧ ScriptEntry.plutusVersion e ≠ None.
Proof.
  unfold hasClassification.
  by rewrite andb_true_iff, bool_decide_eq_true.
Qed.

Lemma resolve_entry dbPool existing hash projectId (s : ProjectScript.t) :
  newEntryOf projectId s (resolve dbPool existing hash s)
  = entryOf projectId (r_script (resolve dbPool existing hash s)).
Proof.
  unfold resolve, viaLookup.
  repeat case_match; try reflexivity; apply fillFrom_entry;
    try done; eauto using lookupScriptInfo_truthy.
  all: match goal with H : hasClassification _ = true |- _ =>
         apply hasClassification_inv in H; tauto end.
Qed.

(** ** The per-script step *)

Lemma processScript_skip dbPool projectId st (s : ProjectScript.t) :
  ProjectScript.scriptHash s = "" →
  processScript dbPool projectId st s = (st, s, false).
Proof. intros H. unfold processScript. by rewrite H. Qed.

Lemma classify_other existing hash newEntry st k :
  k ≠ hash →
  st_scripts (classify existing hash newEntry st) !! k = st_scripts st !! k.
Proof.
  intros Hk. unfold classify. repeat case_match; simpl; try done;
    by rewrite lookup_insert_ne.
Qed.

Lemma classify_at existing hash newEntry st :
  existing = st_scripts st !! hash →
  st_scripts (classify existing hash newEntry st) !! hash = Some newEntry.
Proof.
  intros ->. unfold classify.
  destruct (st_scripts st !! hash) as [e|] eqn:E; simpl.
  - destruct (differs e newEntry) eqn:D; simpl.
    + by rewrite lookup_insert_eq.
    + apply differs_false in D. by subst.
  - by rewrite lookup_insert_eq.
Qed.

Lemma classify_frame existing hash newEntry st :
  st_projects (classify existing hash newEntry st) = st_projects st ∧
  projectFilesToUpdate (classify existing hash newEntry st) = projectFilesToUpdate st ∧
  lookupCount (classify existing hash newEntry st) = lookupCount st.
Proof. unfold classify. by repeat case_match. Qed.

Lemma processScript_other dbPool projectId st (s : ProjectScript.t) k :
  k ≠ keyOf s →
  st_scripts (processScript dbPool projectId st s).1.1 !! k = st_scripts st !! k.
Proof.
  intros Hk. unfold processScript. case_match; [done|]. simpl.
  by rewrite classify_other.
Qed.

Lemma processScript_at dbPool projectId st (s : ProjectScript.t) :
  ProjectScript.scriptHash s ≠ "" →
  st_scripts (processScript dbPool projectId st s).1.1 !! keyOf s
  = Some (entryOf projectId (processScript dbPool projectId st s).1.2).
Proof.
  intros Hh%truthyStr_true. unfold processScript. rewrite Hh. simpl.
  rewrite classify_at by done. by rewrite resolve_entry.
Qed.

Lemma processScript_frame dbPool projectId st (s : ProjectScript.t) :
  st_projects (processScript dbPool projectId st s).1.1 = st_projects st ∧
  projectFilesToUpdate (processScript dbPool projectId st s).1.1
  = projectFilesToUpdate st.
Proof.
  unfold processScript. case_match; [done|]. simpl.
  match goal with
  | |- context [classify ?ex ?h ?e ?st1] =>
      destruct (classify_frame ex h e st1) as (-> & -> & _)
  end.
  done.
Qed.

Lemma processScript_keeps dbPool projectId st (s : ProjectScript.t) :
  let s' := (processScript dbPool projectId st s).1.2 in
  ProjectScript.name s' = ProjectScript.name s ∧
  ProjectScript.scriptHash s' = ProjectScript.scriptHash s ∧
  ProjectScript.purpose s' = ProjectScript.purpose s.
Proof.
  unfold processScript. case_match; [done|]. simpl.
  pose proof (resolve_keeps dbPool
    (st_scripts st !! Js.toLowerCase (ProjectScript.scriptHash s))
    (Js.toLowerCase (ProjectScript.scriptHash s)) s) as H0.
  simpl in H0. tauto.
Qed.

(** C5. Resolver short-circuit.  A script record that carries a [type]
    (a non-empty string, as every value of the PLUTUS/NATIVE enumeration
    is) and a [plutusVersion] goes through the resolver untouched: no
    lookup is made or logged, nothing is copied from the index, the
    record comes out as it went in, the candidate entry holds the
    record's own classification and [projectModified] is not set. *)
Theorem resolver_short_circuit dbPool projectId st (s : ProjectScript.t) t v :
  ProjectScript.type s = Some t → t ≠ "" →
  ProjectScript.plutusVersion s = Some v →
  (∀ existing hash,
     let r := resolve dbPool existing hash s in
     r_lookups r = 0%nat ∧ r_log r = [] ∧ r_script r = s ∧ r_modified r = false ∧
     r_type r = Some t ∧ r_plutusVersion r = Some v) ∧
  lookupCount (processScript dbPool projectId st s).1.1 = lookupCount st ∧
  (processScript dbPool projectId st s).1.2 = s ∧
  (processScript dbPool projectId st s).2 = false.
Proof.
  intros Ht Hne Hv.
  assert (Hr : ∀ existing hash, resolve dbPool existing hash s = unresolved s 0 [])
    by (intros; by eapply resolve_classified).
  split.
  - intros existing hash. simpl. rewrite Hr. simpl. by rewrite Ht, Hv.
  - unfold processScript. case_match; [done|]. simpl. rewrite Hr. simpl.
    unfold classify. repeat case_match; simpl; repeat split; lia.
Qed.

Lemma complete_false (s : ProjectScript.t) :
  complete s = false ↔
  negb (Js.truthy (ProjectScript.type s))
  || bool_decide (ProjectScript.plutusVersion s = None) = true.
Proof.
  unfold complete. destruct (Js.truthy (ProjectScript.type s)); simpl;
    destruct (ProjectScript.plutusVersion s); simpl; split; try done.
Qed.

Lemma resolutionSource_classified dbPool existing hash srcType srcVersion :
  resolutionSource dbPool existing hash = Some (srcType, srcVersion) →
  Js.truthy srcType = true ∧ srcVersion ≠ None.
Proof.
  unfold resolutionSource.
  assert (∀ o : option ScriptInfo,
    o = lookupScriptInfo dbPool hash →
    (λ info, (Some (info_type info), Some (info_plutusVersion info))) <$> o
    = Some (srcType, srcVersion) →
    Js.truthy srcType = true ∧ srcVersion ≠ None) as Hl.
  { intros [info|] Ho [= <- <-]. split; [|done].
    by eapply lookupScriptInfo_truthy. }
  destruct existing as [e|]; [|by apply Hl].
  destruct (hasClassification e) eqn:Eh; [|by apply Hl].
  intros [= <- <-]. by apply hasClassification_inv.
Qed.

(** With a field missing, the resolver fills from its source when there
    is one and leaves the record alone when there is none. *)
Lemma resolve_source dbPool existing hash (s : ProjectScript.t) :
  complete s = false →
  ∃ n l,
    resolve dbPool existing hash s
    = match resolutionSource dbPool existing hash with
      | Some (srcType, srcVersion) => fillFrom s srcType srcVersion n l
      | None => unresolved s n l
      end.
Proof.
  intros Hc%complete_false. unfold resolve, resolutionSource, viaLookup. rewrite Hc.
  destruct existing as [e|].
  - destruct (hasClassification e); [eauto|].
    destruct dbPool as [query|]; [|simpl; eauto].
    destruct (lookupScriptInfo (Some query) hash); simpl; eauto.
  - destruct dbPool as [query|]; [|simpl; eauto].
    destruct (lookupScriptInfo (Some query) hash); simpl; eauto.
Qed.

Lemma fillFrom_fills (s : ProjectScript.t) srcType srcVersion n l :
  Js.truthy srcType = true → srcVersion ≠ None →
  let s' := r_script (fillFrom s srcType srcVersion n l) in
  (Js.truthy (ProjectScript.type s) = false → ProjectScript.type s' = srcType) ∧
  (ProjectScript.plutusVersion s = None → ProjectScript.plutusVersion s' = srcVersion).
Proof.
  intros Ht Hv. destruct s as [n0 h p ty pv]. unfold fillFrom. simpl.
  rewrite Ht. split.
  - intros ->. simpl. by case_match.
  - intros ->. destruct (Js.truthy ty); simpl;
      by rewrite bool_decide_eq_true_2.
Qed.

(** C10. Resolution never overwrites what the record states.  After a
    script record with a non-empty hash is processed, the index holds at
    its key an entry whose classification is that of the record as
    written back.  A [type] the record carried (non-empty) is still its
    type, and a [plutusVersion] it carried, 0 included, is still its
    version, whichever source the resolver used.  A record that lacked a
    field gets exactly the lacking fields from the source (the classified
    index entry, else the lookup) and is left as it was when there is no
    source.  Name, hash and purpose are never touched. *)
Theorem resolution_keeps_authored dbPool projectId st (s : ProjectScript.t) :
  ProjectScript.scriptHash s ≠ "" →
  let s' := (processScript dbPool projectId st s).1.2 in
  ∃ e, st_scripts (processScript dbPool projectId st s).1.1 !! keyOf s = Some e ∧
       ScriptEntry.type e = ProjectScript.type s' ∧
       ScriptEntry.plutusVersion e = ProjectScript.plutusVersion s' ∧
       (∀ t, ProjectScript.type s = Some t → t ≠ "" →
             ProjectScript.type s' = Some t) ∧
       (∀ v, ProjectScript.plutusVersion s = Some v →
             ProjectScript.plutusVersion s' = Some v) ∧
       (complete s = false →
        match resolutionSource dbPool (st_scripts st !! keyOf s) (keyOf s) with
        | Some (srcType, srcVersion) =>
            (Js.truthy (ProjectScript.type s) = false →
             ProjectScript.type s' = srcType) ∧
            (ProjectScript.plutusVersion s = None →
             ProjectScript.plutusVersion s' = srcVersion)
        | None => s' = s
        end) ∧
       ProjectScript.name s' = ProjectScript.name s ∧
       ProjectScript.scriptHash s' = ProjectScript.scriptHash s ∧
       ProjectScript.purpose s' = ProjectScript.purpose s.
Proof.
  intros Hh. cbv zeta. eexists. split; [by apply processScript_at|].
  pose proof (processScript_keeps dbPool projectId st s) as Hk. cbv zeta in Hk.
  assert ((processScript dbPool projectId st s).1.2
          = r_script (resolve dbPool (st_scripts st !! keyOf s) (keyOf s) s)) as Hs'.
  { apply truthyStr_true in Hh. unfold processScript. by rewrite Hh. }
  pose proof (resolve_keeps dbPool (st_scripts st !! keyOf s) (keyOf s) s)
    as (_ & _ & _ & Ht & Hv). rewrite <- Hs' in Ht, Hv.
  split_and!; try tauto; try done.
  - intros t Et Hne%truthyStr_true. rewrite Et in Ht. by apply Ht.
  - intros v Ev. by apply Hv.
  - intros Hc. rewrite Hs'.
    destruct (resolve_source dbPool (st_scripts st !! keyOf s) (keyOf s) s Hc)
      as (n & l & ->).
    destruct (resolutionSource dbPool (st_scripts st !! keyOf s) (keyOf s))
      as [[srcType srcVersion]|] eqn:Es; [|done].
    apply resolutionSource_classified in Es as [? ?].
    by apply fillFrom_fills.
Qed.

(** ** The external lookup *)

#[local] Arguments String.append !_ _ / : simpl nomatch.

Lemma prefixCI_spec (pat s r : string) :
  Regex.prefixCI pat s = Some r ↔
  ∃ w, s = String.append w r ∧ Js.toLowerCase w = Js.toLowerCase pat.
Proof.
  revert s. induction pat as [|p pat IH]; intros s; simpl.
  - split.
    + intros [= ->]. by exists "".
    + intros (w & -> & Hw). destruct w; simpl in *; [done | discriminate Hw].
  - destruct s as [|c s].
    + split; [done|]. intros (w & Hs & Hw). destruct w; simpl in *; congruence.
    + destruct (Ascii.eqb_spec (Js.toLowerCaseChar p) (Js.toLowerCaseChar c)) as [E|E].
      * rewrite IH. split.
        -- intros (w & -> & Hw). exists (String c w). simpl. by rewrite Hw, E.
        -- intros (w & Hs & Hw). destruct w as [|c' w]; simpl in *; [discriminate Hw|].
           simplify_eq. by exists w.
      * split; [done|]. intros (w & Hs & Hw).
        destruct w as [|c' w]; simpl in *; [discriminate Hw|]. simplify_eq.
Qed.

#[local] Arguments Regex.prefixCI : simpl never.

Lemma plutusVAt_spec (s : string) (d : ascii) :
  Regex.plutusVAt s = Some d ↔ regexAt s "" d.
Proof.
  unfold Regex.plutusVAt, regexAt. simpl. split.
  - destruct (Regex.prefixCI "PlutusV" s) as [r|] eqn:E; [|done].
    apply prefixCI_spec in E as (w & -> & Hw).
    destruct r as [|d' r]; [done|]. destruct (Js.isDigit d') eqn:D; [|done].
    intros [= ->]. by exists w, r.
  - intros (w & suf & -> & Hw & Hd).
    assert (Regex.prefixCI "PlutusV" (String.append w (String d suf)) = Some (String d suf)) as ->
      by (apply prefixCI_spec; by exists w).
    by rewrite Hd.
Qed.

Lemma regexAt_cons (c : ascii) (s pre : string) (d : ascii) :
  regexAt (String c s) (String c pre) d ↔ regexAt s pre d.
Proof.
  unfold regexAt. split; intros (w & suf & H & ?); exists w, suf; simpl in *;
    split; try done; congruence.
Qed.

Lemma regexAt_head (s pre : string) (c : ascii) (d : ascii) :
  regexAt s (String c pre) d → ∃ s', s = String c s' ∧ regexAt s' pre d.
Proof.
  intros (w & suf & -> & ?). simpl. eexists. split; [done|]. by exists w, suf.
Qed.

Lemma matchPlutusV_none (s : string) :
  Regex.matchPlutusV s = None ↔ ∀ pre d, ¬ regexAt s pre d.
Proof.
  induction s as [|c s IH].
  - simpl. split; [|done]. intros _ pre d (w & suf & H & Hw & _).
    destruct pre; simpl in H; [|discriminate].
    destruct w; simpl in *; discriminate.
  - cbn [Regex.matchPlutusV].
    destruct (Regex.plutusVAt (String c s)) as [d0|] eqn:E.
    + split; [done|]. intros H. apply plutusVAt_spec in E. by apply H in E.
    + rewrite IH. split.
      * intros H [|c' pre] d Hp.
        -- apply plutusVAt_spec in Hp. congruence.
        -- apply regexAt_head in Hp as (s' & [= -> ->] & Hp). by apply H in Hp.
      * intros H pre d Hp. apply (H (String c pre) d). by apply regexAt_cons.
Qed.

Lemma matchPlutusV_some (s : string) (d : ascii) :
  Regex.matchPlutusV s = Some d ↔
  ∃ pre, regexAt s pre d ∧
         ∀ pre' d', regexAt s pre' d' →
           (String.length pre < String.length pre')%nat ∨ (pre' = pre ∧ d' = d).
Proof.
  induction s as [|c s IH].
  - simpl. split; [done|]. intros (pre & (w & suf & H & Hw & _) & _).
    destruct pre; simpl in H; [|discriminate].
    destruct w; simpl in *; discriminate.
  - cbn [Regex.matchPlutusV].
    destruct (Regex.plutusVAt (String c s)) as [d0|] eqn:E.
    + split.
      * intros [= ->]. exists "". apply plutusVAt_spec in E as E'. split; [done|].
        intros [|c' pre'] d' Hp; [|left; simpl; lia].
        right. apply plutusVAt_spec in Hp. split; congruence.
      * intros (pre & Hp & Hmin). apply plutusVAt_spec in E.
        destruct (Hmin "" d0 E) as [Hlt | [_ ->]]; [simpl in Hlt; lia | done].
    + rewrite IH. split.
      * intros (pre & Hp & Hmin). exists (String c pre). split; [by apply regexAt_cons|].
        intros [|c' pre'] d' Hp'.
        -- apply plutusVAt_spec in Hp'. congruence.
        -- apply regexAt_head in Hp' as (s' & [= -> ->] & Hp').
           destruct (Hmin _ _ Hp') as [? | [-> ->]]; [left; simpl; lia | by right].
      * intros ([|c' pre] & Hp & Hmin).
        -- apply plutusVAt_spec in Hp. congruence.
        -- apply regexAt_head in Hp as (s' & [= -> ->] & Hp). exists pre. split; [done|].
           intros pre' d' Hp'.
           destruct (Hmin (String c' pre') d') as [? | [[= ->] ->]];
             [by apply regexAt_cons | left; simpl in *; lia | by right].
Qed.

Lemma letter_cases (upper lower c : ascii) :
  (upper, lower) ∈ plutusVLetters →
  Js.toLowerCaseChar c = lower ↔ (Ascii.eqb c upper || Ascii.eqb c lower = true).
Proof.
  intros H. unfold plutusVLetters in H.
  repeat (apply elem_of_cons in H as [[= -> ->] | H];
          [destruct c as [[] [] [] [] [] [] [] []]; vm_compute; by split|]).
  by apply elem_of_nil in H.
Qed.

Lemma spells_lower (letters : list (ascii * ascii)) (w : string) :
  letters ⊆ plutusVLetters →
  spells letters w = true
  ↔ Js.toLowerCase w = string_of_list_ascii (snd <$> letters).
Proof.
  revert w. induction letters as [|[upper lower] letters IH]; intros w Hsub.
  - destruct w; simpl; by split.
  - destruct w as [|c w]; cbn [spells Js.toLowerCase fmap list_fmap string_of_list_ascii snd];
      [by split|].
    rewrite andb_true_iff, IH by set_solver.
    rewrite <- (letter_cases upper lower c) by set_solver.
    split; [intros [-> ->]; done | intros [= -> ->]; done].
Qed.

Lemma spells_plutusV (w : string) :
  spells plutusVLetters w = true ↔ Js.toLowerCase w = "plutusv".
Proof. by rewrite spells_lower. Qed.

Lemma decimalDigits_spec (d : ascii) (n : Z) :
  (d, n) ∈ decimalDigits ↔ Js.isDigit d = true ∧ n = Js.digitValue d.
Proof.
  split.
  - intros H. unfold decimalDigits in H.
    repeat (apply elem_of_cons in H as [[= -> ->] | H]; [by vm_compute|]).
    by apply elem_of_nil in H.
  - intros [Hd ->]. apply list_elem_of_In.
    destruct d as [[] [] [] [] [] [] [] []]; vm_compute in Hd; try discriminate Hd;
      vm_compute; tauto.
Qed.

Lemma plutusAt_regexAt (dbType pre : string) (n : Z) :
  plutusAt dbType pre n ↔ ∃ d, regexAt dbType pre d ∧ n = Js.digitValue d.
Proof.
  unfold plutusAt, regexAt. split.
  - intros (w & d & suf & -> & Hw%spells_plutusV & [Hd ->]%decimalDigits_spec).
    exists d. split; [|done]. by exists w, suf.
  - intros (d & (w & suf & -> & Hw & Hd) & ->). exists w, d, suf.
    split_and!; [done | by apply spells_plutusV | by apply decimalDigits_spec].
Qed.

Lemma matchPlutusV_versioned (s : string) (n : Z) :
  VersionedPlutus s n ↔ ∃ d, Regex.matchPlutusV s = Some d ∧ n = Js.digitValue d.
Proof.
  split.
  - intros (pre & (d & Hp & ->)%plutusAt_regexAt & Hmin).
    destruct (Regex.matchPlutusV s) as [d0|] eqn:E.
    + exists d0. split; [done|]. apply matchPlutusV_some in E as (pre0 & Hp0 & Hmin0).
      destruct (Hmin0 _ _ Hp) as [Hlt | [_ ->]]; [|done].
      assert (plutusAt s pre0 (Js.digitValue d0)) as Hp0'
        by (apply plutusAt_regexAt; eauto).
      apply Hmin in Hp0'. lia.
    + exfalso. eapply matchPlutusV_none in E. by apply E in Hp.
  - intros (d & E & ->). apply matchPlutusV_some in E as (pre & Hp & Hmin).
    exists pre. split; [apply plutusAt_regexAt; eauto|].
    intros pre' n' (d' & Hp' & _)%plutusAt_regexAt.
    destruct (Hmin _ _ Hp') as [? | [-> _]]; lia.
Qed.

Lemma lookupScriptInfo_classified (dbPool : DbPool) (hash : string) info :
  lookupScriptInfo dbPool hash = Some info ↔
  ∃ query, dbPool = Some query ∧ Classified (query hash) info.
Proof.
  unfold lookupScriptInfo, lookupTry. split.
  - destruct dbPool as [query|]; [|done]. intros H. exists query. split; [done|].
    destruct (query hash) as [|[[|row rest]|]]; try done.
    destruct (row_type row) as [dbType|] eqn:Er; [|done].
    destruct (String.eqb_spec dbType "timelock") as [->|Hne].
    + simplify_eq. by constructor.
    + destruct (Regex.matchPlutusV dbType) as [d|] eqn:Em; [|done].
      simplify_eq. econstructor; [done..|].
      apply matchPlutusV_versioned. eauto.
  - intros (query & -> & Hc). destruct Hc as [row rest Hr | row rest dbType n Hr Hne Hv].
    + by rewrite Hr.
    + rewrite Hr. apply String.eqb_neq in Hne. rewrite Hne.
      apply matchPlutusV_versioned in Hv as (d & -> & ->). done.
Qed.

Lemma matchPlutusV_none_plutusAt (s : string) :
  Regex.matchPlutusV s = None ↔ ∀ pre n, ¬ plutusAt s pre n.
Proof.
  rewrite matchPlutusV_none. split.
  - intros H pre n (d & Hp & _)%plutusAt_regexAt. by apply H in Hp.
  - intros H pre d Hp. apply (H pre (Js.digitValue d)).
    apply plutusAt_regexAt. eauto.
Qed.

(** C6 (as amended).  Outcomes of the external lookup.
    [lookupScriptInfo] always returns.  It yields a classification
    exactly when a pool is configured and the first row of the answer is
    classified: as NATIVE with version 0 for the type 'timelock', and as
    PLUTUS for a type that holds, anywhere and in any letter case, the
    word PlutusV followed by a decimal digit, the version being the value
    of the leftmost such digit.  So PlutusV followed by one digit yields
    the value of that digit, and only the first digit of a longer number
    counts.  A missing pool, a rejected query, missing or empty rows, a
    NULL type and a type that is neither yield no classification; then
    the resolver leaves the record and the local [type]/[plutusVersion]
    as they were and does not set [projectModified]. *)
Theorem lookupScriptInfo_outcomes (dbPool : DbPool) (hash : string) :
  (∀ info, lookupScriptInfo dbPool hash = Some info ↔
           ∃ query, dbPool = Some query ∧ Classified (query hash) info) ∧
  (∀ query row rest d n suf,
     dbPool = Some query → query hash = QueryResult (Some (row :: rest)) →
     (d, n) ∈ decimalDigits →
     row_type row = Some (String.append "PlutusV" (String d suf)) →
     lookupScriptInfo dbPool hash
     = Some {| info_type := "PLUTUS"; info_plutusVersion := n |}) ∧
  (lookupScriptInfo dbPool hash = None ↔
   ∀ query info, dbPool = Some query → ¬ Classified (query hash) info) ∧
  (∀ query, dbPool = Some query →
     query hash = QueryThrows ∨ query hash = QueryResult None ∨
     query hash = QueryResult (Some []) ∨
     (∃ row rest, query hash = QueryResult (Some (row :: rest)) ∧
        (row_type row = None ∨
         ∃ dbType, row_type row = Some dbType ∧ dbType ≠ "timelock" ∧
                   ∀ pre n, ¬ plutusAt dbType pre n)) →
     lookupScriptInfo dbPool hash = None) ∧
  (∀ s : ProjectScript.t,
     lookupScriptInfo dbPool hash = None →
     let r := viaLookup dbPool hash s in
     r_script r = s ∧ r_modified r = false ∧
     r_type r = ProjectScript.type s ∧
     r_plutusVersion r = ProjectScript.plutusVersion s).
Proof.
  split_and!.
  - apply lookupScriptInfo_classified.
  - intros query row rest d n suf -> Hq Hd Hr.
    apply lookupScriptInfo_classified. exists query. split; [done|]. rewrite Hq.
    eapply classified_plutus; [done | done |].
    exists "". split.
    + exists "PlutusV", d, suf. by split_and!.
    + intros pre' n' _. simpl. lia.
  - split.
    + intros Hn query info -> Hc.
      assert (lookupScriptInfo (Some query) hash = Some info) as Hs
        by (apply lookupScriptInfo_classified; eauto).
      congruence.
    + intros Hn. destruct (lookupScriptInfo dbPool hash) as [info|] eqn:E; [|done].
      apply lookupScriptInfo_classified in E as (query & -> & Hc).
      by apply Hn in Hc.
  - intros query -> H. unfold lookupScriptInfo, lookupTry.
    destruct H as [-> | [-> | [-> | (row & rest & -> & H)]]]; try done.
    destruct H as [-> | (dbType & -> & Hne & Hno)]; [done|].
    apply String.eqb_neq in Hne. rewrite Hne.
    apply matchPlutusV_none_plutusAt in Hno. by rewrite Hno.
  - intros s Hn. unfold viaLookup. rewrite Hn. by destruct dbPool.
Qed.

(** C6 does not hold as the specification words it.  The type 'PlutusV12' is a versioned
    Plutus language string, and the integer it carries is 12; the lookup
    classifies it as PLUTUS of version 1, the first digit.  Nor is the
    rest unresolved: a type that merely contains the word, like
    'xplutusv2y', is classified too. *)
Lemma lookupScriptInfo_counterexample :
  lookupScriptInfo
    (Some (fun _ => QueryResult (Some [{| row_type := Some "PlutusV12" |}]))) "aabbcc"
  = Some {| info_type := "PLUTUS"; info_plutusVersion := 1 |} ∧
  lookupScriptInfo
    (Some (fun _ => QueryResult (Some [{| row_type := Some "xplutusv2y" |}]))) "aabbcc"
  = Some {| info_type := "PLUTUS"; info_plutusVersion := 2 |}.
Proof. split; reflexivity. Qed.

(** ** The loops *)

Lemma buildFrom_nil dbPool st : buildFrom dbPool st [] = st.
Proof. reflexivity. Qed.

Lemma buildFrom_cons dbPool st file dir :
  buildFrom dbPool st (file :: dir)
  = buildFrom dbPool (stepFile dbPool st file) dir.
Proof.
  unfold buildFrom, stepFile. rewrite filter_cons.
  case_decide as H; destruct (isJsonFile file); simpl in *; done.
Qed.

Lemma keysOf_cons (s : ProjectScript.t) ss :
  keysOf (s :: ss)
  = (if decide (ProjectScript.scriptHash s ≠ "") then [keyOf s] else []) ++ keysOf ss.
Proof. unfold keysOf. rewrite filter_cons. by case_decide. Qed.

Lemma processScript_other' dbPool projectId st (s : ProjectScript.t) k :
  k ∉ keysOf [s] →
  st_scripts (processScript dbPool projectId st s).1.1 !! k = st_scripts st !! k.
Proof.
  rewrite keysOf_cons. case_decide as Hh.
  - intros Hk. apply processScript_other. set_solver.
  - intros _. rewrite processScript_skip; [done|]. by destruct (decide (ProjectScript.scriptHash s = "")).
Qed.

Lemma processScript_mono dbPool projectId st (s : ProjectScript.t) k :
  is_Some (st_scripts st !! k) →
  is_Some (st_scripts (processScript dbPool projectId st s).1.1 !! k).
Proof.
  intros Hk. destruct (decide (ProjectScript.scriptHash s = "")) as [E|E].
  - by rewrite processScript_skip.
  - destruct (decide (k = keyOf s)) as [->|Hne].
    + rewrite processScript_at; eauto.
    + by rewrite processScript_other.
Qed.

Lemma processScripts_cons dbPool projectId st s ss :
  processScripts dbPool projectId st (s :: ss)
  = ((processScripts dbPool projectId (processScript dbPool projectId st s).1.1 ss).1.1,
     (processScript dbPool projectId st s).1.2
       :: (processScripts dbPool projectId (processScript dbPool projectId st s).1.1 ss).1.2,
     (processScript dbPool projectId st s).2
       || (processScripts dbPool projectId (processScript dbPool projectId st s).1.1 ss).2).
Proof.
  simpl. destruct (processScript dbPool projectId st s) as [[st1 s'] m1]. simpl.
  by destruct (processScripts dbPool projectId st1 ss) as [[st2 ss'] m2].
Qed.

(** Unfold one iteration of the loop over the scripts. *)
Ltac scripts_step := rewrite processScripts_cons; cbn [fst snd].

Lemma processScripts_other dbPool projectId st ss k :
  k ∉ keysOf ss →
  st_scripts (processScripts dbPool projectId st ss).1.1 !! k = st_scripts st !! k.
Proof.
  revert st. induction ss as [|s ss IH]; intros st Hk; [done|].
  rewrite keysOf_cons in Hk. scripts_step.
  rewrite IH by set_solver. apply processScript_other'.
  rewrite keysOf_cons. set_solver.
Qed.

Lemma processScripts_mono dbPool projectId st ss k :
  is_Some (st_scripts st !! k) →
  is_Some (st_scripts (processScripts dbPool projectId st ss).1.1 !! k).
Proof.
  revert st. induction ss as [|s ss IH]; intros st Hk; [done|].
  scripts_step. by apply IH, processScript_mono.
Qed.

Lemma processScripts_frame dbPool projectId st ss :
  st_projects (processScripts dbPool projectId st ss).1.1 = st_projects st ∧
  projectFilesToUpdate (processScripts dbPool projectId st ss).1.1
  = projectFilesToUpdate st.
Proof.
  revert st. induction ss as [|s ss IH]; intros st; [done|].
  scripts_step.
  destruct (IH (processScript dbPool projectId st s).1.1) as [-> ->].
  apply processScript_frame.
Qed.

Lemma upsertProject_scripts projectId e st :
  st_scripts (upsertProject projectId e st) = st_scripts st.
Proof. unfold upsertProject. by case_match. Qed.

(** What [processFile] does, file by file, in terms of the processed
    records. *)
Lemma processFile_cases dbPool st file :
  (processedScripts file = [] ∧
   st_scripts (processFile dbPool st file) = st_scripts st) ∨
  (∃ project l,
     snd file = Some project ∧ usableLabel project = Some l ∧
     st_scripts (processFile dbPool st file)
     = st_scripts (processScripts dbPool (toKebabCase l)
                     (upsertProject (toKebabCase l) (newProjectEntryOf l project) st)
                     (processedScripts file)).1.1).
Proof.
  unfold processFile, processedScripts.
  destruct (snd file) as [project|]; [|by left].
  destruct (usableLabel project) as [l|] eqn:Eu; [|by left].
  right. exists project, l. split_and!; [done..|].
  destruct (Project.scripts project) as [[|s ss]|]; simpl; [done| |done].
  destruct (processScript dbPool (toKebabCase l) _ s) as [[st1 s'] m1].
  destruct (processScripts dbPool (toKebabCase l) st1 ss) as [[st2 ss'] m2].
  by destruct (m1 || m2).
Qed.

Lemma stepFile_other dbPool st file k :
  k ∉ passKeys [file] →
  st_scripts (stepFile dbPool st file) !! k = st_scripts st !! k.
Proof.
  unfold stepFile. simpl. rewrite app_nil_r.
  destruct (isJsonFile file); [|done]. intros Hk.
  destruct (processFile_cases dbPool st file) as [[_ ->] | (project & l & _ & _ & ->)]; [done|].
  rewrite processScripts_other by done. by rewrite upsertProject_scripts.
Qed.

Lemma stepFile_mono dbPool st file k :
  is_Some (st_scripts st !! k) →
  is_Some (st_scripts (stepFile dbPool st file) !! k).
Proof.
  unfold stepFile. destruct (isJsonFile file); [|done]. intros Hk.
  destruct (processFile_cases dbPool st file) as [[_ ->] | (project & l & _ & _ & ->)]; [done|].
  apply processScripts_mono. by rewrite upsertProject_scripts.
Qed.

Lemma buildFrom_other dbPool st dir k :
  k ∉ passKeys dir →
  st_scripts (buildFrom dbPool st dir) !! k = st_scripts st !! k.
Proof.
  revert st. induction dir as [|file dir IH]; intros st Hk; [done|].
  rewrite buildFrom_cons. simpl in Hk.
  rewrite IH by set_solver. apply stepFile_other. simpl. set_solver.
Qed.

Lemma buildFrom_mono dbPool st dir k :
  is_Some (st_scripts st !! k) →
  is_Some (st_scripts (buildFrom dbPool st dir) !! k).
Proof.
  revert st. induction dir as [|file dir IH]; intros st Hk; [done|].
  rewrite buildFrom_cons. apply IH. by apply stepFile_mono.
Qed.

(** ** The run *)

(** C3. No data loss on merge.  Let the index file hold an index and let
    [k] be a key that no script record of the pass is filed under.  Then
    the run completes, the entry at [k] in the final index, and in the
    index file the run leaves on disk, is the prior one, unchanged; and
    no key at all of the prior index is missing afterwards. *)
Theorem merge_keeps_prior_entries dbPool now dryRun disk idx dir k :
  indexFile disk = IndexJson idx →
  projectsDir disk = Some dir →
  k ∉ passKeys dir →
  ∃ r, generateScriptIndex dbPool now dryRun disk = Completed r ∧
       scripts (finalIndex r) !! k = scripts idx !! k ∧
       (∃ idx', indexFile (diskAfter r) = IndexJson idx' ∧
                scripts idx' !! k = scripts idx !! k ∧
                ∀ k', is_Some (scripts idx !! k') → is_Some (scripts idx' !! k')) ∧
       ∀ k', is_Some (scripts idx !! k') → is_Some (scripts (finalIndex r) !! k').
Proof.
  intros Hi Hd Hk. unfold generateScriptIndex. rewrite Hi, Hd. simpl.
  eexists. split; [done|]. simpl.
  assert (∀ k', is_Some (scripts idx !! k') →
    is_Some (st_scripts (buildFrom dbPool (initialState (Some idx)) dir) !! k'))
    as Hmono by (intros k' Hk'; by apply buildFrom_mono).
  split_and!.
  - by rewrite buildFrom_other.
  - destruct dryRun; simpl.
    + exists idx. by rewrite Hi.
    + eexists. split; [done|]. simpl. split; [by rewrite buildFrom_other | done].
  - done.
Qed.

(** C8. Count consistency.  In the index a completed run finalizes, dry
    or not, [scriptCount] is the number of keys of the scripts map and
    [projectCount] the number of keys of the projects map; a run that is
    not dry commits exactly this index. *)
Theorem counts_consistent dbPool now dryRun disk r :
  generateScriptIndex dbPool now dryRun disk = Completed r →
  scriptCount (metadata (finalIndex r)) = size (scripts (finalIndex r)) ∧
  projectCount (metadata (finalIndex r)) = size (projects (finalIndex r)) ∧
  sum_totalScripts (summary r) = size (scripts (finalIndex r)) ∧
  sum_totalProjects (summary r) = size (projects (finalIndex r)) ∧
  (dryRun = false → indexFile (diskAfter r) = IndexJson (finalIndex r)).
Proof.
  unfold generateScriptIndex. destruct (projectsDir disk) as [dir|]; [|done].
  intros [= <-]. simpl. split_and!; try done. by intros ->.
Qed.

(** C4. Dry-run purity.  From any state of the disk, the dry run and the
    committing run either both stop for want of the projects directory,
    or both complete with the same summary and the same finalized
    in-memory index; the dry run leaves the disk, index file and project
    files, exactly as it found it. *)
Theorem dry_run_purity dbPool now disk :
  match generateScriptIndex dbPool now true disk,
        generateScriptIndex dbPool now false disk with
  | Completed dry, Completed wet =>
      diskAfter dry = disk ∧
      summary dry = summary wet ∧
      finalIndex dry = finalIndex wet
  | Exit1, Exit1 => True
  | _, _ => False
  end.
Proof.
  unfold generateScriptIndex. by destruct (projectsDir disk).
Qed.

(** ** The projects map *)

Lemma spread_new old e : spread old e = e.
Proof. by destruct e. Qed.

Lemma upsertProject_projects projectId e st :
  st_projects (upsertProject projectId e st) = <[projectId := e]> (st_projects st).
Proof. unfold upsertProject. case_match; simpl; by rewrite ?spread_new. Qed.

Lemma projectAddedCount_app projectId l1 l2 :
  projectAddedCount projectId (l1 ++ l2)
  = (projectAddedCount projectId l1 + projectAddedCount projectId l2)%nat.
Proof. unfold projectAddedCount. by rewrite filter_app, length_app. Qed.

Lemma upsertProject_count projectId e st pid :
  projectAddedCount pid (log (upsertProject projectId e st))
  = (projectAddedCount pid (log st) +
     if decide (projectId = pid ∧ st_projects st !! projectId = None ∧
                Js.inherited projectId = false) then 1 else 0)%nat.
Proof.
  unfold upsertProject. destruct (st_projects st !! projectId) eqn:E; simpl.
  - case_decide; [naive_solver | lia].
  - destruct (Js.inherited projectId) eqn:Ei.
    + case_decide; [naive_solver | lia].
    + rewrite projectAddedCount_app. f_equal.
      unfold projectAddedCount. rewrite filter_cons.
      repeat case_decide; simplify_eq/=; try done; naive_solver.
Qed.

Lemma resolve_log_count dbPool existing hash s pid :
  projectAddedCount pid (r_log (resolve dbPool existing hash s)) = 0%nat.
Proof.
  unfold resolve, viaLookup, fillFrom, unresolved. by repeat case_match.
Qed.

Lemma processScript_count dbPool projectId st (s : ProjectScript.t) pid :
  projectAddedCount pid (log (processScript dbPool projectId st s).1.1)
  = projectAddedCount pid (log st).
Proof.
  unfold processScript. case_match; [done|]. simpl.
  unfold classify, recordAdded, recordUpdated, recordUnchanged.
  repeat case_match; simpl; rewrite ?projectAddedCount_app, ?resolve_log_count;
    unfold projectAddedCount; simpl; lia.
Qed.

Lemma processScripts_count dbPool projectId st ss pid :
  projectAddedCount pid (log (processScripts dbPool projectId st ss).1.1)
  = projectAddedCount pid (log st).
Proof.
  revert st. induction ss as [|s ss IH]; intros st; [done|].
  scripts_step. by rewrite IH, processScript_count.
Qed.

Lemma stepFile_projects dbPool st file :
  st_projects (stepFile dbPool st file)
  = match projectOf file with
    | Some (pid, e) => <[pid := e]> (st_projects st)
    | None => st_projects st
    end ∧
  ∀ pid, projectAddedCount pid (log (stepFile dbPool st file))
         = (projectAddedCount pid (log st) +
            match projectOf file with
            | Some (pid', _) =>
                if decide (pid' = pid ∧ st_projects st !! pid' = None ∧
                           Js.inherited pid' = false) then 1 else 0
            | None => 0
            end)%nat.
Proof.
  unfold stepFile, projectOf, processFile.
  destruct (isJsonFile file); [|split; [done | intros; lia]].
  destruct (snd file) as [project|]; simpl;
    [|split; [done | intros; rewrite projectAddedCount_app; unfold projectAddedCount; simpl; lia]].
  destruct (usableLabel project) as [l|]; simpl;
    [|split; [done | intros; rewrite projectAddedCount_app; unfold projectAddedCount; simpl; lia]].
  set (st1 := upsertProject (toKebabCase l) (newProjectEntryOf l project) st).
  assert (st_projects st1 = <[toKebabCase l := newProjectEntryOf l project]> (st_projects st))
    as H1 by apply upsertProject_projects.
  assert (∀ pid, projectAddedCount pid (log st1)
          = (projectAddedCount pid (log st) +
             if decide (toKebabCase l = pid ∧ st_projects st !! toKebabCase l = None ∧
                        Js.inherited (toKebabCase l) = false)
             then 1 else 0)%nat) as H2 by (intros; apply upsertProject_count).
  destruct (Project.scripts project) as [[|s ss]|]; try done.
  pose proof (processScripts_frame dbPool (toKebabCase l) st1 (s :: ss)) as [H3 _].
  pose proof (processScripts_count dbPool (toKebabCase l) st1 (s :: ss)) as H4.
  destruct (processScripts dbPool (toKebabCase l) st1 (s :: ss)) as [[st2 ss'] m2].
  simpl in H3, H4.
  destruct m2; simpl; rewrite H3, H1; (split; [done|]); intros pid; by rewrite H4, H2.
Qed.

Lemma buildFrom_projects dbPool st dir projectId :
  st_projects (buildFrom dbPool st dir) !! projectId
  = match lastUpsert projectId dir with
    | Some e => Some e
    | None => st_projects st !! projectId
    end ∧
  projectAddedCount projectId (log (buildFrom dbPool st dir))
  = (projectAddedCount projectId (log st) +
     if decide (st_projects st !! projectId = None ∧ is_Some (lastUpsert projectId dir) ∧
                Js.inherited projectId = false)
     then 1 else 0)%nat.
Proof.
  revert st. induction dir as [|file dir IH]; intros st.
  - rewrite buildFrom_nil. simpl. split; [done|].
    case_decide as H; [destruct H as [_ [? ?]]; done | lia].
  - rewrite buildFrom_cons. destruct (IH (stepFile dbPool st file)) as [IH1 IH2].
    destruct (stepFile_projects dbPool st file) as [Hp Hc].
    rewrite IH1, IH2, Hp, (Hc projectId). simpl. clear IH IH1 IH2 Hp Hc.
    destruct (lastUpsert projectId dir) as [e|] eqn:El.
    + split; [done|].
      destruct (projectOf file) as [[pid' e']|]; simpl.
      * destruct (decide (pid' = projectId)) as [->|Hne].
        -- rewrite lookup_insert_eq.
           repeat case_decide; try lia; naive_solver.
        -- rewrite lookup_insert_ne by done.
           repeat case_decide; try lia; naive_solver.
      * repeat case_decide; try lia; naive_solver.
    + destruct (projectOf file) as [[pid' e']|]; simpl.
      * destruct (String.eqb_spec pid' projectId) as [->|Hne].
        -- rewrite lookup_insert_eq. split; [done|].
           repeat case_decide; try lia; try naive_solver.
           all: exfalso; destruct_and?; naive_solver.
        -- rewrite lookup_insert_ne by done. split; [done|].
           repeat case_decide; try lia; try naive_solver.
           all: exfalso; destruct_and?; unfold is_Some in *; naive_solver.
      * split; [done|]. repeat case_decide; try lia; try naive_solver.
        all: exfalso; destruct_and?; unfold is_Some in *; naive_solver.
Qed.





(** ** Hash keys *)

Lemma normalizeHash_length_112 (h : string) :
  String.length h = 112%nat →
  normalizeHash h = Js.toLowerCase (Js.slice0 56 h) ∧
  String.length (normalizeHash h) = 56%nat.
Proof.
  intros H. unfold normalizeHash. rewrite H. simpl.
  split; [done|]. rewrite toLowerCase_length, slice0_length; lia.
Qed.

Lemma normalizeHash_length_other (h : string) :
  String.length h ≠ 112%nat →
  normalizeHash h = Js.toLowerCase h ∧
  String.length (normalizeHash h) = String.length h.
Proof.
  intros H. unfold normalizeHash.
  destruct (Nat.eqb_spec (String.length h) 112); [done|].
  by rewrite toLowerCase_length.
Qed.

Lemma normalizeHash_not_112 (h : string) :
  String.length (normalizeHash h) ≠ 112%nat.
Proof.
  destruct (decide (String.length h = 112%nat)) as [E|E].
  - apply normalizeHash_length_112 in E as [_ ->]. lia.
  - apply normalizeHash_length_other in E as E'. destruct E' as [_ ->]. done.
Qed.

Lemma normalizeHash_idem (h : string) :
  normalizeHash (normalizeHash h) = normalizeHash h.
Proof.
  pose proof (normalizeHash_not_112 h) as Hn.
  apply normalizeHash_length_other in Hn as [-> _].
  unfold normalizeHash. case_match; apply toLowerCase_idem.
Qed.

Lemma lowerHex_toLowerCase (h k : string) :
  lowerHex h k = true → Js.toLowerCase h = k.
Proof.
  revert k. induction h as [|c h IH]; intros [|c' k];
    cbn [lowerHex Js.toLowerCase]; try done.
  intros [Hc Hk]%andb_true_iff. rewrite (IH _ Hk). f_equal.
  apply existsb_exists in Hc as ([a b] & Hin & Hab). cbn [fst snd] in Hab.
  apply andb_true_iff in Hab as [->%Ascii.eqb_eq ->%Ascii.eqb_eq].
  unfold hexDigits in Hin. cbn [In] in Hin.
  repeat (destruct Hin as [[= <- <-] | Hin]; [reflexivity|]). done.
Qed.

(** C1 (as amended).  For a raw hash [h] of hexadecimal digits, whose
    lower-case form is [k]: [normalizeHash], the normalizer of the import
    tool, yields [k], and when [h] is 112 characters long the first 56
    characters of [k]; normalizing such an [h] twice gives the same as
    normalizing it once.  The index builder does not cut the hash: it
    files a script record under [k], the whole hash in lower case, and
    touches no other key of the scripts map. *)
Theorem hash_normalization (h k : string) :
  lowerHex h k = true →
  (String.length h = 112%nat →
     normalizeHash h = substring 0 56 k ∧
     normalizeHash (normalizeHash h) = normalizeHash h) ∧
  (String.length h ≠ 112%nat → normalizeHash h = k) ∧
  (∀ dbPool projectId st (s : ProjectScript.t),
     ProjectScript.scriptHash s = h → h ≠ "" →
     is_Some (st_scripts (processScript dbPool projectId st s).1.1 !! k) ∧
     ∀ k', k' ≠ k →
           st_scripts (processScript dbPool projectId st s).1.1 !! k'
           = st_scripts st !! k').
Proof.
  intros Hk%lowerHex_toLowerCase. split_and!.
  - intros Hl. split; [|apply normalizeHash_idem].
    apply normalizeHash_length_112 in Hl as [-> _]. subst k. unfold Js.slice0.
    clear. generalize 56%nat. induction h as [|c h IH]; intros [|n]; simpl; try done.
    by rewrite IH.
  - intros [-> _]%normalizeHash_length_other. done.
  - intros dbPool projectId st s Hs Hne.
    assert (keyOf s = k) as <- by (unfold keyOf; by rewrite Hs).
    split.
    + rewrite processScript_at by (by rewrite Hs). eauto.
    + intros k' Hk'. by apply processScript_other.
Qed.

(** C1 does not hold as the specification words it.  The builder, run on an empty index
    and a project whose script hash is 112 hexadecimal characters long,
    files the script under the whole hash in lower case, a key of 112
    characters, and writes nothing under its first 56 characters. *)
Lemma hash_normalization_counterexample :
  ∃ r, generateScriptIndex None "" false longHashDisk = Completed r ∧
       String.length longHash = 112%nat ∧
       lowerHex longHash longHashLower = true ∧
       longHashShort = substring 0 56 longHashLower ∧
       scripts (finalIndex r) !! longHashShort = None ∧
       is_Some (scripts (finalIndex r) !! longHashLower) ∧
       String.length longHashLower = 112%nat ∧
       (∃ idx, indexFile (diskAfter r) = IndexJson idx ∧
               is_Some (scripts idx !! longHashLower)).
Proof.
  eexists.
  split_and!; [reflexivity | reflexivity | reflexivity | reflexivity
               | by vm_compute | | reflexivity |].
  - vm_compute. eauto.
  - eexists. split; [reflexivity|]. vm_compute. eauto.
Qed.

(** C1 on a hash of 112 characters. *)
Lemma hash_normalization_witness :
  lowerHex longHash longHashLower = true ∧
  String.length longHash = 112%nat ∧
  normalizeHash longHash = longHashShort ∧
  normalizeHash (normalizeHash longHash) = normalizeHash longHash.
Proof.
  split; [reflexivity|]. split; [reflexivity|].
  exact (proj1 (hash_normalization longHash longHashLower eq_refl) eq_refl).
Defined.

(** ** Running the builder again *)


Lemma resolve_complete dbPool existing hash s :
  complete s = true → resolve dbPool existing hash s = unresolved s 0 [].
Proof.
  unfold complete, resolve. intros [H1 H2%bool_decide_eq_true]%andb_true_iff.
  rewrite H1. simpl. case_bool_decide; done.
Qed.

Lemma fillFrom_complete s srcType srcVersion n l :
  Js.truthy srcType = true → srcVersion ≠ None →
  complete (r_script (fillFrom s srcType srcVersion n l)) = true.
Proof.
  intros H1 H2.
  by destruct (fillFrom_entry "" s srcType srcVersion n l H1 H2) as [_ H].
Qed.

Lemma viaLookup_cases dbPool hash s :
  complete (r_script (viaLookup dbPool hash s)) = true ∨
  (∃ n l, viaLookup dbPool hash s = unresolved s n l).
Proof.
  unfold viaLookup. destruct dbPool as [query|]; [|right; eauto].
  destruct (lookupScriptInfo (Some query) hash) as [info|] eqn:E; [|right; eauto].
  left. apply fillFrom_complete; [|done]. by eapply lookupScriptInfo_truthy.
Qed.

Lemma resolve_cases dbPool existing hash s :
  complete (r_script (resolve dbPool existing hash s)) = true ∨
  (complete s = false ∧ r_script (resolve dbPool existing hash s) = s ∧
   ∃ n l, viaLookup dbPool hash s = unresolved s n l).
Proof.
  destruct (complete s) eqn:Hs.
  { left. by rewrite resolve_complete. }
  unfold resolve.
  assert (negb (Js.truthy (ProjectScript.type s))
          || bool_decide (ProjectScript.plutusVersion s = None) = true) as ->.
  { unfold complete in Hs. apply andb_false_iff in Hs as [->|H]; [done|].
    apply bool_decide_eq_false in H. apply orb_true_iff. right.
    apply bool_decide_eq_true.
    destruct (ProjectScript.plutusVersion s); [by destruct H | done]. }
  assert (complete (r_script (viaLookup dbPool hash s)) = true ∨
          (false = false ∧ r_script (viaLookup dbPool hash s) = s ∧
           ∃ n l, viaLookup dbPool hash s = unresolved s n l)) as Hv.
  { destruct (viaLookup_cases dbPool hash s) as [H|(n & l & H)]; [by left|].
    right. split_and!; [done | by rewrite H | eauto]. }
  destruct existing as [e|]; [|done].
  destruct (hasClassification e) eqn:Eh; [|done].
  apply hasClassification_inv in Eh as [? ?].
  left. by apply fillFrom_complete.
Qed.



Lemma processScript_unfold dbPool projectId st (s : ProjectScript.t) :
  ProjectScript.scriptHash s ≠ "" →
  processScript dbPool projectId st s
  = (classify (st_scripts st !! keyOf s) (keyOf s)
       (newEntryOf projectId s (resolve dbPool (st_scripts st !! keyOf s) (keyOf s) s))
       (afterResolution st (resolve dbPool (st_scripts st !! keyOf s) (keyOf s) s)),
     r_script (resolve dbPool (st_scripts st !! keyOf s) (keyOf s) s),
     r_modified (resolve dbPool (st_scripts st !! keyOf s) (keyOf s) s)).
Proof. intros E%truthyStr_true. unfold processScript. by rewrite E. Qed.




Lemma sameOutcome_upsert projectId e st :
  sameOutcome (upsertProject projectId e st) st.
Proof. unfold sameOutcome, upsertProject. by case_match. Qed.



(** A resolution that does not set [projectModified] leaves the record
    as it was. *)
Lemma processScript_unmodified dbPool projectId st (s : ProjectScript.t) :
  (processScript dbPool projectId st s).2 = false →
  (processScript dbPool projectId st s).1.2 = s.
Proof.
  unfold processScript. case_match; [done|]. simpl.
  unfold resolve, viaLookup, fillFrom, unresolved.
  repeat case_match; simpl; try done.
Qed.

Lemma processScripts_unmodified dbPool projectId st ss :
  (processScripts dbPool projectId st ss).2 = false →
  (processScripts dbPool projectId st ss).1.2 = ss.
Proof.
  revert st. induction ss as [|s ss IH]; intros st; [done|].
  scripts_step. intros [H1 H2]%orb_false_iff.
  by rewrite processScript_unmodified, IH.
Qed.

Lemma processFile_unfold dbPool st (file : string * FileContent) project l :
  snd file = Some project → usableLabel project = Some l →
  processFile dbPool st file
  = let p := processScripts dbPool (toKebabCase l)
               (upsertProject (toKebabCase l) (newProjectEntryOf l project) st)
               (default [] (Project.scripts project)) in
    if p.2 then stage (fst file) (withScripts project p.1.2) p.1.1 else p.1.1.
Proof.
  intros Hf Hl. unfold processFile. rewrite Hf, Hl. cbv zeta.
  destruct (Project.scripts project) as [[|s ss]|]; try done. simpl default.
  by destruct (processScripts dbPool (toKebabCase l) _ (s :: ss)) as [[st2 ss'] m2].
Qed.

Lemma stagedFile_unfold dbPool st (file : string * FileContent) project l :
  isJsonFile file = true → snd file = Some project → usableLabel project = Some l →
  stagedFile dbPool st file
  = let p := processScripts dbPool (toKebabCase l)
               (upsertProject (toKebabCase l) (newProjectEntryOf l project) st)
               (default [] (Project.scripts project)) in
    if p.2 then Some (withScripts project p.1.2) else None.
Proof.
  intros Hj Hf Hl. unfold stagedFile. rewrite Hj, Hf, Hl. cbv zeta.
  by destruct (processScripts dbPool (toKebabCase l) _ _) as [[st2 ss'] m2].
Qed.

Lemma usableLabel_withScripts project ss :
  usableLabel (withScripts project ss) = usableLabel project.
Proof. reflexivity. Qed.


Lemma passKeys_cons file dir :
  passKeys (file :: dir) = passKeys [file] ++ passKeys dir.
Proof. simpl. by rewrite app_nil_r. Qed.


(** ** What the commit leaves in the projects directory *)

Lemma mapSet_fresh {A} (k : string) (v : A) (m : list (string * A)) :
  k ∉ m.*1 → mapSet k v m = m ++ [(k, v)].
Proof.
  induction m as [|[k0 v0] m IH]; [done|]. simpl. intros Hk.
  destruct (String.eqb_spec k0 k) as [->|Hne]; [set_solver|].
  rewrite IH; [done | set_solver].
Qed.

Lemma stepFile_staged dbPool st (file : string * FileContent) :
  projectFilesToUpdate (stepFile dbPool st file)
  = match stagedFile dbPool st file with
    | Some project' => mapSet (fst file) project' (projectFilesToUpdate st)
    | None => projectFilesToUpdate st
    end.
Proof.
  unfold stepFile. destruct (isJsonFile file) eqn:Ej; [|unfold stagedFile; by rewrite Ej].
  destruct (snd file) as [project|] eqn:Ef;
    [|unfold stagedFile, processFile; by rewrite Ej, Ef].
  destruct (usableLabel project) as [l|] eqn:El;
    [|unfold stagedFile, processFile; by rewrite Ej, Ef, El].
  rewrite (processFile_unfold dbPool st file project l Ef El).
  rewrite (stagedFile_unfold dbPool st file project l Ej Ef El). cbv zeta.
  pose proof (processScripts_frame dbPool (toKebabCase l)
    (upsertProject (toKebabCase l) (newProjectEntryOf l project) st)
    (default [] (Project.scripts project))) as [_ Hs].
  destruct (sameOutcome_upsert (toKebabCase l) (newProjectEntryOf l project) st)
    as (_ & _ & _ & Hu).
  case_match; simpl; by rewrite Hs, Hu.
Qed.

Lemma stagedOf_names dbPool dir :
  ∀ st n, n ∈ (stagedOf dbPool st dir).*1 → n ∈ dir.*1.
Proof.
  induction dir as [|file dir IH]; intros st n; [done|]. simpl.
  destruct (stagedFile dbPool st file); simpl; set_solver.
Qed.

Lemma buildFrom_staged dbPool dir :
  ∀ st,
    NoDup dir.*1 →
    (∀ n, n ∈ dir.*1 → n ∉ (projectFilesToUpdate st).*1) →
    projectFilesToUpdate (buildFrom dbPool st dir)
    = projectFilesToUpdate st ++ stagedOf dbPool st dir.
Proof.
  induction dir as [|file dir IH]; intros st Hnd Hfresh.
  { simpl. by rewrite app_nil_r. }
  rewrite buildFrom_cons. simpl in Hnd. apply NoDup_cons in Hnd as [Hn Hnd].
  pose proof (stepFile_staged dbPool st file) as Hs.
  assert (file.1 ∉ (projectFilesToUpdate st).*1) as Hf by (apply Hfresh; set_solver).
  rewrite IH; [|done|].
  - simpl. rewrite Hs. destruct (stagedFile dbPool st file); [|done].
    rewrite mapSet_fresh by done. by rewrite <- app_assoc.
  - intros n Hin. rewrite Hs. destruct (stagedFile dbPool st file).
    + rewrite mapSet_fresh by done. rewrite fmap_app. simpl.
      intros [H|H]%elem_of_app; [by apply (Hfresh n); [set_solver|]|].
      set_solver.
    + apply Hfresh. set_solver.
Qed.

Lemma writeProjectFiles_skip (staged : list (string * Project.t)) :
  ∀ (file : string * FileContent) dir,
    file.1 ∉ staged.*1 →
    writeProjectFiles staged (file :: dir) = file :: writeProjectFiles staged dir.
Proof.
  induction staged as [|[n p] staged IH]; intros [n0 c0] dir Hf; [done|].
  unfold writeProjectFiles in *. simpl in *.
  destruct (String.eqb_spec n0 n) as [->|Hne]; [set_solver|].
  apply IH. set_solver.
Qed.

Lemma fileAfter_unstaged dbPool st file :
  stagedFile dbPool st file = None → fileAfter dbPool st file = snd file.
Proof. unfold fileAfter. by intros ->. Qed.

Lemma writeProjectFiles_trace dbPool dir :
  ∀ st, NoDup dir.*1 →
        writeProjectFiles (stagedOf dbPool st dir) dir = traceAll dbPool st dir.
Proof.
  induction dir as [|[n c] dir IH]; intros st Hnd; [done|].
  simpl in Hnd. apply NoDup_cons in Hnd as [Hn Hnd]. simpl.
  destruct (stagedFile dbPool st (n, c)) as [p'|] eqn:Es.
  - unfold writeProjectFiles. simpl. rewrite String.eqb_refl.
    fold (writeProjectFiles (stagedOf dbPool (stepFile dbPool st (n, c)) dir)
            ((n, Some p') :: dir)).
    rewrite writeProjectFiles_skip.
    + rewrite IH by done. unfold fileAfter. by rewrite Es.
    + simpl. intros H%stagedOf_names. done.
  - rewrite writeProjectFiles_skip.
    + rewrite IH by done. by rewrite fileAfter_unstaged.
    + simpl. intros H%stagedOf_names. done.
Qed.

(** *** Distinct keys leave the disk in agreement

    When no two script records of the pass share a key, the run leaves
    every record filed as it stands. *)

Lemma processScripts_filed dbPool projectId ss :
  ∀ st (index : gmap string ScriptEntry.t),
    NoDup (keysOf ss) →
    (∀ k, k ∈ keysOf ss →
          index !! k = st_scripts (processScripts dbPool projectId st ss).1.1 !! k) →
    forallb (recordFiled index projectId)
      (processScripts dbPool projectId st ss).1.2 = true.
Proof.
  induction ss as [|s ss IH]; intros st index Hnd HT; [done|].
  revert HT. scripts_step. intros HT. rewrite keysOf_cons in Hnd, HT.
  set (p1 := processScript dbPool projectId st s) in *.
  cbn [forallb]. apply andb_true_iff. split.
  - unfold recordFiled. apply bool_decide_eq_true.
    destruct (processScript_keeps dbPool projectId st s) as (_ & Hh & _).
    fold p1 in Hh.
    destruct (decide (ProjectScript.scriptHash s = "")) as [E|E]; [left; congruence|].
    right. rewrite decide_True in Hnd, HT by done.
    assert (keyOf p1.1.2 = keyOf s) as -> by (unfold keyOf; by rewrite Hh).
    rewrite HT by set_solver. apply NoDup_cons in Hnd as [Hn _].
    rewrite processScripts_other by done. by apply processScript_at.
  - apply IH.
    + case_decide; [by apply NoDup_cons in Hnd as [_ ?] | done].
    + intros k Hk. apply HT. set_solver.
Qed.

Lemma stepFile_filed dbPool st (file : string * FileContent)
    (index : gmap string ScriptEntry.t) :
  NoDup (passKeys [file]) →
  (∀ k, k ∈ passKeys [file] →
        index !! k = st_scripts (stepFile dbPool st file) !! k) →
  fileAgrees index (fst file, fileAfter dbPool st file) = true.
Proof.
  unfold fileAgrees, stepFile. cbn [fst snd passKeys]. rewrite app_nil_r.
  assert (isJsonFile (file.1, fileAfter dbPool st file) = isJsonFile file) as ->
    by reflexivity.
  destruct (isJsonFile file) eqn:Ej; [|done].
  unfold fileAfter, processedScripts.
  destruct (snd file) as [project|] eqn:Ef.
  2:{ intros _ _. unfold stagedFile. by rewrite Ej, Ef. }
  destruct (usableLabel project) as [l|] eqn:El.
  2:{ intros _ _. unfold stagedFile. rewrite Ej, Ef, El. by rewrite El. }
  intros Hnd HT.
  rewrite (processFile_unfold dbPool st file project l Ef El) in HT.
  rewrite (stagedFile_unfold dbPool st file project l Ej Ef El).
  cbv zeta in HT |- *.
  set (ss := default [] (Project.scripts project)) in *.
  set (e := newProjectEntryOf l project) in *.
  set (pid := toKebabCase l) in *.
  set (p := processScripts dbPool pid (upsertProject pid e st) ss) in *.
  assert (forallb (recordFiled index pid) p.1.2 = true) as Hp.
  { apply processScripts_filed; [done|]. intros k Hk. rewrite HT by done.
    fold p. by destruct p.2. }
  destruct p.2 eqn:Em.
  - by rewrite usableLabel_withScripts, El.
  - rewrite El. fold ss. by rewrite <- (processScripts_unmodified _ _ _ _ Em).
Qed.

Lemma buildFrom_filed dbPool dir :
  ∀ st (index : gmap string ScriptEntry.t),
    NoDup (passKeys dir) →
    (∀ k, k ∈ passKeys dir →
          index !! k = st_scripts (buildFrom dbPool st dir) !! k) →
    forallb (fileAgrees index) (traceAll dbPool st dir) = true.
Proof.
  induction dir as [|file dir IH]; intros st index Hnd HT; [done|].
  rewrite passKeys_cons in Hnd, HT. apply NoDup_app in Hnd as (Hn1 & Hdisj & Hn2).
  cbn [traceAll forallb]. rewrite buildFrom_cons in HT.
  apply andb_true_iff. split.
  - apply stepFile_filed; [done|]. intros k Hk.
    rewrite HT by set_solver. apply buildFrom_other. by apply Hdisj.
  - apply IH; [done|]. intros k Hk. apply HT. set_solver.
Qed.

(** A committing run over records with distinct keys leaves the index
    and the project files in agreement. *)
Lemma distinct_keys_agree dbPool now disk dir r :
  projectsDir disk = Some dir →
  NoDup dir.*1 →
  NoDup (passKeys dir) →
  generateScriptIndex dbPool now false disk = Completed r →
  agrees (diskAfter r) = true.
Proof.
  intros Hd Hnames Hkeys. unfold generateScriptIndex. rewrite Hd.
  intros [= <-]. cbn [diskAfter finalIndex].
  set (st0 := initialState (loadExisting (indexFile disk))).
  set (st1 := buildFrom dbPool st0 dir).
  assert (projectFilesToUpdate st1 = stagedOf dbPool st0 dir) as Hst.
  { unfold st1. rewrite buildFrom_staged; [done..|]. intros n _. simpl. set_solver. }
  rewrite Hst, writeProjectFiles_trace by done.
  unfold agrees. cbn [projectsDir indexFile loadExisting default scripts finalize].
  unfold id.
  by apply buildFrom_filed.
Qed.

(** *** Only a disk in agreement is left as it is

    A run that adds nothing, updates nothing and stages no rewrite has
    found every record filed as it stands. *)

Lemma fillFrom_modified s srcType srcVersion n l :
  complete s = false → Js.truthy srcType = true → srcVersion ≠ None →
  r_modified (fillFrom s srcType srcVersion n l) = true.
Proof.
  intros Hc Ht Hv. destruct s as [n0 h p ty pv].
  unfold complete, fillFrom in *. simpl in *. rewrite Ht.
  destruct (Js.truthy ty) eqn:E1; simpl in *; [|done].
  destruct pv; simpl in *; repeat case_bool_decide; simplify_eq/=; done.
Qed.

Lemma resolve_unmodified_entry dbPool existing hash projectId (s : ProjectScript.t) :
  r_modified (resolve dbPool existing hash s) = false →
  newEntryOf projectId s (resolve dbPool existing hash s) = entryOf projectId s.
Proof.
  destruct (complete s) eqn:Hs.
  { by rewrite resolve_complete. }
  assert (∀ srcType srcVersion n l,
            Js.truthy srcType = true → srcVersion ≠ None →
            r_modified (fillFrom s srcType srcVersion n l) = false → False) as Hfill.
  { intros ? ? ? ? Ht Hv Hm. by rewrite fillFrom_modified in Hm. }
  assert (r_modified (viaLookup dbPool hash s) = false →
          newEntryOf projectId s (viaLookup dbPool hash s) = entryOf projectId s) as Hv.
  { unfold viaLookup. destruct dbPool as [query|]; [|done].
    destruct (lookupScriptInfo (Some query) hash) as [info|] eqn:E; [|done].
    intros Hm. exfalso.
    eapply (Hfill (Some (info_type info)) (Some (info_plutusVersion info)));
      [by eapply lookupScriptInfo_truthy | done | exact Hm]. }
  unfold resolve. case_match; [|done].
  destruct existing as [e|]; [|exact Hv].
  destruct (hasClassification e) eqn:Eh; [|exact Hv].
  apply hasClassification_inv in Eh as [Ht Hn].
  intros Hm. exfalso. by apply (Hfill _ _ _ _ Ht Hn Hm).
Qed.

Lemma processScript_counters dbPool projectId st (s : ProjectScript.t) :
  (added st <= added (processScript dbPool projectId st s).1.1)%nat ∧
  (updated st <= updated (processScript dbPool projectId st s).1.1)%nat.
Proof.
  unfold processScript. case_match; [simpl; lia|]. simpl.
  unfold classify. repeat case_match; simpl; lia.
Qed.

Lemma processScripts_counters dbPool projectId ss :
  ∀ st, (added st <= added (processScripts dbPool projectId st ss).1.1)%nat ∧
        (updated st <= updated (processScripts dbPool projectId st ss).1.1)%nat.
Proof.
  induction ss as [|s ss IH]; intros st; [simpl; lia|]. scripts_step.
  destruct (IH (processScript dbPool projectId st s).1.1).
  destruct (processScript_counters dbPool projectId st s). lia.
Qed.

Lemma stepFile_counters dbPool st (file : string * FileContent) :
  (added st <= added (stepFile dbPool st file))%nat ∧
  (updated st <= updated (stepFile dbPool st file))%nat.
Proof.
  unfold stepFile. destruct (isJsonFile file); [|lia].
  destruct (snd file) as [project|] eqn:Ef; [|unfold processFile; rewrite Ef; simpl; lia].
  destruct (usableLabel project) as [l|] eqn:El;
    [|unfold processFile; rewrite Ef, El; simpl; lia].
  rewrite (processFile_unfold dbPool st file project l Ef El). cbv zeta.
  destruct (processScripts_counters dbPool (toKebabCase l)
              (default [] (Project.scripts project))
              (upsertProject (toKebabCase l) (newProjectEntryOf l project) st)) as [H1 H2].
  destruct (sameOutcome_upsert (toKebabCase l) (newProjectEntryOf l project) st)
    as (_ & Ha & Hu & _).
  rewrite Ha in H1. rewrite Hu in H2. by case_match.
Qed.

Lemma buildFrom_counters dbPool dir :
  ∀ st, (added st <= added (buildFrom dbPool st dir))%nat ∧
        (updated st <= updated (buildFrom dbPool st dir))%nat.
Proof.
  induction dir as [|file dir IH]; intros st; [rewrite buildFrom_nil; lia|].
  rewrite buildFrom_cons. destruct (IH (stepFile dbPool st file)).
  destruct (stepFile_counters dbPool st file). lia.
Qed.

Lemma processScript_noop dbPool projectId st (s : ProjectScript.t) :
  added (processScript dbPool projectId st s).1.1 = added st →
  updated (processScript dbPool projectId st s).1.1 = updated st →
  (processScript dbPool projectId st s).2 = false →
  st_scripts (processScript dbPool projectId st s).1.1 = st_scripts st ∧
  recordFiled (st_scripts st) projectId s = true.
Proof.
  unfold recordFiled.
  destruct (decide (ProjectScript.scriptHash s = "")) as [E|E].
  { rewrite processScript_skip by done. intros _ _ _.
    split; [done|]. apply bool_decide_eq_true. by left. }
  rewrite processScript_unfold by done. cbn [fst snd].
  intros Ha Hu Hm. rewrite resolve_unmodified_entry in Ha, Hu |- * by done.
  unfold classify in *.
  destruct (st_scripts st !! keyOf s) as [e|] eqn:Ee; [|simpl in Ha; lia].
  destruct (differs e (entryOf projectId s)) eqn:Ed; [simpl in Hu; lia|].
  apply differs_false in Ed as ->. split; [done|].
  apply bool_decide_eq_true. by right.
Qed.

Lemma processScripts_noop dbPool projectId ss :
  ∀ st,
    added (processScripts dbPool projectId st ss).1.1 = added st →
    updated (processScripts dbPool projectId st ss).1.1 = updated st →
    (processScripts dbPool projectId st ss).2 = false →
    st_scripts (processScripts dbPool projectId st ss).1.1 = st_scripts st ∧
    forallb (recordFiled (st_scripts st) projectId) ss = true.
Proof.
  induction ss as [|s ss IH]; intros st; [done|]. scripts_step.
  intros Ha Hu [Hm1 Hm2]%orb_false_iff.
  destruct (processScript_counters dbPool projectId st s) as [C1 C2].
  destruct (processScripts_counters dbPool projectId ss
              (processScript dbPool projectId st s).1.1) as [C3 C4].
  destruct (processScript_noop dbPool projectId st s) as [Hs Hr]; [lia | lia | done |].
  destruct (IH (processScript dbPool projectId st s).1.1) as [Hs' Hr']; [lia | lia | done |].
  rewrite Hs', Hs. split; [done|]. cbn [forallb]. rewrite Hr. by rewrite Hs in Hr'.
Qed.

Lemma stepFile_noop dbPool st (file : string * FileContent) :
  added (stepFile dbPool st file) = added st →
  updated (stepFile dbPool st file) = updated st →
  stagedFile dbPool st file = None →
  st_scripts (stepFile dbPool st file) = st_scripts st ∧
  fileAgrees (st_scripts st) file = true.
Proof.
  unfold stepFile, fileAgrees. destruct (isJsonFile file) eqn:Ej; [|done].
  destruct (snd file) as [project|] eqn:Ef; [|unfold processFile; by rewrite Ef].
  destruct (usableLabel project) as [l|] eqn:El;
    [|unfold processFile; by rewrite Ef, El].
  rewrite (processFile_unfold dbPool st file project l Ef El).
  rewrite (stagedFile_unfold dbPool st file project l Ej Ef El). cbv zeta.
  set (st1 := upsertProject (toKebabCase l) (newProjectEntryOf l project) st).
  destruct (sameOutcome_upsert (toKebabCase l) (newProjectEntryOf l project) st)
    as (Hs & Ha & Hu & _). fold st1 in Hs, Ha, Hu.
  destruct (processScripts dbPool (toKebabCase l) st1
              (default [] (Project.scripts project))).2 eqn:Em; [done|].
  intros Ha' Hu' _.
  destruct (processScripts_noop dbPool (toKebabCase l)
              (default [] (Project.scripts project)) st1) as [H1 H2];
    [congruence | congruence | done |].
  rewrite H1, <- Hs. done.
Qed.

Lemma buildFrom_noop dbPool dir :
  ∀ st,
    added (buildFrom dbPool st dir) = added st →
    updated (buildFrom dbPool st dir) = updated st →
    stagedOf dbPool st dir = [] →
    forallb (fileAgrees (st_scripts st)) dir = true.
Proof.
  induction dir as [|file dir IH]; intros st; [done|].
  rewrite buildFrom_cons. cbn [stagedOf forallb]. intros Ha Hu Hst.
  destruct (stagedFile dbPool st file) eqn:Es; [done|].
  destruct (stepFile_counters dbPool st file) as [C1 C2].
  destruct (buildFrom_counters dbPool dir (stepFile dbPool st file)) as [C3 C4].
  destruct (stepFile_noop dbPool st file) as [Hs Hf]; [lia | lia | done |].
  rewrite Hf. simpl. rewrite <- Hs. apply IH; [lia | lia | done].
Qed.

(** The converse of merge idempotence, for any disk: a run that adds nothing, updates
    nothing and stages no rewrite has found the index file and the
    project files in agreement. *)
Lemma noop_run_agrees dbPool now dryRun disk dir r :
  projectsDir disk = Some dir →
  NoDup dir.*1 →
  generateScriptIndex dbPool now dryRun disk = Completed r →
  sum_added (summary r) = 0%nat →
  sum_updated (summary r) = 0%nat →
  sum_filesUpdated (summary r) = 0%nat →
  agrees disk = true.
Proof.
  intros Hd Hnames. unfold generateScriptIndex. rewrite Hd.
  intros [= <-]. cbn [summary summarize sum_added sum_updated sum_filesUpdated].
  set (st0 := initialState (loadExisting (indexFile disk))).
  intros Ha Hu Hf. unfold agrees. rewrite Hd. cbn [default].
  assert (st_scripts st0
          = match loadExisting (indexFile disk) with
            | Some index => scripts index
            | None => ∅
            end) as <-.
  { unfold st0. by destruct (loadExisting (indexFile disk)). }
  apply (buildFrom_noop dbPool dir st0); [done | done |].
  rewrite buildFrom_staged in Hf.
  - simpl in Hf. by apply length_zero_iff_nil.
  - done.
  - intros n _. simpl. set_solver.
Qed.



(** ** Instances on a sample registry *)

(** The sample directory has distinct file names and distinct keys. *)
Lemma sampleDir_names : NoDup sampleDir.*1.
Proof. compute_done. Defined.

Lemma sampleDir_keys : NoDup (passKeys sampleDir).
Proof. compute_done. Defined.


(** C3 on the sample registry: the stale entry survives the merge. *)
Lemma merge_keeps_prior_entries_witness :
  indexFile sampleDisk = IndexJson sampleIndex ∧
  projectsDir sampleDisk = Some sampleDir ∧
  ("0badc0de" ∉ passKeys sampleDir) ∧
  ∃ r, generateScriptIndex sampleDb "t1" false sampleDisk = Completed r ∧
       scripts (finalIndex r) !! "0badc0de" = Some staleEntry.
Proof.
  assert ("0badc0de" ∉ passKeys sampleDir) as Hk
    by compute_done.
  split; [reflexivity|]. split; [reflexivity|]. split; [exact Hk|].
  destruct (merge_keeps_prior_entries sampleDb "t1" false sampleDisk sampleIndex
              sampleDir "0badc0de" eq_refl eq_refl Hk) as (r & H & He & _).
  exists r. split; [exact H | exact He].
Defined.

(** C5 on the classified script of the sample registry. *)
Lemma resolver_short_circuit_witness :
  ProjectScript.type orderScript = Some "PLUTUS" ∧ "PLUTUS" ≠ "" ∧
  ProjectScript.plutusVersion orderScript = Some 2 ∧
  (processScript sampleDb "sample-dex" (initialState (Some sampleIndex)) orderScript).1.2
  = orderScript ∧
  (processScript sampleDb "sample-dex" (initialState (Some sampleIndex)) orderScript).2
  = false.
Proof.
  assert ("PLUTUS" ≠ "") as Hne by discriminate.
  split; [reflexivity|]. split; [exact Hne|]. split; [reflexivity|].
  destruct (resolver_short_circuit sampleDb "sample-dex" (initialState (Some sampleIndex))
              orderScript "PLUTUS" 2 eq_refl Hne eq_refl) as (_ & _ & H2 & H3).
  split; [exact H2 | exact H3].
Defined.

(** C8 on the sample registry. *)
Lemma counts_consistent_witness :
  ∃ r, generateScriptIndex sampleDb "t1" false sampleDisk = Completed r ∧
       scriptCount (metadata (finalIndex r)) = size (scripts (finalIndex r)) ∧
       projectCount (metadata (finalIndex r)) = size (projects (finalIndex r)).
Proof.
  eexists. split; [reflexivity|].
  destruct (counts_consistent sampleDb "t1" false sampleDisk _ eq_refl) as (H1 & H2 & _).
  split; [exact H1 | exact H2].
Defined.

(** C10 on the script of the sample registry that states version 0 and
    no type: the entry keeps version 0. *)
Lemma resolution_keeps_authored_witness :
  ProjectScript.scriptHash mintScript ≠ "" ∧
  ∃ e, st_scripts (processScript sampleDb "sample-nft"
                     (initialState (Some sampleIndex)) mintScript).1.1
         !! keyOf mintScript = Some e ∧
       ScriptEntry.plutusVersion e = Some 0.
Proof.
  assert (ProjectScript.scriptHash mintScript ≠ "") as Hne by discriminate.
  split; [exact Hne|].
  destruct (resolution_keeps_authored sampleDb "sample-nft"
              (initialState (Some sampleIndex)) mintScript Hne)
    as (e & He & _ & Hev & _ & Hv & _).
  exists e. split; [exact He|]. rewrite Hev. exact (Hv 0 eq_refl).
Defined.

(** ** Examples *)

(** A project labelled Constructor is created without a "+ Project"
    line. *)
Example constructor_project_is_silent :
  ∃ r, generateScriptIndex None "t1" false constructorDisk = Completed r ∧
       toKebabCase "Constructor" = "constructor" ∧
       is_Some (projects (finalIndex r) !! "constructor") ∧
       log (finalState r) = [] ∧
       sum_totalProjects (summary r) = 1%nat.
Proof.
  eexists. split_and!; [reflexivity | reflexivity | | reflexivity | reflexivity].
  vm_compute. eauto.
Qed.

Example toKebabCase_spaces : toKebabCase "Genius Yield" = "genius-yield".
Proof. reflexivity. Qed.

Example toKebabCase_camel : toKebabCase "SundaeSwap" = "sundae-swap".
Proof. reflexivity. Qed.

Example toKebabCase_strip : toKebabCase "jpg.store" = "jpgstore".
Proof. reflexivity. Qed.

Example toKebabCase_runs :
  toKebabCase "Project NEWM's  _Marketplace" = "project-newms-marketplace".
Proof. reflexivity. Qed.

Example matchPlutusV_plain : Regex.matchPlutusV "PlutusV2" = Some "2"%char.
Proof. reflexivity. Qed.

Example matchPlutusV_unanchored : Regex.matchPlutusV "xplutusv12" = Some "1"%char.
Proof. reflexivity. Qed.

Example matchPlutusV_leftmost :
  Regex.matchPlutusV "PlutusVx PlutusV3" = Some "3"%char.
Proof. reflexivity. Qed.

Example lookup_timelock :
  lookupScriptInfo (Some (fun _ => QueryResult (Some [{| row_type := Some "timelock" |}]))) "aa"
  = Some {| info_type := "NATIVE"; info_plutusVersion := 0 |}.
Proof. reflexivity. Qed.

Example lookup_null_type :
  lookupScriptInfo (Some (fun _ => QueryResult (Some [{| row_type := None |}]))) "aa" = None.
Proof. reflexivity. Qed.

(** Scenario: empty index, one script without [type], no lookup source. *)
Example scenario_added_unclassified :
  ∃ r, generateScriptIndex None "now" false scenarioDisk1 = Completed r ∧
       sum_added (summary r) = 1%nat ∧
       scriptCount (metadata (finalIndex r)) = 1%nat ∧
       scripts (finalIndex r) !! Js.toLowerCase scenarioHash1
       = Some (ScriptEntry.mk "one" "Spend" (Some "SPEND") None None).
Proof. eexists. split_and!; [reflexivity | by vm_compute..]. Qed.

(** Scenario: the index already classifies the hash; the record gets the
    classification, the diff is "unchanged" and the project file is
    rewritten with the filled fields. *)
Example scenario_filled_from_index :
  ∃ r, generateScriptIndex None "now" false scenarioDisk2 = Completed r ∧
       (sum_added (summary r), sum_updated (summary r), sum_unchanged (summary r))
       = (0%nat, 0%nat, 1%nat) ∧
       sum_filesUpdated (summary r) = 1%nat ∧
       projectsDir (diskAfter r)
       = Some [("two.json",
                Some (withScripts scenarioProject2
                        [ProjectScript.mk "Spend" scenarioHash2 (Some "SPEND")
                           (Some "PLUTUS") (Some 1)]))].
Proof. eexists. split_and!; [reflexivity | by vm_compute..]. Qed.

(** A dry run on a registry with changes to make: the summary announces
    them, the disk stays as it was, and the committing run differs from
    it by what it wrote. *)
Example dry_run_on_sample :
  ∃ dry wet,
    generateScriptIndex sampleDb "now" true sampleDisk = Completed dry ∧
    generateScriptIndex sampleDb "now" false sampleDisk = Completed wet ∧
    diskAfter dry = sampleDisk ∧
    summary dry = summary wet ∧
    sum_added (summary dry) = 3%nat ∧
    sum_filesUpdated (summary dry) = 1%nat ∧
    indexFile (diskAfter wet) = IndexJson (finalIndex wet) ∧
    scriptCount (metadata (finalIndex wet)) = 4%nat.
Proof.
  eexists. eexists. split_and!; [reflexivity | reflexivity | reflexivity | by vm_compute..].
Qed.

(** * Further properties of the builder *)

(** ** Project identifiers *)

Lemma toLowerCaseChar_slug (c : ascii) :
  Kebab.isSlugChar c = true → isIdChar (Js.toLowerCaseChar c) = true.
Proof. destruct c as [[] [] [] [] [] [] [] []]; vm_compute; congruence. Qed.

Lemma isIdChar_fixed (c : ascii) :
  isIdChar c = true →
  Js.toLowerCaseChar c = c ∧ Kebab.isSlugChar c = true ∧
  Kebab.isSeparator c = false ∧ Js.isUpper c = false.
Proof. destruct c as [[] [] [] [] [] [] [] []]; vm_compute; intros; split_and!; congruence. Qed.

Lemma strip_lower_slug (s : string) :
  isSlug (Js.toLowerCase (Kebab.strip s)) = true.
Proof.
  induction s as [|c s IH]; [done|]. simpl.
  destruct (Kebab.isSlugChar c) eqn:E; [|done]. simpl.
  by rewrite toLowerCaseChar_slug, IH.
Qed.

(** The identifier of a project is made of a-z, 0-9 and dashes only,
    whatever the label. *)
Theorem toKebabCase_slug (label : string) : isSlug (toKebabCase label) = true.
Proof. apply strip_lower_slug. Qed.

Lemma splitCamel_slug (s : string) : isSlug s = true → Kebab.splitCamel s = s.
Proof.
  induction s as [|a r IH]; [done|]. simpl.
  intros [Ha Hr]%andb_true_iff. specialize (IH Hr).
  destruct r as [|b r']; [done|].
  apply andb_true_iff in Hr as [Hb _].
  apply isIdChar_fixed in Hb as (_ & _ & _ & ->).
  rewrite andb_false_r. by rewrite IH.
Qed.

Lemma collapse_slug (s : string) : isSlug s = true → Kebab.collapse false s = s.
Proof.
  induction s as [|c r IH]; [done|]. simpl.
  intros [Hc Hr]%andb_true_iff.
  apply isIdChar_fixed in Hc as (_ & _ & -> & _). by rewrite IH.
Qed.

Lemma strip_slug (s : string) : isSlug s = true → Kebab.strip s = s.
Proof.
  induction s as [|c r IH]; [done|]. simpl.
  intros [Hc Hr]%andb_true_iff.
  apply isIdChar_fixed in Hc as (_ & -> & _ & _). by rewrite IH.
Qed.

Lemma toLowerCase_slug (s : string) : isSlug s = true → Js.toLowerCase s = s.
Proof.
  induction s as [|c r IH]; [done|]. simpl.
  intros [Hc Hr]%andb_true_iff.
  apply isIdChar_fixed in Hc as (-> & _ & _ & _). by rewrite IH.
Qed.

(** The labels that are their own identifier are exactly the strings of
    a-z, 0-9 and dashes; so deriving the identifier of an identifier
    changes nothing. *)
Theorem toKebabCase_fixed_points (label : string) :
  (toKebabCase label = label ↔ isSlug label = true) ∧
  toKebabCase (toKebabCase label) = toKebabCase label.
Proof.
  assert (∀ s, isSlug s = true → toKebabCase s = s) as Hfix.
  { intros s Hs. unfold toKebabCase.
    by rewrite splitCamel_slug, collapse_slug, strip_slug, toLowerCase_slug. }
  split; [split|].
  - intros <-. apply strip_lower_slug.
  - apply Hfix.
  - apply Hfix, strip_lower_slug.
Qed.

(** ** What the summary adds up to *)

Lemma accounted_refl dbPool st : accounted dbPool st st 0 0.
Proof. unfold accounted. split_and!; try done; lia. Qed.

Lemma accounted_trans dbPool st1 st2 st3 n1 c1 n2 c2 :
  accounted dbPool st1 st2 n1 c1 → accounted dbPool st2 st3 n2 c2 →
  accounted dbPool st1 st3 (n1 + n2) (c1 + c2).
Proof.
  unfold accounted. intros (A1 & A2 & A3 & A4 & A5) (B1 & B2 & B3 & B4 & B5).
  split_and!; try lia. intros H. rewrite B5, A5; done.
Qed.

Lemma projectsAddedTotal_app l1 l2 :
  projectsAddedTotal (l1 ++ l2)
  = (projectsAddedTotal l1 + projectsAddedTotal l2)%nat.
Proof. unfold projectsAddedTotal. by rewrite List.filter_app, length_app. Qed.

Lemma resolve_log_total dbPool existing hash s :
  projectsAddedTotal (r_log (resolve dbPool existing hash s)) = 0%nat.
Proof.
  unfold resolve, viaLookup, fillFrom, unresolved. by repeat case_match.
Qed.

Lemma resolve_lookups dbPool existing hash s :
  (r_lookups (resolve dbPool existing hash s)
   <= if complete s then 0 else 1)%nat ∧
  (dbPool = None → r_lookups (resolve dbPool existing hash s) = 0%nat).
Proof.
  destruct (complete s) eqn:Hc.
  - rewrite resolve_complete by done. simpl. split; [lia | done].
  - unfold resolve, viaLookup, fillFrom, unresolved.
    repeat case_match; simpl; split; intros; simplify_eq; lia.
Qed.

Lemma classify_accounted dbPool hash newEntry st :
  accounted dbPool st (classify (st_scripts st !! hash) hash newEntry st) 1 0.
Proof.
  unfold accounted, classify.
  destruct (st_scripts st !! hash) as [e|] eqn:E.
  - destruct (differs e newEntry); simpl; split_and!; try done; try lia.
    + rewrite map_size_insert_Some by eauto. lia.
    + rewrite projectsAddedTotal_app. unfold projectsAddedTotal. simpl. lia.
  - simpl. split_and!; try done; try lia.
    + rewrite map_size_insert_None by done. lia.
    + rewrite projectsAddedTotal_app. unfold projectsAddedTotal. simpl. lia.
Qed.

Lemma processScript_accounted dbPool projectId st (s : ProjectScript.t) :
  accounted dbPool st (processScript dbPool projectId st s).1.1
    (length (keysOf [s])) (length (incompleteOf [s])).
Proof.
  destruct (decide (ProjectScript.scriptHash s = "")) as [E|E].
  { rewrite processScript_skip by done. unfold keysOf, incompleteOf.
    rewrite !filter_cons, !filter_nil, !decide_False by naive_solver.
    apply accounted_refl. }
  rewrite processScript_unfold by done. cbn [fst].
  set (r := resolve dbPool (st_scripts st !! keyOf s) (keyOf s) s).
  pose proof (classify_accounted dbPool (keyOf s) (newEntryOf projectId s r)
                (afterResolution st r)) as (A1 & A2 & A3 & A4 & A5).
  cbn [afterResolution st_scripts st_projects added updated unchanged lookupCount log]
    in A1, A2, A3, A4, A5.
  destruct (resolve_lookups dbPool (st_scripts st !! keyOf s) (keyOf s) s) as [L1 L2].
  fold r in L1, L2.
  assert (length (keysOf [s]) = 1%nat) as ->.
  { unfold keysOf. by rewrite filter_cons, filter_nil, decide_True. }
  assert ((if complete s then 0 else 1)%nat = length (incompleteOf [s])) as Hc.
  { unfold incompleteOf. rewrite filter_cons, filter_nil.
    destruct (complete s); case_decide; simpl; naive_solver. }
  rewrite Hc in L1.
  unfold accounted.
  rewrite projectsAddedTotal_app in A3.
  unfold r in A3. rewrite resolve_log_total in A3. fold r in A3.
  split_and!; try lia.
  intros H. specialize (L2 H). specialize (A5 H). lia.
Qed.

Lemma keysOf_app ss1 ss2 : keysOf (ss1 ++ ss2) = keysOf ss1 ++ keysOf ss2.
Proof. unfold keysOf. by rewrite filter_app, fmap_app. Qed.

Lemma incompleteOf_app ss1 ss2 :
  incompleteOf (ss1 ++ ss2) = incompleteOf ss1 ++ incompleteOf ss2.
Proof. unfold incompleteOf. by rewrite filter_app. Qed.

Lemma processScripts_accounted dbPool projectId st ss :
  accounted dbPool st (processScripts dbPool projectId st ss).1.1
    (length (keysOf ss)) (length (incompleteOf ss)).
Proof.
  revert st. induction ss as [|s ss IH]; intros st; [apply accounted_refl|].
  scripts_step.
  change (s :: ss) with ([s] ++ ss).
  rewrite keysOf_app, incompleteOf_app, !length_app.
  eapply accounted_trans; [apply processScript_accounted | apply IH].
Qed.

Lemma inherited_slug (k : string) :
  isSlug k = true → Js.inherited k = true → k = "constructor".
Proof.
  intros Hs Hi. unfold Js.inherited in Hi.
  apply existsb_exists in Hi as (n & Hn & ->%String.eqb_eq).
  simpl in Hn. repeat (destruct Hn as [<- | Hn]; [by vm_compute in Hs|]). done.
Qed.

Lemma constructorEntry_insert (m : gmap string ProjectEntry.t) k e :
  constructorEntry (<[k := e]> m)
  = if decide (k = "constructor") then 1%nat else constructorEntry m.
Proof.
  unfold constructorEntry. destruct (decide (k = "constructor")) as [->|Hne].
  - rewrite lookup_insert_eq. by rewrite decide_True by eauto.
  - by rewrite lookup_insert_ne.
Qed.

Lemma upsertProject_accounted dbPool projectId e st :
  isSlug projectId = true →
  accounted dbPool st (upsertProject projectId e st) 0 0.
Proof.
  intros Hs. unfold accounted, upsertProject.
  destruct (st_projects st !! projectId) eqn:E; simpl; split_and!; try done; try lia.
  - rewrite map_size_insert_Some by eauto. rewrite constructorEntry_insert.
    case_decide as Hc; [|lia]. subst projectId.
    unfold constructorEntry. rewrite decide_True by eauto. lia.
  - rewrite map_size_insert_None by done. rewrite constructorEntry_insert.
    destruct (Js.inherited projectId) eqn:Ei.
    + rewrite (inherited_slug _ Hs Ei) in *. rewrite decide_True by done.
      unfold constructorEntry. rewrite decide_False; [lia|]. rewrite E. by intros [? ?].
    + rewrite decide_False by (intros ->; by vm_compute in Ei).
      rewrite projectsAddedTotal_app. unfold projectsAddedTotal. simpl. lia.
Qed.

Lemma stepFile_accounted dbPool st (file : string * FileContent) :
  accounted dbPool st (stepFile dbPool st file)
    (length (passKeys [file])) (passCandidates [file]).
Proof.
  unfold stepFile. cbn [passKeys passCandidates]. rewrite app_nil_r, Nat.add_0_r.
  destruct (isJsonFile file); [|apply accounted_refl].
  unfold processedScripts.
  destruct (snd file) as [project|] eqn:Ef.
  2:{ unfold processFile. rewrite Ef. unfold accounted. simpl.
      rewrite projectsAddedTotal_app. unfold projectsAddedTotal. simpl.
      split_and!; try done; lia. }
  destruct (usableLabel project) as [l|] eqn:El.
  2:{ unfold processFile. rewrite Ef, El. unfold accounted. simpl.
      rewrite projectsAddedTotal_app. unfold projectsAddedTotal. simpl.
      split_and!; try done; lia. }
  rewrite (processFile_unfold dbPool st file project l Ef El). cbv zeta.
  set (st1 := upsertProject (toKebabCase l) (newProjectEntryOf l project) st).
  set (ss := default [] (Project.scripts project)).
  pose proof (accounted_trans _ _ _ _ _ _ _ _
                (upsertProject_accounted dbPool (toKebabCase l)
                   (newProjectEntryOf l project) st (strip_lower_slug _))
                (processScripts_accounted dbPool (toKebabCase l) st1 ss)) as H.
  fold st1 in H. simpl in H.
  by destruct (processScripts dbPool (toKebabCase l) st1 ss).2.
Qed.

Lemma passCandidates_cons file dir :
  passCandidates (file :: dir) = (passCandidates [file] + passCandidates dir)%nat.
Proof. simpl. lia. Qed.

Lemma buildFrom_accounted dbPool st dir :
  accounted dbPool st (buildFrom dbPool st dir)
    (length (passKeys dir)) (passCandidates dir).
Proof.
  revert st. induction dir as [|file dir IH]; intros st; [apply accounted_refl|].
  rewrite buildFrom_cons, passKeys_cons, passCandidates_cons, length_app.
  eapply accounted_trans; [apply stepFile_accounted | apply IH].
Qed.

Lemma run_accounted dbPool now dryRun disk dir r :
  projectsDir disk = Some dir →
  generateScriptIndex dbPool now dryRun disk = Completed r →
  finalState r = buildFrom dbPool (initialState (loadExisting (indexFile disk))) dir ∧
  summary r = summarize (finalState r) (finalIndex r) ∧
  finalIndex r = finalize now (finalState r) ∧
  accounted dbPool (initialState (loadExisting (indexFile disk))) (finalState r)
    (length (passKeys dir)) (passCandidates dir).
Proof.
  intros Hd. unfold generateScriptIndex. rewrite Hd. intros [= <-]. simpl.
  split_and!; try done. apply buildFrom_accounted.
Qed.

(** The three counters of the summary add up to the number of script
    records the pass files: those with a hash, in readable [.json] files
    whose project has a label. *)
Theorem summary_counts_every_record dbPool now dryRun disk dir r :
  projectsDir disk = Some dir →
  generateScriptIndex dbPool now dryRun disk = Completed r →
  (sum_added (summary r) + sum_updated (summary r) + sum_unchanged (summary r)
   = length (passKeys dir))%nat.
Proof.
  intros Hd Hr.
  destruct (run_accounted _ _ _ _ _ _ Hd Hr) as (_ & -> & _ & (A1 & _)).
  simpl in *. lia.
Qed.

Lemma summary_counts_every_record_witness :
  ∃ r, generateScriptIndex sampleDb "t1" false sampleDisk = Completed r ∧
       (sum_added (summary r) + sum_updated (summary r) + sum_unchanged (summary r)
        = 3)%nat.
Proof.
  eexists. split; [reflexivity|].
  exact (summary_counts_every_record sampleDb "t1" false sampleDisk sampleDir _
           eq_refl eq_refl).
Defined.

Lemma lastUpsert_projectIds projectId dir :
  is_Some (lastUpsert projectId dir) ↔ projectId ∈ projectIds dir.
Proof.
  unfold projectIds. induction dir as [|file dir IH].
  { simpl. split; [by intros [? ?] | by intros ?%elem_of_nil]. }
  simpl. destruct (projectOf file) as [[pid e]|] eqn:Ep; simpl.
  - rewrite elem_of_cons, <- IH.
    destruct (lastUpsert projectId dir) as [e0|]; [split; eauto|].
    destruct (String.eqb_spec pid projectId) as [->|Hne].
    + split; eauto.
    + split; [by intros [? ?] | intros [? | [? ?]]; congruence].
  - rewrite <- IH. by destruct (lastUpsert projectId dir).
Qed.

(** The index grows by what the summary says was added: the final number
    of scripts is the prior number plus the added-count.  The final
    number of projects is the prior number plus the number of
    "+ Project" lines logged, and one more when a label of the pass gives
    the identifier [constructor] and the prior map has no such project:
    that project is created without a line. *)
Theorem totals_grow_by_added dbPool now dryRun disk dir r :
  projectsDir disk = Some dir →
  generateScriptIndex dbPool now dryRun disk = Completed r →
  sum_totalScripts (summary r)
  = (size (priorScripts disk) + sum_added (summary r))%nat ∧
  sum_totalProjects (summary r)
  = (size (priorProjects disk) + projectsAddedTotal (log (finalState r))
     + silentProjects (priorProjects disk) dir)%nat.
Proof.
  intros Hd Hr.
  destruct (run_accounted _ _ _ _ _ _ Hd Hr) as (Hf & -> & -> & (_ & A2 & A3 & _)).
  assert (st_scripts (initialState (loadExisting (indexFile disk))) = priorScripts disk)
    as Hs by (unfold priorScripts; by destruct (loadExisting (indexFile disk))).
  assert (st_projects (initialState (loadExisting (indexFile disk))) = priorProjects disk)
    as Hp by (unfold priorProjects; by destruct (loadExisting (indexFile disk))).
  rewrite Hs in A2. rewrite Hp in A3.
  assert (added (initialState (loadExisting (indexFile disk))) = 0%nat) as Ha by done.
  assert (log (initialState (loadExisting (indexFile disk))) = []) as Hl by done.
  rewrite Ha in A2. rewrite Hl in A3.
  assert (constructorEntry (st_projects (finalState r))
          = (constructorEntry (priorProjects disk)
             + silentProjects (priorProjects disk) dir)%nat) as Hc.
  { destruct (buildFrom_projects dbPool (initialState (loadExisting (indexFile disk)))
                dir "constructor") as [H1 _].
    rewrite <- Hf, Hp in H1.
    unfold constructorEntry, silentProjects. rewrite H1.
    pose proof (lastUpsert_projectIds "constructor" dir) as Hl'.
    destruct (lastUpsert "constructor" dir) as [e|].
    - assert ("constructor" ∈ projectIds dir) as Hin by (apply Hl'; eauto).
      rewrite (decide_True (P := is_Some (Some e))) by eauto.
      destruct (priorProjects disk !! "constructor") as [e0|] eqn:E.
      + rewrite decide_True by eauto. rewrite decide_False by (by intros [? _]). lia.
      + rewrite decide_False by (by intros [? ?]). rewrite decide_True by done. lia.
    - assert ("constructor" ∉ projectIds dir) as Hin
        by (intros H; apply Hl' in H as [? ?]; done).
      rewrite (decide_False (P := _ ∧ _)) by (by intros [_ ?]). lia. }
  simpl in *. unfold projectsAddedTotal in *. simpl in *. lia.
Qed.

Lemma totals_grow_by_added_witness :
  ∃ r, generateScriptIndex sampleDb "t1" false sampleDisk = Completed r ∧
       sum_totalScripts (summary r) = (1 + sum_added (summary r))%nat ∧
       sum_totalProjects (summary r)
       = (0 + projectsAddedTotal (log (finalState r)) + 0)%nat.
Proof.
  eexists. split; [reflexivity|].
  exact (totals_grow_by_added sampleDb "t1" false sampleDisk sampleDir _
           eq_refl eq_refl).
Defined.

(** The lookup count never exceeds the number of filed records that lack
    a classification, and it is zero when no pool is configured. *)
Theorem lookups_bounded dbPool now dryRun disk dir r :
  projectsDir disk = Some dir →
  generateScriptIndex dbPool now dryRun disk = Completed r →
  (sum_lookups (summary r) <= passCandidates dir)%nat ∧
  (dbPool = None → sum_lookups (summary r) = 0%nat).
Proof.
  intros Hd Hr.
  destruct (run_accounted _ _ _ _ _ _ Hd Hr) as (_ & -> & _ & (_ & _ & _ & A4 & A5)).
  simpl in *. split; [lia|]. intros H. by rewrite A5.
Qed.

Lemma lookups_bounded_witness :
  ∃ r, generateScriptIndex sampleDb "t1" false sampleDisk = Completed r ∧
       (sum_lookups (summary r) <= 2)%nat.
Proof.
  eexists. split; [reflexivity|].
  exact (proj1 (lookups_bounded sampleDb "t1" false sampleDisk sampleDir _
                  eq_refl eq_refl)).
Defined.

(** ** The keys of the final index *)

Lemma processScripts_present dbPool projectId st ss k :
  k ∈ keysOf ss →
  is_Some (st_scripts (processScripts dbPool projectId st ss).1.1 !! k).
Proof.
  revert st. induction ss as [|s ss IH]; intros st Hk; [by apply elem_of_nil in Hk|].
  scripts_step. rewrite keysOf_cons in Hk. apply elem_of_app in Hk as [Hk|Hk].
  - apply processScripts_mono. case_decide as E; [|by apply elem_of_nil in Hk].
    apply list_elem_of_singleton in Hk as ->. rewrite processScript_at by done. eauto.
  - by apply IH.
Qed.

Lemma stepFile_present dbPool st file k :
  k ∈ passKeys [file] → is_Some (st_scripts (stepFile dbPool st file) !! k).
Proof.
  unfold stepFile. simpl. rewrite app_nil_r.
  destruct (isJsonFile file); [|by intros ?%elem_of_nil].
  destruct (processFile_cases dbPool st file) as [[-> _] | (project & l & _ & _ & ->)];
    [by intros ?%elem_of_nil|].
  apply processScripts_present.
Qed.

Lemma buildFrom_present dbPool st dir k :
  k ∈ passKeys dir → is_Some (st_scripts (buildFrom dbPool st dir) !! k).
Proof.
  revert st. induction dir as [|file dir IH]; intros st Hk; [by apply elem_of_nil in Hk|].
  rewrite buildFrom_cons. rewrite passKeys_cons in Hk.
  apply elem_of_app in Hk as [Hk|Hk]; [|by apply IH].
  by apply buildFrom_mono, stepFile_present.
Qed.

(** The final index holds exactly the keys it started with and the keys
    of the pass, in the scripts map and in the projects map: nothing is
    dropped and nothing else is created. *)
Theorem final_keys dbPool now dryRun disk dir r :
  projectsDir disk = Some dir →
  generateScriptIndex dbPool now dryRun disk = Completed r →
  dom (scripts (finalIndex r))
  = dom (priorScripts disk) ∪ list_to_set (passKeys dir) ∧
  dom (projects (finalIndex r))
  = dom (priorProjects disk) ∪ list_to_set (projectIds dir).
Proof.
  intros Hd. unfold generateScriptIndex. rewrite Hd. intros [= <-]. simpl.
  set (st0 := initialState (loadExisting (indexFile disk))).
  assert (st_scripts st0 = priorScripts disk) as Hs
    by (unfold st0, priorScripts; by destruct (loadExisting (indexFile disk))).
  assert (st_projects st0 = priorProjects disk) as Hp
    by (unfold st0, priorProjects; by destruct (loadExisting (indexFile disk))).
  split; apply set_eq; intros k; rewrite elem_of_union, !elem_of_dom, elem_of_list_to_set.
  - rewrite <- Hs. split.
    + intros Hk. destruct (decide (k ∈ passKeys dir)) as [?|Hn]; [by right|].
      left. by rewrite buildFrom_other in Hk.
    + intros [Hk|Hk]; [by apply buildFrom_mono | by apply buildFrom_present].
  - rewrite <- Hp, <- lastUpsert_projectIds.
    destruct (buildFrom_projects dbPool st0 dir k) as [-> _].
    destruct (lastUpsert k dir); split; eauto.
    + intros [H|[? H]]; [done | discriminate H].
Qed.

Lemma final_keys_witness :
  ∃ r, generateScriptIndex sampleDb "t1" false sampleDisk = Completed r ∧
       dom (scripts (finalIndex r))
       = dom (priorScripts sampleDisk) ∪ list_to_set (passKeys sampleDir).
Proof.
  eexists. split; [reflexivity|].
  exact (proj1 (final_keys sampleDb "t1" false sampleDisk sampleDir _ eq_refl eq_refl)).
Defined.

(** ** Script entries and their projects *)

Lemma projectsKnown_nil st : projectsKnown st [].
Proof. by intros k ?%elem_of_nil. Qed.

Lemma processScript_known dbPool projectId st (s : ProjectScript.t) keys :
  projectsKnown st keys → is_Some (st_projects st !! projectId) →
  projectsKnown (processScript dbPool projectId st s).1.1 (keysOf [s] ++ keys).
Proof.
  intros Hinv Hp k Hk.
  destruct (processScript_frame dbPool projectId st s) as [Hfr _]. rewrite Hfr.
  destruct (decide (ProjectScript.scriptHash s = "")) as [E|E].
  - rewrite processScript_skip by done. apply Hinv.
    unfold keysOf in Hk. rewrite filter_cons, filter_nil, decide_False in Hk by naive_solver.
    done.
  - destruct (decide (k = keyOf s)) as [->|Hne].
    + rewrite processScript_at by done. eauto.
    + rewrite processScript_other by done. apply Hinv.
      rewrite keysOf_cons in Hk. case_decide; set_solver.
Qed.

Lemma processScripts_known dbPool projectId ss :
  ∀ st keys,
    projectsKnown st keys → is_Some (st_projects st !! projectId) →
    projectsKnown (processScripts dbPool projectId st ss).1.1 (keysOf ss ++ keys).
Proof.
  induction ss as [|s ss IH]; intros st keys Hinv Hp; [done|].
  scripts_step.
  assert (projectsKnown (processScripts dbPool projectId
                           (processScript dbPool projectId st s).1.1 ss).1.1
            (keysOf ss ++ (keysOf [s] ++ keys))) as H.
  { apply IH; [by apply processScript_known|].
    destruct (processScript_frame dbPool projectId st s) as [-> _]. done. }
  intros k Hk. apply H. change (s :: ss) with ([s] ++ ss) in Hk.
  rewrite keysOf_app in Hk. set_solver.
Qed.

Lemma projectsKnown_ext st st' keys :
  st_scripts st' = st_scripts st →
  (∀ pid, is_Some (st_projects st !! pid) → is_Some (st_projects st' !! pid)) →
  projectsKnown st keys → projectsKnown st' keys.
Proof.
  intros Hs Hp Hinv k Hk. destruct (Hinv k Hk) as (e & He & Hpe).
  exists e. rewrite Hs. split; [done | by apply Hp].
Qed.

Lemma stepFile_known dbPool st (file : string * FileContent) keys :
  projectsKnown st keys →
  projectsKnown (stepFile dbPool st file) (passKeys [file] ++ keys).
Proof.
  intros Hinv. unfold stepFile. cbn [passKeys]. rewrite app_nil_r.
  destruct (isJsonFile file); [|done].
  unfold processedScripts.
  destruct (snd file) as [project|] eqn:Ef.
  2:{ unfold processFile. rewrite Ef. by eapply projectsKnown_ext. }
  destruct (usableLabel project) as [l|] eqn:El.
  2:{ unfold processFile. rewrite Ef, El. by eapply projectsKnown_ext. }
  rewrite (processFile_unfold dbPool st file project l Ef El). cbv zeta.
  set (st1 := upsertProject (toKebabCase l) (newProjectEntryOf l project) st).
  assert (projectsKnown st1 keys) as H1.
  { eapply projectsKnown_ext; [apply upsertProject_scripts| |done].
    intros pid Hpid. unfold st1. rewrite upsertProject_projects.
    destruct (decide (toKebabCase l = pid)) as [->|Hne];
      [rewrite lookup_insert_eq; eauto | by rewrite lookup_insert_ne]. }
  assert (is_Some (st_projects st1 !! toKebabCase l)) as H2.
  { unfold st1. rewrite upsertProject_projects, lookup_insert_eq. eauto. }
  pose proof (processScripts_known dbPool (toKebabCase l)
                (default [] (Project.scripts project)) st1 keys H1 H2) as H.
  destruct (processScripts dbPool (toKebabCase l) st1 _).2; [|done].
  by eapply projectsKnown_ext.
Qed.

Lemma buildFrom_known dbPool dir :
  ∀ st keys,
    projectsKnown st keys →
    projectsKnown (buildFrom dbPool st dir) (passKeys dir ++ keys).
Proof.
  induction dir as [|file dir IH]; intros st keys Hinv; [done|].
  rewrite buildFrom_cons.
  pose proof (IH _ _ (stepFile_known dbPool st file keys Hinv)) as H.
  intros k Hk. apply H. rewrite passKeys_cons in Hk. set_solver.
Qed.

(** Every script record of the pass is in the final index, and the
    project its entry names is in the final projects map. *)
Theorem filed_scripts_name_known_projects dbPool now dryRun disk dir r k :
  projectsDir disk = Some dir →
  generateScriptIndex dbPool now dryRun disk = Completed r →
  k ∈ passKeys dir →
  ∃ e, scripts (finalIndex r) !! k = Some e ∧
       is_Some (projects (finalIndex r) !! ScriptEntry.projectId e).
Proof.
  intros Hd. unfold generateScriptIndex. rewrite Hd. intros [= <-] Hk. simpl.
  apply (buildFrom_known dbPool dir _ [] (projectsKnown_nil _)).
  by rewrite app_nil_r.
Qed.

Lemma filed_scripts_name_known_projects_witness :
  "aabbcc" ∈ passKeys sampleDir ∧
  ∃ r e, generateScriptIndex sampleDb "t1" false sampleDisk = Completed r ∧
         scripts (finalIndex r) !! "aabbcc" = Some e ∧
         is_Some (projects (finalIndex r) !! ScriptEntry.projectId e).
Proof.
  assert ("aabbcc" ∈ passKeys sampleDir) as Hk by compute_done.
  split; [exact Hk|].
  destruct (filed_scripts_name_known_projects sampleDb "t1" false sampleDisk sampleDir _
              "aabbcc" eq_refl eq_refl Hk) as (e & He & Hp).
  eexists. exists e. split; [reflexivity|]. split; [exact He | exact Hp].
Defined.

(** ** What the commit does to the project files *)

Lemma scriptFilled_refl s : scriptFilled s s.
Proof. unfold scriptFilled. split_and!; auto. Qed.

Lemma processScript_filled dbPool projectId st (s : ProjectScript.t) :
  scriptFilled s (processScript dbPool projectId st s).1.2.
Proof.
  destruct (decide (ProjectScript.scriptHash s = "")) as [E|E].
  { rewrite processScript_skip by done. apply scriptFilled_refl. }
  rewrite processScript_unfold by done. cbn [fst snd].
  pose proof (resolve_keeps dbPool (st_scripts st !! keyOf s) (keyOf s) s)
    as (H1 & H2 & H3 & H4 & H5).
  unfold scriptFilled. split_and!; try done.
  - intros Ht. by apply H4.
  - intros v Hv. by apply H5.
  - destruct (resolve_cases dbPool (st_scripts st !! keyOf s) (keyOf s) s)
      as [Hc | (_ & -> & _)]; auto.
Qed.

Lemma processScripts_filled dbPool projectId st ss :
  Forall2 scriptFilled ss (processScripts dbPool projectId st ss).1.2.
Proof.
  revert st. induction ss as [|s ss IH]; intros st; [constructor|].
  scripts_step. constructor; [apply processScript_filled | apply IH].
Qed.

Lemma projectFilled_refl p : projectFilled p p.
Proof.
  unfold projectFilled. split_and!; try done.
  destruct (Project.scripts p) as [ss|]; [|done].
  induction ss; constructor; [apply scriptFilled_refl | done].
Qed.

Lemma fileFilled_refl f : fileFilled f f.
Proof.
  unfold fileFilled. split_and!; try done.
  destruct (snd f); [apply projectFilled_refl | done].
Qed.

Lemma stagedFile_filled dbPool st (file : string * FileContent) p' :
  stagedFile dbPool st file = Some p' →
  isJsonFile file = true ∧ ∃ p, snd file = Some p ∧ projectFilled p p'.
Proof.
  unfold stagedFile. destruct (isJsonFile file); [|done].
  destruct (snd file) as [project|]; [|done].
  destruct (usableLabel project) as [l|]; [|done].
  destruct (Project.scripts project) as [ss|] eqn:Es; [|done]. simpl default.
  pose proof (processScripts_filled dbPool (toKebabCase l)
    (upsertProject (toKebabCase l) (newProjectEntryOf l project) st) ss) as Hf.
  destruct (processScripts dbPool (toKebabCase l) _ ss) as [[st2 ss'] m2].
  simpl in Hf. destruct m2; [|done]. intros [= <-].
  split; [done|]. exists project. split; [done|].
  unfold projectFilled. split_and!; try done. simpl. by rewrite Es.
Qed.

Lemma traceAll_filled dbPool dir :
  ∀ st, Forall2 fileFilled dir (traceAll dbPool st dir).
Proof.
  induction dir as [|file dir IH]; intros st; [constructor|].
  simpl. constructor; [|apply IH].
  unfold fileAfter. destruct (stagedFile dbPool st file) as [p'|] eqn:Es.
  - apply stagedFile_filled in Es as (Hj & p & Hp & Hf).
    unfold fileFilled. simpl. rewrite Hp. split_and!; [done | congruence | done].
  - destruct file as [n c]. apply fileFilled_refl.
Qed.

Lemma Forall2_fileFilled_refl dir : Forall2 fileFilled dir dir.
Proof. induction dir; constructor; [apply fileFilled_refl | done]. Qed.

(** Back-propagation only fills in.  After a run the projects directory
    has the same files in the same order; unreadable files and files that
    are not [.json] are as before; in a project file nothing has changed
    but, in its script records, a missing [type] or [plutusVersion]; and
    a record that was touched now carries both. *)
Theorem commit_only_fills dbPool now dryRun disk dir r :
  projectsDir disk = Some dir →
  NoDup dir.*1 →
  generateScriptIndex dbPool now dryRun disk = Completed r →
  ∃ dir', projectsDir (diskAfter r) = Some dir' ∧ Forall2 fileFilled dir dir'.
Proof.
  intros Hd Hnd. unfold generateScriptIndex. rewrite Hd. intros [= <-]. simpl.
  destruct dryRun; simpl.
  - exists dir. split; [done | apply Forall2_fileFilled_refl].
  - eexists. split; [done|].
    rewrite buildFrom_staged; [|done|intros n _; simpl; set_solver].
    simpl. rewrite writeProjectFiles_trace by done. apply traceAll_filled.
Qed.

Lemma commit_only_fills_witness :
  NoDup sampleDir.*1 ∧
  ∃ r dir', generateScriptIndex sampleDb "t1" false sampleDisk = Completed r ∧
            projectsDir (diskAfter r) = Some dir' ∧
            Forall2 fileFilled sampleDir dir'.
Proof.
  split; [exact sampleDir_names|].
  destruct (commit_only_fills sampleDb "t1" false sampleDisk sampleDir _
              eq_refl sampleDir_names eq_refl) as (dir' & H1 & H2).
  eexists. exists dir'. split; [reflexivity|]. split; [exact H1 | exact H2].
Defined.

Lemma processScript_complete_unmodified dbPool projectId st (s : ProjectScript.t) :
  incompleteOf [s] = [] → (processScript dbPool projectId st s).2 = false.
Proof.
  unfold incompleteOf. rewrite filter_cons, filter_nil.
  destruct (decide (ProjectScript.scriptHash s = "")) as [E|E].
  { intros _. by rewrite processScript_skip. }
  case_decide as Hc; [done|]. intros _.
  rewrite processScript_unfold by done. cbn [snd].
  rewrite resolve_complete; [done|].
  destruct (complete s); [done | naive_solver].
Qed.

Lemma processScripts_complete_unmodified dbPool projectId st ss :
  incompleteOf ss = [] → (processScripts dbPool projectId st ss).2 = false.
Proof.
  revert st. induction ss as [|s ss IH]; intros st; [done|].
  change (s :: ss) with ([s] ++ ss). rewrite incompleteOf_app.
  intros [H1 H2]%app_eq_nil. simpl app. scripts_step.
  by rewrite processScript_complete_unmodified, IH.
Qed.

Lemma stagedFile_none dbPool st (file : string * FileContent) :
  passCandidates [file] = 0%nat → stagedFile dbPool st file = None.
Proof.
  unfold stagedFile. cbn [passCandidates]. rewrite Nat.add_0_r.
  destruct (isJsonFile file); [|done]. unfold processedScripts.
  destruct (snd file) as [project|]; [|done].
  destruct (usableLabel project) as [l|]; [|done].
  intros H%length_zero_iff_nil.
  pose proof (processScripts_complete_unmodified dbPool (toKebabCase l)
    (upsertProject (toKebabCase l) (newProjectEntryOf l project) st) _ H) as Hm.
  destruct (processScripts dbPool (toKebabCase l) _ _) as [[st2 ss'] m2].
  simpl in Hm. by rewrite Hm.
Qed.

Lemma buildFrom_nothing_staged dbPool dir :
  ∀ st, passCandidates dir = 0%nat →
        projectFilesToUpdate (buildFrom dbPool st dir) = projectFilesToUpdate st.
Proof.
  induction dir as [|file dir IH]; intros st Hc; [done|].
  rewrite passCandidates_cons in Hc. rewrite buildFrom_cons.
  rewrite IH by lia. rewrite stepFile_staged, stagedFile_none; [done | lia].
Qed.

(** A registry in which every filed record is classified is left alone:
    no lookup is made, no project file is staged, and the projects
    directory after the run is the one before. *)
Theorem classified_registry_untouched dbPool now dryRun disk dir r :
  projectsDir disk = Some dir →
  passCandidates dir = 0%nat →
  generateScriptIndex dbPool now dryRun disk = Completed r →
  sum_lookups (summary r) = 0%nat ∧
  sum_filesUpdated (summary r) = 0%nat ∧
  projectsDir (diskAfter r) = Some dir.
Proof.
  intros Hd Hc Hr.
  destruct (run_accounted _ _ _ _ _ _ Hd Hr) as (Hst & -> & _ & (_ & _ & _ & A4 & _)).
  assert (projectFilesToUpdate (finalState r) = []) as Hs.
  { rewrite Hst. by rewrite buildFrom_nothing_staged. }
  revert Hr. unfold generateScriptIndex. rewrite Hd. intros [= <-].
  simpl in *. rewrite Hc in A4. split_and!; [lia | by rewrite Hs |].
  destruct dryRun; simpl; [done|]. by rewrite Hs.
Qed.

Lemma classified_registry_untouched_witness :
  passCandidates classifiedDir = 0%nat ∧
  ∃ r, generateScriptIndex sampleDb "t1" false classifiedDisk = Completed r ∧
       sum_lookups (summary r) = 0%nat ∧ sum_filesUpdated (summary r) = 0%nat.
Proof.
  split; [reflexivity|].
  eexists. split; [reflexivity|].
  destruct (classified_registry_untouched sampleDb "t1" false classifiedDisk
              classifiedDir _ eq_refl eq_refl eq_refl) as (H1 & H2 & _).
  split; [exact H1 | exact H2].
Defined.

(** ** One record, one entry *)

Lemma processScript_entry dbPool projectId st (s : ProjectScript.t) :
  ProjectScript.scriptHash s ≠ "" →
  st_scripts (processScript dbPool projectId st s).1.1 !! keyOf s
  = Some (newEntryOf projectId s
            (resolve dbPool (st_scripts st !! keyOf s) (keyOf s) s)).
Proof.
  intros E. rewrite processScript_unfold by done. cbn [fst].
  by rewrite classify_at.
Qed.

Lemma processScripts_entry dbPool projectId ss :
  ∀ st (s : ProjectScript.t),
    NoDup (keysOf ss) → s ∈ ss → ProjectScript.scriptHash s ≠ "" →
    st_scripts (processScripts dbPool projectId st ss).1.1 !! keyOf s
    = Some (newEntryOf projectId s
              (resolve dbPool (st_scripts st !! keyOf s) (keyOf s) s)).
Proof.
  induction ss as [|s0 ss IH]; intros st s Hnd Hin E; [by apply elem_of_nil in Hin|].
  scripts_step. change (s0 :: ss) with ([s0] ++ ss) in Hnd.
  rewrite keysOf_app in Hnd. apply NoDup_app in Hnd as (_ & Hdisj & Hnd).
  apply elem_of_cons in Hin as [->|Hin].
  - rewrite processScripts_other; [by apply processScript_entry|].
    apply Hdisj. rewrite keysOf_cons, decide_True by done. set_solver.
  - assert (keyOf s ∈ keysOf ss) as Hk.
    { unfold keysOf. apply list_elem_of_fmap. exists s. split; [done|].
      by apply list_elem_of_filter. }
    rewrite IH by done. rewrite processScript_other'; [done|].
    intros H0. by apply (Hdisj _ H0).
Qed.

Lemma keyOf_passKeys (file : string * FileContent) project l (s : ProjectScript.t) :
  isJsonFile file = true → snd file = Some project →
  usableLabel project = Some l →
  s ∈ default [] (Project.scripts project) →
  ProjectScript.scriptHash s ≠ "" →
  keyOf s ∈ passKeys [file].
Proof.
  intros Hj Hf Hl Hin E. simpl. rewrite Hj, app_nil_r.
  unfold processedScripts. rewrite Hf, Hl.
  unfold keysOf. apply list_elem_of_fmap. exists s. split; [done|].
  by apply list_elem_of_filter.
Qed.

Lemma stepFile_entry dbPool st (file : string * FileContent) project l
    (s : ProjectScript.t) :
  NoDup (passKeys [file]) →
  isJsonFile file = true → snd file = Some project →
  usableLabel project = Some l →
  s ∈ default [] (Project.scripts project) →
  ProjectScript.scriptHash s ≠ "" →
  st_scripts (stepFile dbPool st file) !! keyOf s
  = Some (newEntryOf (toKebabCase l) s
            (resolve dbPool (st_scripts st !! keyOf s) (keyOf s) s)).
Proof.
  intros Hnd Hj Hf Hl Hin E. unfold stepFile. rewrite Hj.
  simpl in Hnd. rewrite Hj, app_nil_r in Hnd.
  unfold processedScripts in Hnd. rewrite Hf, Hl in Hnd.
  rewrite (processFile_unfold dbPool st file project l Hf Hl). cbv zeta.
  pose proof (processScripts_entry dbPool (toKebabCase l)
                (default [] (Project.scripts project))
                (upsertProject (toKebabCase l) (newProjectEntryOf l project) st)
                s Hnd Hin E) as H.
  rewrite upsertProject_scripts in H.
  by destruct (processScripts dbPool (toKebabCase l) _ _).2.
Qed.

Lemma buildFrom_entry dbPool dir :
  ∀ st (file : string * FileContent) project l (s : ProjectScript.t),
    NoDup (passKeys dir) →
    file ∈ dir → isJsonFile file = true → snd file = Some project →
    usableLabel project = Some l →
    s ∈ default [] (Project.scripts project) →
    ProjectScript.scriptHash s ≠ "" →
    st_scripts (buildFrom dbPool st dir) !! keyOf s
    = Some (newEntryOf (toKebabCase l) s
              (resolve dbPool (st_scripts st !! keyOf s) (keyOf s) s)).
Proof.
  induction dir as [|f dir IH]; intros st file project l s Hnd Hin Hj Hf Hl Hs E;
    [by apply elem_of_nil in Hin|].
  rewrite buildFrom_cons. rewrite passKeys_cons in Hnd.
  apply NoDup_app in Hnd as (Hn1 & Hdisj & Hn2).
  apply elem_of_cons in Hin as [->|Hin].
  - pose proof (keyOf_passKeys _ _ _ _ Hj Hf Hl Hs E) as Hk.
    rewrite buildFrom_other by (by apply Hdisj).
    by eapply stepFile_entry.
  - assert (keyOf s ∈ passKeys dir) as Hk.
    { pose proof (keyOf_passKeys _ _ _ _ Hj Hf Hl Hs E) as Hk.
      clear -Hk Hin. induction dir as [|f0 dir IHd]; [by apply elem_of_nil in Hin|].
      rewrite passKeys_cons. apply elem_of_app.
      apply elem_of_cons in Hin as [->|Hin]; [by left | right; by apply IHd]. }
    erewrite IH by done. rewrite stepFile_other; [done|].
    intros H0. by apply (Hdisj _ H0).
Qed.

(** When no two records of the pass share a key, the entry a record ends
    the run with depends on nothing but the record, its project's label,
    the prior entry at its key and the lookup source: it is the candidate
    the resolver builds for the record against the prior entry, wherever
    the record stands in the directory. *)
Theorem entry_depends_on_own_record dbPool now dryRun disk dir r
    (file : string * FileContent) project l (s : ProjectScript.t) :
  projectsDir disk = Some dir →
  generateScriptIndex dbPool now dryRun disk = Completed r →
  NoDup (passKeys dir) →
  file ∈ dir → isJsonFile file = true → snd file = Some project →
  usableLabel project = Some l →
  s ∈ default [] (Project.scripts project) →
  ProjectScript.scriptHash s ≠ "" →
  scripts (finalIndex r) !! keyOf s
  = Some (newEntryOf (toKebabCase l) s
            (resolve dbPool (priorScripts disk !! keyOf s) (keyOf s) s)).
Proof.
  intros Hd. unfold generateScriptIndex. rewrite Hd. intros [= <-] Hnd Hin Hj Hf Hl Hs E.
  simpl. erewrite buildFrom_entry by done.
  unfold priorScripts. by destruct (loadExisting (indexFile disk)).
Qed.

Lemma entry_depends_on_own_record_witness :
  NoDup (passKeys sampleDir) ∧
  ∃ r, generateScriptIndex sampleDb "t1" false sampleDisk = Completed r ∧
       scripts (finalIndex r) !! "aabbcc"
       = Some (newEntryOf "sample-dex" poolScript
                 (resolve sampleDb (priorScripts sampleDisk !! "aabbcc")
                    "aabbcc" poolScript)).
Proof.
  split; [exact sampleDir_keys|].
  eexists. split; [reflexivity|].
  refine (entry_depends_on_own_record sampleDb "t1" false sampleDisk sampleDir _
            ("dex.json", Some (Project.mk (Some "Sample Dex") None (Some "DEFI")
                                 None None (Some [poolScript; orderScript])))
            _ "Sample Dex" poolScript eq_refl eq_refl sampleDir_keys _ eq_refl
            eq_refl eq_refl _ _).
  - apply list_elem_of_here.
  - apply list_elem_of_here.
  - discriminate.
Defined.

(** ** The range of the lookup *)

Lemma digitValue_range (d : ascii) :
  Js.isDigit d = true → 0 <= Js.digitValue d <= 9.
Proof. destruct d as [[] [] [] [] [] [] [] []]; vm_compute; intros; split; congruence. Qed.

Lemma matchPlutusV_digit (s : string) (d : ascii) :
  Regex.matchPlutusV s = Some d → Js.isDigit d = true.
Proof. intros (pre & (w & suf & _ & _ & Hd) & _)%matchPlutusV_some. done. Qed.

(** A classification that the lookup returns is NATIVE with version 0,
    or PLUTUS with a version from 0 to 9: one digit is all the pattern
    captures. *)
Theorem lookupScriptInfo_range (dbPool : DbPool) (hash : string) info :
  lookupScriptInfo dbPool hash = Some info →
  (info_type info = "NATIVE" ∧ info_plutusVersion info = 0) ∨
  (info_type info = "PLUTUS" ∧ 0 <= info_plutusVersion info <= 9).
Proof.
  unfold lookupScriptInfo, lookupTry. intros H.
  repeat case_match; simplify_eq/=; auto.
  right. split; [done|]. by eapply digitValue_range, matchPlutusV_digit.
Qed.

Lemma lookupScriptInfo_range_witness :
  lookupScriptInfo sampleDb "aabbcc"
  = Some {| info_type := "PLUTUS"; info_plutusVersion := 2 |} ∧
  ((info_type {| info_type := "PLUTUS"; info_plutusVersion := 2 |} = "NATIVE" ∧
    info_plutusVersion {| info_type := "PLUTUS"; info_plutusVersion := 2 |} = 0) ∨
   (info_type {| info_type := "PLUTUS"; info_plutusVersion := 2 |} = "PLUTUS" ∧
    0 <= info_plutusVersion {| info_type := "PLUTUS"; info_plutusVersion := 2 |} <= 9)).
Proof.
  split; [reflexivity|].
  exact (lookupScriptInfo_range sampleDb "aabbcc" _ eq_refl).
Defined.

(** ** The environment *)

Lemma initDb_none connect env :
  initDb connect env = None ↔ configured env = false.
Proof.
  unfold initDb, configured, Js.truthy.
  destruct (DBS_DATABASE_NAME env), (DBS_DATABASE_HOST env), (DBS_DATABASE_USER env),
    (DBS_DATABASE_PASSWORD env), (DBS_DATABASE_PORT env); simpl;
    rewrite ?andb_false_r; try done.
  by destruct (_ && _).
Qed.

(** When one of the five variables is missing or empty there is no pool,
    and the run makes no lookup, whatever the registry holds. *)
Theorem unconfigured_run_looks_nothing_up connect env now dryRun disk dir r :
  configured env = false →
  projectsDir disk = Some dir →
  generateScriptIndex (initDb connect env) now dryRun disk = Completed r →
  initDb connect env = None ∧ sum_lookups (summary r) = 0%nat.
Proof.
  intros Hc Hd Hr. apply (initDb_none connect) in Hc. split; [done|].
  destruct (run_accounted _ _ _ _ _ _ Hd Hr) as (_ & -> & _ & (_ & _ & _ & _ & A5)).
  simpl. by rewrite A5.
Qed.

Lemma unconfigured_run_looks_nothing_up_witness :
  configured emptyPasswordEnv = false ∧
  ∃ r, generateScriptIndex (initDb failingConnect emptyPasswordEnv) "t1" false sampleDisk
       = Completed r ∧
       sum_lookups (summary r) = 0%nat.
Proof.
  split; [reflexivity|].
  eexists. split; [reflexivity|].
  exact (proj2 (unconfigured_run_looks_nothing_up failingConnect emptyPasswordEnv
                  "t1" false sampleDisk sampleDir _ eq_refl eq_refl eq_refl)).
Defined.

(** * Properties of the import tool *)

(** ** Objects as association lists *)

Lemma get_mapSet_eq {A} (k : string) (v : A) o :
  ImportTool.get k (mapSet k v o) = Some v.
Proof.
  induction o as [|[k0 v0] o IH]; simpl.
  - by rewrite String.eqb_refl.
  - destruct (String.eqb_spec k0 k) as [->|Hne]; simpl.
    + by rewrite String.eqb_refl.
    + destruct (String.eqb_spec k0 k); [done|]. exact IH.
Qed.

Lemma get_mapSet_ne {A} (k k' : string) (v : A) o :
  k ≠ k' → ImportTool.get k' (mapSet k v o) = ImportTool.get k' o.
Proof.
  intros Hne. induction o as [|[k0 v0] o IH]; simpl.
  - destruct (String.eqb_spec k k'); [done|]. done.
  - destruct (String.eqb_spec k0 k) as [->|Hk]; simpl.
    + destruct (String.eqb_spec k k'); [done|]. done.
    + by rewrite IH.
Qed.

Lemma get_None {A} (k : string) (o : list (string * A)) :
  ImportTool.get k o = None ↔ k ∉ o.*1.
Proof.
  induction o as [|[k0 v0] o IH]; simpl.
  - split; [intros _ ?%elem_of_nil; done | done].
  - destruct (String.eqb_spec k0 k) as [->|Hne].
    + split; [done|]. intros H. exfalso. apply H. by left.
    + rewrite IH. split; [|set_solver].
      intros H [?|?]%elem_of_cons; [congruence | done].
Qed.

Lemma get_Some_pair {A} (k : string) (v : A) o :
  ImportTool.get k o = Some v → (k, v) ∈ o.
Proof.
  induction o as [|[k0 v0] o IH]; simpl; [done|].
  destruct (String.eqb_spec k0 k) as [->|Hne].
  - intros [= ->]. by left.
  - intros H. right. by apply IH.
Qed.

Lemma get_of_key {A} (k : string) (o : list (string * A)) :
  k ∈ o.*1 → is_Some (ImportTool.get k o).
Proof.
  intros Hk. destruct (ImportTool.get k o) eqn:E; [eauto|].
  by apply get_None in E.
Qed.

Lemma mapSet_new_length {A} (k : string) (v : A) o :
  ImportTool.get k o = None → length (mapSet k v o) = S (length o).
Proof.
  intros H%get_None. rewrite mapSet_fresh by done.
  rewrite length_app. simpl. lia.
Qed.

(** Assigning a new property leaves every property that was there. *)
Lemma mapSet_new_keeps {A} (k k' : string) (v v' : A) o :
  ImportTool.get k o = None → ImportTool.get k' o = Some v' →
  ImportTool.get k' (mapSet k v o) = Some v'.
Proof.
  intros Hn Hs. rewrite get_mapSet_ne; [done|]. congruence.
Qed.

Lemma table_ids :
  Forall (fun kv => Js.truthyStr kv.2 && isSlug kv.2 = true)
    ImportTool.PROJECT_NAME_MAP.
Proof. compute_done. Qed.

Lemma table_id projectName projectId :
  ImportTool.get projectName ImportTool.PROJECT_NAME_MAP = Some projectId →
  Js.truthyStr projectId = true ∧ isSlug projectId = true.
Proof.
  intros H%get_Some_pair.
  pose proof (proj1 (Forall_forall _ _) table_ids _ H) as Hf. simpl in Hf.
  by apply andb_true_iff in Hf.
Qed.

(** ** The first pass *)

Lemma extends_refl {A} (o : list (string * A)) : extends o o.
Proof. by intros k v. Qed.

Lemma normalizeStep_inv prior seen acc h :
  normInv prior seen acc → normInv prior (seen ++ [h]) (ImportTool.normalizeStep acc h).
Proof.
  intros (I1 & I2 & I3 & I4). unfold ImportTool.normalizeStep.
  destruct (Nat.eqb_spec (String.length h) 112) as [Hl|Hl].
  2:{ split_and!; try done. intros h' [Hin | ->%list_elem_of_singleton]%elem_of_app; [by apply I4|].
      intros _ ?. done. }
  cbv zeta.
  destruct (ImportTool.get (normalizeHash h) acc.1) as [e0|] eqn:En.
  { split_and!; try done.
    intros h' [Hin | ->%list_elem_of_singleton]%elem_of_app; [by apply I4|].
    intros _ _. rewrite En. eauto. }
  destruct (ImportTool.get h acc.1) as [e|] eqn:Eh.
  2:{ split_and!; try done.
      intros h' [Hin | ->%list_elem_of_singleton]%elem_of_app; [by apply I4|].
      intros Hp _. apply get_of_key in Hp as [e He]. apply I1 in He. congruence. }
  assert (ImportTool.get (normalizeHash h) prior = None) as Hpn.
  { destruct (ImportTool.get (normalizeHash h) prior) eqn:E; [|done].
    apply I1 in E. congruence. }
  assert (ImportTool.get h prior = Some e) as Hpe.
  { destruct (I2 _ _ Eh) as [?|[_ (k0 & _ & Hk & _)]]; [done|].
    exfalso. apply (normalizeHash_not_112 k0). by rewrite Hk. }
  unfold normInv. cbn [fst snd]. split_and!.
  - intros k v Hk. apply mapSet_new_keeps; [done | by apply I1].
  - intros k v. destruct (decide (k = normalizeHash h)) as [->|Hne].
    + rewrite get_mapSet_eq. intros [= <-]. right. split; [done|]. by exists h.
    + rewrite get_mapSet_ne by done. apply I2.
  - rewrite mapSet_new_length by done. lia.
  - intros h' Hin Hp Hl'.
    assert (is_Some (ImportTool.get (normalizeHash h') acc.1) ∨ h' = h) as [[e' He']| ->].
    { apply elem_of_app in Hin as [Hin | ->%list_elem_of_singleton]; [left; by apply I4 | by right]. }
    + rewrite (mapSet_new_keeps _ _ _ e') by done. eauto.
    + rewrite get_mapSet_eq. eauto.
Qed.

Lemma normalizeFold_inv prior hashes :
  ∀ seen acc,
    normInv prior seen acc →
    normInv prior (seen ++ hashes) (fold_left ImportTool.normalizeStep hashes acc).
Proof.
  induction hashes as [|h hashes IH]; intros seen acc Hinv.
  - by rewrite app_nil_r.
  - simpl. replace (seen ++ h :: hashes) with ((seen ++ [h]) ++ hashes)
      by (by rewrite <- app_assoc).
    apply IH. by apply normalizeStep_inv.
Qed.

Lemma normalizeExisting_inv prior :
  normInv prior prior.*1 (ImportTool.normalizeExisting prior).
Proof.
  pose proof (normalizeFold_inv prior prior.*1 [] (prior, 0%nat)) as H.
  rewrite app_nil_l in H. apply H.
  split_and!; simpl; [apply extends_refl | auto | lia | by intros h ?%elem_of_nil].
Qed.

(** ** The second pass *)

Lemma lookupProject_cases name ref :
  ImportTool.lookupProject name = Some ref →
  ImportTool.truthyRef ref = true ∧
  ((∃ projectId, ref = ImportTool.Id projectId ∧
                 ImportTool.get name ImportTool.PROJECT_NAME_MAP = Some projectId ∧
                 isSlug projectId = true) ∨
   (ref = ImportTool.Member name ∧
    ImportTool.get name ImportTool.PROJECT_NAME_MAP = None ∧
    Js.inherited name = true)).
Proof.
  unfold ImportTool.lookupProject.
  destruct (ImportTool.get name ImportTool.PROJECT_NAME_MAP) as [pid|] eqn:E.
  - intros [= <-]. apply table_id in E as E'. destruct E' as [Ht Hs].
    split; [done|]. left. by exists pid.
  - destruct (Js.inherited name) eqn:Ei; [|done]. intros [= <-].
    split; [done|]. by right.
Qed.

Lemma lookupProject_known m :
  knownProject m = true ↔ is_Some (ImportTool.lookupProject (ImportTool.project m)).
Proof.
  unfold knownProject, ImportTool.lookupProject.
  destruct (ImportTool.get (ImportTool.project m) ImportTool.PROJECT_NAME_MAP) as [pid|].
  - rewrite bool_decide_eq_true_2 by eauto. simpl. split; eauto.
  - rewrite bool_decide_eq_false_2 by (by intros [? ?]). simpl.
    destruct (Js.inherited (ImportTool.project m)); split; try done; eauto;
      by intros [? ?].
Qed.

Lemma importStep_inv start seen st m :
  importInv start seen st → importInv start (seen ++ [m]) (ImportTool.importStep st m).
Proof.
  intros (I1 & I2 & I3 & I4 & I5).
  assert (∀ k e, importedDefault seen k e → importedDefault (seen ++ [m]) k e) as Hw.
  { intros k e (m0 & pid & ? & ?). exists m0, pid. split; [set_solver | done]. }
  assert (∀ st', ImportTool.st_scripts st' = ImportTool.st_scripts st →
                 ImportTool.added st' = ImportTool.added st →
                 ImportTool.skipped st' = S (ImportTool.skipped st) →
                 (knownProject m = true →
                  is_Some (ImportTool.get (normalizeHash (ImportTool.scriptHash m))
                             (ImportTool.st_scripts st))) →
                 importInv start (seen ++ [m]) st') as Hskip.
  { intros st' Hs Ha Hk Hc. unfold importInv. rewrite Hs, Ha, Hk, length_app. simpl.
    split_and!; try done; try lia.
    - intros k e He. destruct (I2 _ _ He) as [?|[? ?]]; auto.
    - intros m0 [Hin | ->%list_elem_of_singleton]%elem_of_app; [by apply I5 | done]. }
  unfold ImportTool.importStep. cbv zeta.
  destruct (ImportTool.get (normalizeHash (ImportTool.scriptHash m))
              (ImportTool.st_scripts st)) as [e0|] eqn:Eg.
  { apply Hskip; try done; intros _; rewrite Eg; eauto. }
  destruct (ImportTool.lookupProject (ImportTool.project m)) as [pid|] eqn:Ep.
  2:{ apply Hskip; try done. intros [? Hk]%lookupProject_known. congruence. }
  destruct (ImportTool.truthyRef pid) eqn:Et.
  2:{ apply lookupProject_cases in Ep as [? _]. congruence. }
  clear Hskip.
  assert (ImportTool.get (normalizeHash (ImportTool.scriptHash m)) start = None) as Hsn.
  { destruct (ImportTool.get (normalizeHash (ImportTool.scriptHash m)) start) eqn:E; [|done].
    apply I1 in E. congruence. }
  unfold importInv. simpl. rewrite length_app. simpl. split_and!.
  - intros k v Hk. apply mapSet_new_keeps; [done | by apply I1].
  - intros k e.
    destruct (decide (k = normalizeHash (ImportTool.scriptHash m))) as [->|Hne].
    + rewrite get_mapSet_eq. intros [= <-]. right. split; [done|].
      exists m, pid. split_and!; try done. set_solver.
    + rewrite get_mapSet_ne by done. intros He.
      destruct (I2 _ _ He) as [?|[? ?]]; auto.
  - lia.
  - rewrite mapSet_new_length by done. lia.
  - intros m0 Hin Hk.
    assert (is_Some (ImportTool.get (normalizeHash (ImportTool.scriptHash m0))
                       (ImportTool.st_scripts st)) ∨ m0 = m) as [[e' He']| ->].
    { apply elem_of_app in Hin as [Hin | ->%list_elem_of_singleton];
        [left; by apply I5 | by right]. }
    + rewrite (mapSet_new_keeps _ _ _ e') by done. eauto.
    + rewrite get_mapSet_eq. eauto.
Qed.

Lemma importFold_inv start missing :
  ∀ seen st,
    importInv start seen st →
    importInv start (seen ++ missing) (fold_left ImportTool.importStep missing st).
Proof.
  induction missing as [|m missing IH]; intros seen st Hinv.
  - by rewrite app_nil_r.
  - simpl. replace (seen ++ m :: missing) with ((seen ++ [m]) ++ missing)
      by (by rewrite <- app_assoc).
    apply IH. by apply importStep_inv.
Qed.

Lemma importInv_start start :
  importInv start []
    {| ImportTool.st_scripts := start; ImportTool.added := 0;
       ImportTool.skipped := 0; ImportTool.projectsUsed := [] |}.
Proof.
  unfold importInv. simpl.
  split_and!; [apply extends_refl | auto | done | lia | by intros m ?%elem_of_nil].
Qed.

(** What a completed import is made of. *)
Lemma import_done now feedbackFile indexFile r :
  ImportTool.importMissingScripts now feedbackFile indexFile = ImportTool.Done r →
  ∃ missing index st,
    feedbackFile = ImportTool.Json missing ∧ indexFile = ImportTool.Json index ∧
    normInv (ImportTool.scripts index) (ImportTool.scripts index).*1
      (ImportTool.normalizeExisting (ImportTool.scripts index)) ∧
    importInv (ImportTool.normalizeExisting (ImportTool.scripts index)).1 missing st ∧
    ImportTool.scripts (ImportTool.written r) = ImportTool.st_scripts st ∧
    ImportTool.projects (ImportTool.written r) = ImportTool.projects index ∧
    ImportTool.metadata (ImportTool.written r)
    = {| generatedAt := now;
         scriptCount := length (ImportTool.st_scripts st);
         projectCount := length (ImportTool.projects index) |} ∧
    ImportTool.r_added r = ImportTool.added st ∧
    ImportTool.r_skipped r = ImportTool.skipped st ∧
    ImportTool.r_normalized r
    = (ImportTool.normalizeExisting (ImportTool.scripts index)).2.
Proof.
  unfold ImportTool.importMissingScripts.
  destruct feedbackFile as [| |missing]; try done.
  destruct indexFile as [| |index]; try done.
  pose proof (normalizeExisting_inv (ImportTool.scripts index)) as Hn.
  destruct (ImportTool.normalizeExisting (ImportTool.scripts index)) as [s1 n] eqn:En.
  intros [= <-]. simpl.
  pose proof (importFold_inv s1 missing [] _ (importInv_start s1)) as H.
  rewrite app_nil_l in H.
  eexists missing, index, _. rewrite En. by split_and!.
Qed.

Lemma get_key {A} (k : string) (o : list (string * A)) :
  is_Some (ImportTool.get k o) ↔ k ∈ o.*1.
Proof.
  split; [|apply get_of_key]. intros [v Hv].
  destruct (decide (k ∈ o.*1)) as [|Hn]; [done|].
  apply get_None in Hn. congruence.
Qed.

Lemma extends_None {A} (o o' : list (string * A)) k :
  extends o o' → ImportTool.get k o' = None → ImportTool.get k o = None.
Proof.
  intros He Hn. destruct (ImportTool.get k o) eqn:E; [|done].
  apply He in E. congruence.
Qed.

(** A completed import, taken apart. *)
Ltac import_run H :=
  let missing' := fresh "missing" in
  let index' := fresh "index" in
  apply import_done in H
    as (missing' & index' & st & [= <-] & [= <-] & Hn & Hi & Hs & Hp & Hm & Ha & Hk & Hz).

(** ** What the import keeps *)

(** The import never changes or removes an entry of the index, and leaves
    the projects as they are. *)
Theorem import_keeps_entries now missing index r :
  ImportTool.importMissingScripts now (ImportTool.Json missing) (ImportTool.Json index)
  = ImportTool.Done r →
  extends (ImportTool.scripts index) (ImportTool.scripts (ImportTool.written r)) ∧
  ImportTool.projects (ImportTool.written r) = ImportTool.projects index.
Proof.
  intros H. import_run H. split; [|done]. rewrite Hs.
  destruct Hn as (N1 & _), Hi as (I1 & _).
  intros k v Hv. by apply I1, N1.
Qed.

Lemma import_keeps_entries_witness :
  ∃ r, ImportTool.importMissingScripts "2025" (ImportTool.Json importFeedback)
         (ImportTool.Json importIndex) = ImportTool.Done r ∧
       extends (ImportTool.scripts importIndex) (ImportTool.scripts (ImportTool.written r)).
Proof.
  eexists. split; [reflexivity|].
  exact (proj1 (import_keeps_entries "2025" importFeedback importIndex _ eq_refl)).
Defined.

(** ** What the import adds *)

(** An entry of the written index is an entry of the prior index, or it
    stands at a key that the prior index lacks; such a key is never 112
    characters long and is its own normal form, and its entry is the copy
    of a prior entry filed under a key of 112 characters, or the default
    entry of a missing script.  The project id of a default entry is the
    one the table gives for the project's name, made of lower-case
    letters, digits and hyphens; or, when the table has no such name but
    every object inherits a member under it ([constructor], [toString],
    ...), that member. *)
Theorem import_new_entries now missing index r k e :
  ImportTool.importMissingScripts now (ImportTool.Json missing) (ImportTool.Json index)
  = ImportTool.Done r →
  ImportTool.get k (ImportTool.scripts (ImportTool.written r)) = Some e →
  ImportTool.get k (ImportTool.scripts index) = Some e ∨
  (ImportTool.get k (ImportTool.scripts index) = None ∧
   String.length k ≠ 112%nat ∧ normalizeHash k = k ∧
   (normalizedCopy (ImportTool.scripts index) k e ∨
    ∃ m, m ∈ missing ∧ normalizeHash (ImportTool.scriptHash m) = k ∧
         ((∃ projectId,
             ImportTool.get (ImportTool.project m) ImportTool.PROJECT_NAME_MAP
             = Some projectId ∧
             isSlug projectId = true ∧
             e = ImportTool.defaultEntry (ImportTool.Id projectId) m) ∨
          (ImportTool.get (ImportTool.project m) ImportTool.PROJECT_NAME_MAP = None ∧
           Js.inherited (ImportTool.project m) = true ∧
           e = ImportTool.defaultEntry (ImportTool.Member (ImportTool.project m)) m)))).
Proof.
  intros H Hg. import_run H. rewrite Hs in Hg.
  destruct Hn as (N1 & N2 & _), Hi as (I1 & I2 & _).
  destruct (I2 _ _ Hg) as [Hg1 | [Hnone Hd]].
  - destruct (N2 _ _ Hg1) as [?|[Hpn Hc]]; [by left|]. right.
    pose proof Hc as (k0 & Hl & Hk0 & _). subst k.
    split_and!; [done | apply normalizeHash_not_112 | apply normalizeHash_idem | by left].
  - right. pose proof (extends_None _ _ _ N1 Hnone) as Hpn.
    destruct Hd as (m & ref & Hin & Hk0 & Hpid & He). subst k e.
    split_and!; [done | apply normalizeHash_not_112 | apply normalizeHash_idem |].
    right. exists m. split_and!; [done..|].
    apply lookupProject_cases in Hpid
      as [_ [(pid & -> & Hg' & Hslug) | (-> & Hg' & Hi)]]; [left | right]; eauto.
Qed.

Lemma import_new_entries_witness :
  ∃ r e, ImportTool.importMissingScripts "2025" (ImportTool.Json importFeedback)
           (ImportTool.Json importIndex) = ImportTool.Done r ∧
         ImportTool.get "aabbcc" (ImportTool.scripts (ImportTool.written r)) = Some e ∧
         ImportTool.get "aabbcc" (ImportTool.scripts importIndex) = None ∧
         ImportTool.Entry.projectId e = ImportTool.Id "minswap".
Proof.
  eexists. eexists. split; [reflexivity|]. split; [reflexivity|].
  destruct (import_new_entries "2025" importFeedback importIndex _ "aabbcc" _
              eq_refl eq_refl) as [H|(H & _)]; [discriminate H|].
  split; [exact H | reflexivity].
Defined.

(** A missing script of a project named toString: the table inherits a
    member under that name, so the script is added, with that member as
    its project id. *)
Example import_inherited_name :
  ∃ r, ImportTool.importMissingScripts "2025" (ImportTool.Json inheritedFeedback)
         (ImportTool.Json importIndex) = ImportTool.Done r ∧
       ImportTool.r_added r = 1%nat ∧
       ImportTool.get "c0ffee" (ImportTool.scripts (ImportTool.written r))
       = Some (ImportTool.Entry.mk (ImportTool.Member "toString") "toString Script"
                 (Some "SPEND") (Some "PLUTUS") (Some 2)) ∧
       ImportTool.r_projectsUsed r = [ImportTool.Member "toString"].
Proof. eexists. split_and!; reflexivity. Qed.

(** ** The keys of the written index *)

(** The written index holds exactly the keys of the prior index, the
    normal forms of its keys of 112 characters, and the normal forms of
    the hashes of the missing scripts whose project's name the table
    holds, or every object inherits. *)
Theorem import_keys now missing index r k :
  ImportTool.importMissingScripts now (ImportTool.Json missing) (ImportTool.Json index)
  = ImportTool.Done r →
  k ∈ (ImportTool.scripts (ImportTool.written r)).*1 ↔
  k ∈ (ImportTool.scripts index).*1 ∨
  (∃ h, h ∈ (ImportTool.scripts index).*1 ∧ String.length h = 112%nat ∧
        normalizeHash h = k) ∨
  (∃ m, m ∈ missing ∧
        (is_Some (ImportTool.get (ImportTool.project m) ImportTool.PROJECT_NAME_MAP) ∨
         Js.inherited (ImportTool.project m) = true) ∧
        normalizeHash (ImportTool.scriptHash m) = k).
Proof.
  intros H. import_run H. rewrite Hs.
  destruct Hn as (N1 & N2 & _ & N4), Hi as (I1 & I2 & _ & _ & I5).
  rewrite <- !get_key. split.
  - intros [e Hg]. destruct (I2 _ _ Hg) as [Hg1 | [_ Hd]].
    + destruct (N2 _ _ Hg1) as [?|[_ (k0 & Hl & Hk0 & Hg0)]]; [left; eauto|].
      right. left. exists k0. split; [|done]. apply get_key. eauto.
    + destruct Hd as (m & pid & Hin & Hk0 & Hpid & _).
      right. right. exists m. split_and!; [done| |done].
      apply lookupProject_cases in Hpid
        as [_ [(p' & _ & Hg' & _) | (_ & _ & Hi)]]; [left; eauto | by right].
  - intros [[e He] | [(h & Hh & Hl & <-) | (m & Hin & Hkn & <-)]].
    + exists e. by apply I1, N1.
    + destruct (N4 h Hh Hh Hl) as [e He]. exists e. by apply I1.
    + apply I5; [done|]. unfold knownProject.
      destruct Hkn as [Hkn | ->]; [|by rewrite orb_true_r].
      by rewrite bool_decide_eq_true_2.
Qed.

Lemma import_keys_witness :
  ∃ r, ImportTool.importMissingScripts "2025" (ImportTool.Json importFeedback)
         (ImportTool.Json importIndex) = ImportTool.Done r ∧
       (normalizeHash longHash ∈ (ImportTool.scripts (ImportTool.written r)).*1 ↔
        normalizeHash longHash ∈ (ImportTool.scripts importIndex).*1 ∨
        (∃ h, h ∈ (ImportTool.scripts importIndex).*1 ∧ String.length h = 112%nat ∧
              normalizeHash h = normalizeHash longHash) ∨
        (∃ m, m ∈ importFeedback ∧
              (is_Some (ImportTool.get (ImportTool.project m)
                          ImportTool.PROJECT_NAME_MAP) ∨
               Js.inherited (ImportTool.project m) = true) ∧
              normalizeHash (ImportTool.scriptHash m) = normalizeHash longHash)).
Proof.
  eexists. split; [reflexivity|].
  exact (import_keys "2025" importFeedback importIndex _ (normalizeHash longHash) eq_refl).
Defined.

(** ** The counts *)

Lemma mapSet_new_keys {A} (k : string) (v : A) o :
  ImportTool.get k o = None → NoDup o.*1 → NoDup (mapSet k v o).*1.
Proof.
  intros Hn%get_None Hd. rewrite mapSet_fresh by done.
  rewrite fmap_app. apply NoDup_app. split_and!; [done| |apply NoDup_singleton].
  by intros x Hx ->%list_elem_of_singleton.
Qed.

Lemma normalizeStep_keys acc h :
  NoDup acc.1.*1 → NoDup (ImportTool.normalizeStep acc h).1.*1.
Proof.
  intros Hd. unfold ImportTool.normalizeStep.
  destruct (String.length h =? 112)%nat; [|done]. cbv zeta.
  destruct (ImportTool.get (normalizeHash h) acc.1) eqn:En; [done|].
  destruct (ImportTool.get h acc.1); [|done].
  cbn [fst]. by apply mapSet_new_keys.
Qed.

Lemma normalizeFold_keys hashes :
  ∀ acc, NoDup acc.1.*1 →
         NoDup (fold_left ImportTool.normalizeStep hashes acc).1.*1.
Proof.
  induction hashes as [|h hashes IH]; intros acc Hd; [done|].
  simpl. by apply IH, normalizeStep_keys.
Qed.

Lemma normalizeExisting_keys prior :
  NoDup prior.*1 → NoDup (ImportTool.normalizeExisting prior).1.*1.
Proof. intros Hd. by apply normalizeFold_keys. Qed.

Lemma importStep_keys st m :
  NoDup (ImportTool.st_scripts st).*1 →
  NoDup (ImportTool.st_scripts (ImportTool.importStep st m)).*1.
Proof.
  intros Hd. unfold ImportTool.importStep. cbv zeta.
  destruct (ImportTool.get (normalizeHash (ImportTool.scriptHash m))
              (ImportTool.st_scripts st)) eqn:Eg; [done|].
  destruct (ImportTool.lookupProject (ImportTool.project m)) as [ref|]; [|done].
  destruct (ImportTool.truthyRef ref); [|done].
  simpl. by apply mapSet_new_keys.
Qed.

Lemma importFold_keys missing :
  ∀ st, NoDup (ImportTool.st_scripts st).*1 →
        NoDup (ImportTool.st_scripts (fold_left ImportTool.importStep missing st)).*1.
Proof.
  induction missing as [|m missing IH]; intros st Hd; [done|].
  simpl. by apply IH, importStep_keys.
Qed.

(** Every missing script is added or skipped; the index grows by one
    entry for each normalized key and each added script; the metadata
    counts what is written; and an index without repeated keys stays
    one. *)
Theorem import_accounting now missing index r :
  ImportTool.importMissingScripts now (ImportTool.Json missing) (ImportTool.Json index)
  = ImportTool.Done r →
  (ImportTool.r_added r + ImportTool.r_skipped r = length missing)%nat ∧
  length (ImportTool.scripts (ImportTool.written r))
  = (length (ImportTool.scripts index) + ImportTool.r_normalized r
     + ImportTool.r_added r)%nat ∧
  scriptCount (ImportTool.metadata (ImportTool.written r))
  = length (ImportTool.scripts (ImportTool.written r)) ∧
  projectCount (ImportTool.metadata (ImportTool.written r))
  = length (ImportTool.projects (ImportTool.written r)) ∧
  generatedAt (ImportTool.metadata (ImportTool.written r)) = now ∧
  (NoDup (ImportTool.scripts index).*1 →
   NoDup (ImportTool.scripts (ImportTool.written r)).*1).
Proof.
  intros H. pose proof H as H'. import_run H. rewrite Hs, Hp, Hm, Ha, Hk, Hz.
  destruct Hn as (_ & _ & N3 & _), Hi as (_ & _ & I3 & I4 & _).
  split_and!; try done; try lia.
  intros Hd. rewrite <- Hs. clear -H' Hd.
  unfold ImportTool.importMissingScripts in H'.
  pose proof (normalizeExisting_keys _ Hd) as Hd1.
  destruct (ImportTool.normalizeExisting (ImportTool.scripts index)) as [s1 n].
  injection H' as <-. simpl. by apply importFold_keys.
Qed.

Lemma import_accounting_witness :
  ∃ r, ImportTool.importMissingScripts "2025" (ImportTool.Json importFeedback)
         (ImportTool.Json importIndex) = ImportTool.Done r ∧
       (ImportTool.r_added r + ImportTool.r_skipped r = length importFeedback)%nat ∧
       length (ImportTool.scripts (ImportTool.written r))
       = (length (ImportTool.scripts importIndex) + ImportTool.r_normalized r
          + ImportTool.r_added r)%nat.
Proof.
  eexists. split; [reflexivity|].
  destruct (import_accounting "2025" importFeedback importIndex _ eq_refl)
    as (H1 & H2 & _).
  split; [exact H1 | exact H2].
Defined.

(** ** The projects used *)

Lemma elem_of_setAdd (x y : ImportTool.ProjectRef) (l : list ImportTool.ProjectRef) :
  y ∈ ImportTool.setAdd x l ↔ y = x ∨ y ∈ l.
Proof.
  unfold ImportTool.setAdd. case_bool_decide as E.
  - split; [auto | by intros [->|?]].
  - rewrite elem_of_app, list_elem_of_singleton. tauto.
Qed.

Lemma setAdd_NoDup (x : ImportTool.ProjectRef) (l : list ImportTool.ProjectRef) :
  NoDup l → NoDup (ImportTool.setAdd x l) ∧
            (length (ImportTool.setAdd x l) ≤ S (length l))%nat.
Proof.
  unfold ImportTool.setAdd. case_bool_decide as E; [auto|].
  intros Hl. rewrite length_app. simpl. split; [|lia].
  apply NoDup_app. split_and!; [done| |apply NoDup_singleton].
  by intros y Hy ->%list_elem_of_singleton.
Qed.

Lemma importStep_used start seen st m :
  importInv start seen st → usedBy start st →
  usedBy start (ImportTool.importStep st m).
Proof.
  intros (I1 & _) (U1 & U2 & U3).
  assert (usedBy start (ImportTool.skip st)) as Hskip.
  { unfold usedBy. simpl. split_and!; done. }
  unfold ImportTool.importStep. cbv zeta.
  destruct (ImportTool.get (normalizeHash (ImportTool.scriptHash m))
              (ImportTool.st_scripts st)) eqn:Eg; [done|].
  destruct (ImportTool.lookupProject (ImportTool.project m)) as [pid|]; [|done].
  destruct (ImportTool.truthyRef pid); [|done].
  pose proof (setAdd_NoDup pid _ U1) as [? ?].
  unfold usedBy. simpl. split_and!; [done | lia |].
  intros p. rewrite elem_of_setAdd, U3. split.
  - intros [-> | (k & e & Hg & Hn & Hp)].
    + eexists _, _. rewrite get_mapSet_eq. split_and!; [done| |done].
      by apply (extends_None _ _ _ I1).
    + exists k, e. split_and!; [|done|done]. by apply mapSet_new_keeps.
  - intros (k & e & Hg & Hn & Hp).
    destruct (decide (k = normalizeHash (ImportTool.scriptHash m))) as [->|Hne].
    + rewrite get_mapSet_eq in Hg. injection Hg as <-. by left.
    + rewrite get_mapSet_ne in Hg by done. right. by exists k, e.
Qed.

Lemma importFold_used start missing :
  ∀ seen st,
    importInv start seen st → usedBy start st →
    usedBy start (fold_left ImportTool.importStep missing st).
Proof.
  induction missing as [|m missing IH]; intros seen st Hi Hu; [done|].
  simpl. apply (IH (seen ++ [m])); [by apply importStep_inv | by eapply importStep_used].
Qed.

(** The projects used are listed once each, are no more than the scripts
    added, and are exactly the project ids of the entries that the second
    pass filed under keys that the first pass left free. *)
Theorem import_projects_used now missing index r :
  ImportTool.importMissingScripts now (ImportTool.Json missing) (ImportTool.Json index)
  = ImportTool.Done r →
  NoDup (ImportTool.r_projectsUsed r) ∧
  (length (ImportTool.r_projectsUsed r) ≤ ImportTool.r_added r)%nat ∧
  ∀ p, p ∈ ImportTool.r_projectsUsed r ↔
       ∃ k e, ImportTool.get k (ImportTool.scripts (ImportTool.written r)) = Some e ∧
              ImportTool.get k (ImportTool.normalizeExisting (ImportTool.scripts index)).1
              = None ∧
              ImportTool.Entry.projectId e = p.
Proof.
  unfold ImportTool.importMissingScripts.
  destruct (ImportTool.normalizeExisting (ImportTool.scripts index)) as [s1 n].
  intros [= <-]. simpl.
  apply (importFold_used s1 missing [] _ (importInv_start s1)).
  unfold usedBy. simpl. split_and!; [apply NoDup_nil_2 | lia |].
  intros p. split; [by intros ?%elem_of_nil|].
  intros (k & e & Hg & Hn & _). congruence.
Qed.

Lemma import_projects_used_witness :
  ∃ r, ImportTool.importMissingScripts "2025" (ImportTool.Json importFeedback)
         (ImportTool.Json importIndex) = ImportTool.Done r ∧
       NoDup (ImportTool.r_projectsUsed r) ∧
       (length (ImportTool.r_projectsUsed r) ≤ ImportTool.r_added r)%nat.
Proof.
  eexists. split; [reflexivity|].
  destruct (import_projects_used "2025" importFeedback importIndex _ eq_refl)
    as (H1 & H2 & _).
  split; [exact H1 | exact H2].
Defined.

(** ** Importing again *)

Lemma normalizeFold_fixed hashes acc :
  (∀ h, h ∈ hashes → String.length h = 112%nat →
        is_Some (ImportTool.get (normalizeHash h) acc.1)) →
  fold_left ImportTool.normalizeStep hashes acc = acc.
Proof.
  induction hashes as [|h hashes IH]; intros H; [done|]. simpl.
  assert (ImportTool.normalizeStep acc h = acc) as ->.
  { unfold ImportTool.normalizeStep.
    destruct (Nat.eqb_spec (String.length h) 112) as [Hl|]; [|done]. cbv zeta.
    destruct (H h) as [e ->]; [apply list_elem_of_here | done | done]. }
  apply IH. intros h' Hin. apply H. by apply list_elem_of_further.
Qed.

Lemma importFold_fixed missing :
  ∀ st,
    (∀ m, m ∈ missing →
          is_Some (ImportTool.get (normalizeHash (ImportTool.scriptHash m))
                     (ImportTool.st_scripts st)) ∨ knownProject m = false) →
    fold_left ImportTool.importStep missing st
    = {| ImportTool.st_scripts := ImportTool.st_scripts st;
         ImportTool.added := ImportTool.added st;
         ImportTool.skipped := (ImportTool.skipped st + length missing)%nat;
         ImportTool.projectsUsed := ImportTool.projectsUsed st |}.
Proof.
  induction missing as [|m missing IH]; intros st H.
  - destruct st. simpl. f_equal. lia.
  - simpl.
    assert (ImportTool.importStep st m = ImportTool.skip st) as ->.
    { unfold ImportTool.importStep. cbv zeta.
      destruct (H m) as [[e ->] | Hk]; [apply list_elem_of_here | done |].
      destruct (ImportTool.get (normalizeHash _) _); [done|].
      destruct (ImportTool.lookupProject (ImportTool.project m)) eqn:El; [|done].
      assert (knownProject m = true) by (apply lookupProject_known; eauto).
      congruence. }
    rewrite IH.
    + simpl. f_equal. lia.
    + intros m' Hin. simpl. apply H. by apply list_elem_of_further.
Qed.

(** Importing the same feedback into the index that an import wrote
    changes no entry: nothing is added, nothing is normalized, and every
    missing script is skipped.  The index is taken as it is read back:
    any index with the keys of the written one, so that an entry whose
    project id was an inherited member, which the file does not hold, is
    covered. *)
Theorem import_twice now now' missing index r index' :
  ImportTool.importMissingScripts now (ImportTool.Json missing) (ImportTool.Json index)
  = ImportTool.Done r →
  (ImportTool.scripts index').*1 = (ImportTool.scripts (ImportTool.written r)).*1 →
  ∃ r', ImportTool.importMissingScripts now' (ImportTool.Json missing)
          (ImportTool.Json index') = ImportTool.Done r' ∧
        ImportTool.scripts (ImportTool.written r') = ImportTool.scripts index' ∧
        ImportTool.projects (ImportTool.written r') = ImportTool.projects index' ∧
        ImportTool.r_added r' = 0%nat ∧
        ImportTool.r_normalized r' = 0%nat ∧
        ImportTool.r_skipped r' = length missing ∧
        ImportTool.r_projectsUsed r' = [].
Proof.
  intros H Hkeys. import_run H.
  destruct Hn as (N1 & N2 & _ & N4), Hi as (I1 & I2 & _ & _ & I5).
  assert (∀ k, is_Some (ImportTool.get k (ImportTool.scripts index')) ↔
               is_Some (ImportTool.get k (ImportTool.st_scripts st))) as Hsame.
  { intros k. by rewrite !get_key, Hkeys, Hs. }
  assert (ImportTool.normalizeExisting (ImportTool.scripts index')
          = (ImportTool.scripts index', 0%nat)) as Hfix.
  { apply normalizeFold_fixed. cbn [fst].
    intros h Hh Hl. apply Hsame.
    apply get_key, Hsame in Hh as [e Hg].
    destruct (I2 _ _ Hg) as [Hg1 | [_ (m & pid & _ & Hk0 & _)]].
    - destruct (N2 _ _ Hg1) as [Hg0 | [_ (k0 & _ & Hk0 & _)]].
      + assert (h ∈ (ImportTool.scripts index).*1) as Hin by (apply get_key; eauto).
        destruct (N4 h Hin Hin Hl) as [e' He']. exists e'. by apply I1.
      + exfalso. apply (normalizeHash_not_112 k0). by rewrite Hk0.
    - exfalso. apply (normalizeHash_not_112 (ImportTool.scriptHash m)). by rewrite Hk0. }
  unfold ImportTool.importMissingScripts. rewrite Hfix.
  rewrite importFold_fixed.
  - eexists. split; [reflexivity|]. simpl. done.
  - intros m Hin. simpl.
    destruct (knownProject m) eqn:Ek; [left; by apply Hsame, I5 | by right].
Qed.

Lemma import_twice_witness :
  ∃ r r', ImportTool.importMissingScripts "2025" (ImportTool.Json importFeedback)
            (ImportTool.Json importIndex) = ImportTool.Done r ∧
          ImportTool.importMissingScripts "2026" (ImportTool.Json importFeedback)
            (ImportTool.Json (ImportTool.written r)) = ImportTool.Done r' ∧
          ImportTool.scripts (ImportTool.written r')
          = ImportTool.scripts (ImportTool.written r) ∧
          ImportTool.r_added r' = 0%nat.
Proof.
  eexists.
  destruct (import_twice "2025" "2026" importFeedback importIndex _ _ eq_refl eq_refl)
    as (r' & H1 & H2 & _ & H3 & _).
  exists r'. split; [reflexivity|]. split; [exact H1|]. split; [exact H2 | exact H3].
Defined.

(** * Properties of the first generator *)

Lemma firstOf_get {A} (l : list (string * A)) (k : string) :
  (list_to_map l : gmap string A) !! k = ImportTool.get k l.
Proof.
  induction l as [|[k0 v] l IH]; simpl; [done|].
  destruct (String.eqb_spec k0 k) as [->|Hne].
  - by rewrite lookup_insert_eq.
  - by rewrite lookup_insert_ne.
Qed.

Lemma union_insert_absorb {A} (m1 m2 : gmap string A) (k : string) (x : A) :
  is_Some (m1 !! k) → m1 ∪ <[k := x]> m2 = m1 ∪ m2.
Proof.
  intros [y Hy]. apply map_eq. intros i. rewrite !lookup_union.
  destruct (decide (i = k)) as [->|Hne].
  - rewrite lookup_insert_eq, Hy. by destruct (m2 !! k).
  - by rewrite lookup_insert_ne.
Qed.

Lemma absorbs_refl st : absorbs st [] [] st.
Proof.
  unfold absorbs. simpl. rewrite !(right_id_L ∅ (∪)). split_and!; try done; lia.
Qed.

Lemma absorbs_trans st recs projs st1 recs' projs' st2 :
  absorbs st recs projs st1 → absorbs st1 recs' projs' st2 →
  absorbs st (recs ++ recs') (projs ++ projs') st2.
Proof.
  intros (A1 & A2 & A3 & A4 & A5 & A6) (B1 & B2 & B3 & B4 & B5 & B6).
  unfold absorbs. rewrite !list_to_map_app, !(assoc_L (∪)), <- A1, <- A2, length_app.
  split_and!; try done; try lia. auto.
Qed.

Lemma warnings_app log log' :
  warnings (log ++ log') = (warnings log + warnings log')%nat.
Proof. unfold warnings. by rewrite filter_app, length_app. Qed.

Lemma processVersion_absorbs projectId script st v :
  absorbs st
    (match V1.hashOf v with
     | Some hash => [(hash, V1.entryOf projectId script v)]
     | None => []
     end) []
    (V1.processVersion projectId script st v).
Proof.
  unfold V1.processVersion. destruct (V1.hashOf v) as [hash|]; [|apply absorbs_refl].
  destruct (V1.st_scripts st !! hash) as [e|] eqn:E; unfold absorbs; simpl;
    rewrite !(right_id_L ∅ (∪)).
  - rewrite (union_insert_absorb _ _ _ _ (mk_is_Some _ _ E)), !(right_id_L ∅ (∪)).
    rewrite warnings_app.
    split_and!; try done; try lia.
    + destruct (String.eqb _ _); unfold warnings; simpl; lia.
    + intros Hl. apply Forall_app. split; [done|].
      destruct (String.eqb_spec (ScriptEntry.projectId e) projectId); [done|].
      by apply Forall_singleton.
  - rewrite <- insert_union_r, (right_id_L ∅ (∪)) by done.
    rewrite map_size_insert_None by done.
    split_and!; try done; lia.
Qed.

Lemma recordsOfScript_cons projectId script v vs :
  omap (fun v => match V1.hashOf v with
                 | Some hash => Some (hash, V1.entryOf projectId script v)
                 | None => None
                 end) (v :: vs)
  = (match V1.hashOf v with
     | Some hash => [(hash, V1.entryOf projectId script v)]
     | None => []
     end) ++
    omap (fun v => match V1.hashOf v with
                   | Some hash => Some (hash, V1.entryOf projectId script v)
                   | None => None
                   end) vs.
Proof. simpl. by destruct (V1.hashOf v). Qed.

Lemma processVersions_absorbs projectId script vs :
  ∀ st, absorbs st
          (omap (fun v => match V1.hashOf v with
                          | Some hash => Some (hash, V1.entryOf projectId script v)
                          | None => None
                          end) vs) []
          (fold_left (V1.processVersion projectId script) vs st).
Proof.
  induction vs as [|v vs IH]; intros st; [apply absorbs_refl|].
  rewrite recordsOfScript_cons. simpl fold_left.
  apply (absorbs_trans st _ [] _ _ [] _ (processVersion_absorbs _ _ _ _) (IH _)).
Qed.

Lemma processScripts_absorbs projectId ss :
  ∀ st, absorbs st (flat_map (recordsOfScript projectId) ss) []
          (fold_left (V1.processScript projectId) ss st).
Proof.
  induction ss as [|s ss IH]; intros st; [apply absorbs_refl|].
  simpl flat_map. simpl fold_left.
  apply (absorbs_trans st _ [] _ _ [] _ (processVersions_absorbs _ _ _ _) (IH _)).
Qed.

Lemma addProject_absorbs projectId projectName dapp st :
  absorbs st []
    (if Js.inherited projectId then []
     else [(projectId, V1.projectEntryOf projectName dapp)])
    (V1.addProject projectId projectName dapp st).
Proof.
  unfold V1.addProject.
  destruct (Js.inherited projectId);
    [destruct (V1.st_projects st !! projectId); apply absorbs_refl|].
  destruct (V1.st_projects st !! projectId) as [e|] eqn:E; unfold absorbs; simpl;
    rewrite !(right_id_L ∅ (∪)).
  - rewrite (union_insert_absorb _ _ _ _ (mk_is_Some _ _ E)), !(right_id_L ∅ (∪)).
    split_and!; try done; lia.
  - rewrite <- insert_union_r, (right_id_L ∅ (∪)) by done.
    split_and!; try done; lia.
Qed.

Lemma processDApp_absorbs st (file : string * option V1.DApp.t) :
  absorbs st (recordsOfDApp file)
    (match filedProjectOf file with Some p => [p] | None => [] end)
    (V1.processDApp st file).
Proof.
  unfold V1.processDApp, recordsOfDApp, filedProjectOf, projectRecordOf.
  destruct (snd file) as [dapp|] eqn:Ef.
  2:{ unfold absorbs. simpl. rewrite !(right_id_L ∅ (∪)), warnings_app.
      split_and!; try done; try (unfold warnings; simpl; lia).
      intros Hl. apply Forall_app. split; [done|]. by apply Forall_singleton. }
  unfold V1.namedDApp. destruct (V1.DApp.projectName dapp) as [n|]; [|apply absorbs_refl].
  destruct (Js.truthyStr n); [|apply absorbs_refl]. cbv zeta.
  pose proof (addProject_absorbs (toKebabCase n) n dapp st) as H1.
  assert ((if Js.inherited (toKebabCase n) then []
           else [(toKebabCase n, V1.projectEntryOf n dapp)])
          = match (if Js.inherited (toKebabCase n) then None
                   else Some (toKebabCase n, V1.projectEntryOf n dapp))
            with Some p => [p] | None => [] end) as E
    by (by destruct (Js.inherited (toKebabCase n))).
  rewrite E in H1. clear E.
  destruct (V1.DApp.scripts dapp) as [ss|]; simpl.
  - pose proof (absorbs_trans _ _ _ _ _ _ _ H1
                  (processScripts_absorbs (toKebabCase n) ss _)) as H.
    by rewrite app_nil_r in H.
  - done.
Qed.

Lemma processDApps_absorbs (files : list (string * option V1.DApp.t)) :
  ∀ st, absorbs st (flat_map recordsOfDApp files) (omap filedProjectOf files)
          (fold_left V1.processDApp files st).
Proof.
  induction files as [|file files IH]; intros st; [apply absorbs_refl|].
  simpl flat_map. simpl fold_left.
  pose proof (absorbs_trans _ _ _ _ _ _ _ (processDApp_absorbs st file) (IH _)) as H.
  simpl. by destruct (filedProjectOf file).
Qed.

Lemma filedProjects_get (files : list (string * option V1.DApp.t)) (k : string) :
  ImportTool.get k (omap filedProjectOf files)
  = if Js.inherited k then None else ImportTool.get k (omap projectRecordOf files).
Proof.
  induction files as [|file files IH]; simpl; [by destruct (Js.inherited k)|].
  unfold filedProjectOf at 1.
  destruct (projectRecordOf file) as [[pid e]|]; [|exact IH]. simpl.
  destruct (Js.inherited pid) eqn:Ei; simpl.
  - destruct (String.eqb_spec pid k) as [->|Hne]; [|exact IH].
    rewrite Ei in IH |- *. exact IH.
  - destruct (String.eqb_spec pid k) as [->|Hne]; [|exact IH]. by rewrite Ei.
Qed.

(** A run writes what the initial state absorbs from the directory. *)
Lemma v1_run now dir r :
  V1.generateScriptIndex now (Some dir) = V1.Written r →
  ∃ st, absorbs V1.initial (records dir)
          (omap filedProjectOf (V1.jsonFiles dir)) st ∧
        V1.scripts (V1.written r) = V1.st_scripts st ∧
        V1.projects (V1.written r) = V1.st_projects st ∧
        V1.metadata (V1.written r)
        = {| generatedAt := now; scriptCount := size (V1.st_scripts st);
             projectCount := size (V1.st_projects st) |} ∧
        V1.r_total r = V1.totalScripts st ∧
        V1.r_duplicates r = V1.duplicates st ∧
        V1.r_log r = V1.log st.
Proof.
  intros [= <-]. eexists. split; [apply processDApps_absorbs|]. done.
Qed.

Lemma v1_initial st recs projs :
  absorbs V1.initial recs projs st →
  V1.st_scripts st = list_to_map recs ∧ V1.st_projects st = list_to_map projs ∧
  V1.totalScripts st = size (V1.st_scripts st) ∧
  (V1.totalScripts st + V1.duplicates st = length recs)%nat ∧
  (warnings (V1.log st) ≤ V1.duplicates st)%nat ∧
  Forall namesTwoProjects (V1.log st).
Proof.
  intros (A1 & A2 & A3 & A4 & A5 & A6). simpl in *.
  rewrite (left_id_L ∅ (∪)) in A1. rewrite (left_id_L ∅ (∪)) in A2.
  rewrite map_size_empty in A4.
  split_and!; try done; try lia. by apply A6.
Qed.

(** ** The first record wins *)



(** ** The counts of the first generator *)

(** Every record is counted as a script or as a duplicate; the scripts
    counted are the scripts written, which the metadata counts too; a
    warning is written for no more than the duplicates, and only when the
    two project ids differ. *)
Theorem v1_counts now dir r :
  V1.generateScriptIndex now (Some dir) = V1.Written r →
  (V1.r_total r + V1.r_duplicates r = length (records dir))%nat ∧
  V1.r_total r = size (V1.scripts (V1.written r)) ∧
  scriptCount (V1.metadata (V1.written r)) = size (V1.scripts (V1.written r)) ∧
  projectCount (V1.metadata (V1.written r)) = size (V1.projects (V1.written r)) ∧
  (warnings (V1.r_log r) ≤ V1.r_duplicates r)%nat ∧
  Forall namesTwoProjects (V1.r_log r).
Proof.
  intros (st & Ha & -> & -> & -> & -> & -> & ->)%v1_run.
  apply v1_initial in Ha as (_ & _ & ? & ? & ? & ?). done.
Qed.

Lemma v1_counts_witness :
  ∃ r, V1.generateScriptIndex "2023" (Some v1Dir) = V1.Written r ∧
       (V1.r_total r + V1.r_duplicates r = length (records v1Dir))%nat ∧
       V1.r_duplicates r = 1%nat.
Proof.
  eexists. split; [reflexivity|]. split; [|reflexivity].
  exact (proj1 (v1_counts "2023" v1Dir _ eq_refl)).
Defined.

(** ** Keys and project ids of the first generator *)

Lemma hashOf_lower v hash : V1.hashOf v = Some hash → Js.toLowerCase hash = hash.
Proof.
  unfold V1.hashOf. destruct (Js.or _ _) as [h|]; [|done].
  destruct (Js.truthyStr h); [|done]. intros [= <-]. apply toLowerCase_idem.
Qed.

Lemma records_inv dir k e :
  (k, e) ∈ records dir →
  Js.toLowerCase k = k ∧
  ∃ file projectName dapp,
    file ∈ V1.jsonFiles dir ∧ V1.namedDApp (snd file) = Some (projectName, dapp) ∧
    ScriptEntry.projectId e = toKebabCase projectName.
Proof.
  unfold records. intros H%list_elem_of_In%in_flat_map.
  destruct H as (file & Hf%list_elem_of_In & He). unfold recordsOfDApp in He.
  destruct (V1.namedDApp file.2) as [[n dapp]|] eqn:En; [|done].
  apply in_flat_map in He as (script & _ & He%list_elem_of_In).
  unfold recordsOfScript in He. apply list_elem_of_omap in He as (v & _ & Hv).
  destruct (V1.hashOf v) as [hash|] eqn:Eh; [|done]. injection Hv as <- <-.
  split; [by eapply hashOf_lower|]. by exists file, n, dapp.
Qed.

(** Every key of the written index is in lower case, and every entry
    carries a project id made of lower-case letters, digits and hyphens.
    The entry names a project of the written index, except when its
    project id is [constructor]: the scripts of such a dApp are filed
    while the project itself never is. *)
Theorem v1_scripts_name_projects now dir r k e :
  V1.generateScriptIndex now (Some dir) = V1.Written r →
  V1.scripts (V1.written r) !! k = Some e →
  Js.toLowerCase k = k ∧
  isSlug (ScriptEntry.projectId e) = true ∧
  (ScriptEntry.projectId e ≠ "constructor" →
   is_Some (V1.projects (V1.written r) !! ScriptEntry.projectId e)) ∧
  (ScriptEntry.projectId e = "constructor" →
   V1.projects (V1.written r) !! ScriptEntry.projectId e = None).
Proof.
  intros (st & Ha & -> & -> & _)%v1_run.
  apply v1_initial in Ha as (-> & -> & _). rewrite !firstOf_get.
  intros (Hk & file & n & dapp & Hf & Hn & ->)%get_Some_pair%records_inv.
  rewrite filedProjects_get.
  split_and!; [done | apply strip_lower_slug | |].
  - intros Hne. destruct (Js.inherited (toKebabCase n)) eqn:Ei.
    { by apply inherited_slug in Ei; [|apply strip_lower_slug]. }
    apply get_key. apply list_elem_of_fmap.
    exists (toKebabCase n, V1.projectEntryOf n dapp). split; [done|].
    apply list_elem_of_omap. exists file. split; [done|].
    unfold projectRecordOf. by rewrite Hn.
  - by intros ->.
Qed.

Lemma v1_scripts_name_projects_witness :
  ∃ r e, V1.generateScriptIndex "2023" (Some v1Dir) = V1.Written r ∧
         V1.scripts (V1.written r) !! "ccdd" = Some e ∧
         ScriptEntry.projectId e ≠ "constructor" ∧
         is_Some (V1.projects (V1.written r) !! ScriptEntry.projectId e).
Proof.
  eexists. eexists. split; [reflexivity|]. split; [reflexivity|].
  assert ("minswap" ≠ "constructor") as Hne by discriminate.
  split; [exact Hne|].
  exact (proj1 (proj2 (proj2 (v1_scripts_name_projects "2023" v1Dir _ "ccdd" _
                                eq_refl eq_refl))) Hne).
Defined.

(** A dApp named Constructor: its script is filed under the project id
    [constructor], its project is not. *)
Example v1_constructor_not_filed :
  ∃ r e, V1.generateScriptIndex "2023" (Some v1ConstructorDir) = V1.Written r ∧
         V1.scripts (V1.written r) !! "eeff" = Some e ∧
         ScriptEntry.projectId e = "constructor" ∧
         V1.projects (V1.written r) = ∅.
Proof. eexists. eexists. split_and!; reflexivity. Qed.

(** ** Files that the first generator passes by *)

Lemma usable_records (dir : list (string * option V1.DApp.t)) :
  records (filter (fun f => Is_true (usable f)) dir) = records dir ∧
  omap filedProjectOf (V1.jsonFiles (filter (fun f => Is_true (usable f)) dir))
  = omap filedProjectOf (V1.jsonFiles dir).
Proof.
  unfold records, V1.jsonFiles.
  induction dir as [|file dir [IH1 IH2]]; [done|].
  rewrite !filter_cons.
  destruct (decide (Is_true (usable file))) as [Hu|Hu].
  - pose proof Hu as Hu'. unfold usable in Hu'.
    apply andb_prop_elim in Hu' as [Hj Hn].
    rewrite filter_cons. rewrite !decide_True by done.
    split; simpl; [by rewrite IH1|].
    destruct (filedProjectOf file); [f_equal|]; exact IH2.
  - destruct (decide (Is_true (endsWith file.1 ".json"))) as [Hj|Hj]; [|done].
    assert (V1.namedDApp file.2 = None) as En.
    { destruct (V1.namedDApp file.2) eqn:E; [|done]. exfalso. apply Hu.
      unfold usable. rewrite E. apply andb_prop_intro. split; [done|].
      apply bool_decide_pack. eauto. }
    split; simpl.
    + unfold recordsOfDApp at 2. rewrite En. exact IH1.
    + unfold filedProjectOf at 2, projectRecordOf. rewrite En. exact IH2.
Qed.

(** Files that are not [.json] files, that cannot be read or parsed, or
    that name no project leave the index and the counts as they are:
    without them the generator writes the same. *)
Theorem v1_passes_by_unusable_files now dir r :
  V1.generateScriptIndex now (Some dir) = V1.Written r →
  ∃ r', V1.generateScriptIndex now (Some (filter (fun f => Is_true (usable f)) dir))
        = V1.Written r' ∧
        V1.written r' = V1.written r ∧
        V1.r_total r' = V1.r_total r ∧
        V1.r_duplicates r' = V1.r_duplicates r.
Proof.
  intros H. eexists. split; [reflexivity|].
  pose proof (eq_refl : V1.generateScriptIndex now
                          (Some (filter (fun f => Is_true (usable f)) dir)) = _) as H'.
  apply v1_run in H as (st & Ha & Hs & Hp & Hm & Ht & Hd & _).
  apply v1_run in H' as (st' & Ha' & Hs' & Hp' & Hm' & Ht' & Hd' & _).
  destruct (usable_records dir) as [E1 E2]. rewrite E1, E2 in Ha'.
  apply v1_initial in Ha as (A1 & A2 & A3 & A4 & _).
  apply v1_initial in Ha' as (B1 & B2 & B3 & B4 & _).
  assert (V1.st_scripts st' = V1.st_scripts st) as Es by congruence.
  assert (V1.st_projects st' = V1.st_projects st) as Ep by congruence.
  assert (V1.totalScripts st' = V1.totalScripts st) as Et by congruence.
  split_and!.
  - destruct (V1.written r), (V1.written _). simpl in *. congruence.
  - congruence.
  - rewrite Hd, Hd'. lia.
Qed.

Lemma v1_passes_by_unusable_files_witness :
  ∃ r r', V1.generateScriptIndex "2023" (Some v1Dir) = V1.Written r ∧
          V1.generateScriptIndex "2023"
            (Some (filter (fun f => Is_true (usable f)) v1Dir)) = V1.Written r' ∧
          V1.written r' = V1.written r.
Proof.
  eexists.
  destruct (v1_passes_by_unusable_files "2023" v1Dir _ eq_refl) as (r' & H1 & H2 & _).
  exists r'. split; [reflexivity|]. split; [exact H1 | exact H2].
Defined.
